(** * Servess: routing, content negotiation and extension decoration

    A shallow embedding of the dispatch core of the servess HTTP routing
    library (router.ts, message-context.ts, internal-util.ts, headers.ts)
    and the properties its specification states about it.

    Conventions of the embedding:
    - JavaScript function objects that are compared by identity (the
      entries of a router's [handlers] array) are named by a [nat];
    - mutable state shared between callbacks is threaded explicitly;
    - an operation that can throw returns a [completion]. *)

From Stdlib Require Import Ascii String List Bool Arith ZArith QArith Lia Lqa Sorted Permutation.
From stdpp Require Import gmap strings list fin_maps.
Import ListNotations.
Local Open Scope string_scope.
Local Open Scope list_scope.

(** ** JavaScript completions *)

Inductive completion (A : Type) : Type :=
| Normal (a : A)
| Throw (msg : string).
Arguments Normal {A} a.
Arguments Throw {A} msg.

Definition cbind {A B} (c : completion A) (k : A -> completion B) : completion B :=
  match c with
  | Normal a => k a
  | Throw m => Throw m
  end.

(** ** Array helpers (Array.prototype.indexOf / splice) *)

Module JsArray.

(** [arr.indexOf(x)]; [None] stands for -1. *)
Fixpoint indexOf (x : nat) (arr : list nat) : option nat :=
  match arr with
  | [] => None
  | y :: r => if Nat.eqb y x then Some 0%nat else option_map S (indexOf x r)
  end.

(** The relative start index of [splice], given as JavaScript computes
    it: a negative start [-k] counts from the end and is clamped at 0. *)
Inductive jsIndex := Idx (i : nat) | NegIdx (k : nat).

Definition indexOfJs (x : nat) (arr : list nat) : jsIndex :=
  match indexOf x arr with
  | Some i => Idx i
  | None => NegIdx 1
  end.

Definition actualStart {A} (start : jsIndex) (arr : list A) : nat :=
  match start with
  | Idx i => Nat.min i (length arr)
  | NegIdx k => length arr - k
  end.

(** [arr.splice(start)] with a single argument: every element from
    [start] to the end is removed. The array that remains is returned. *)
Definition splice1 {A} (start : jsIndex) (arr : list A) : list A :=
  firstn (actualStart start arr) arr.

(** [arr.splice(start, 1)]: exactly one element is removed. *)
Definition splice_one {A} (start : jsIndex) (arr : list A) : list A :=
  let s := actualStart start arr in
  firstn s arr ++ skipn (S s) arr.

End JsArray.

(** ** Dispatch results (RouterHandleResponse) *)

Module RouterHandleResponse.

Inductive payload :=
| Text (s : string)
| Bytes (b : list Byte.byte)
| Stream (id : nat).

Inductive AnyType :=
| RESULT (result : payload)
| HANDLED
| UNHANDLED.

(** [RouterHandleResponse.is(result, Type.UNHANDLED)] *)
Definition is_UNHANDLED (r : AnyType) : bool :=
  match r with
  | UNHANDLED => true
  | _ => false
  end.

End RouterHandleResponse.
Import RouterHandleResponse.

(** ** The dispatch loop of a router (RouterContext.create, [handle])

    The loop is generic in what a target does when it is invoked: a
    target may be a route listener or the [handle] of a sub-router, and
    it may change the shared state [St] (in particular the router's own
    [handlers] array) before it settles. *)

Section Handle.

Variable St : Type.
(** The [handlers] array of the router, read from the shared state. *)
Variable handlers : St -> list nat.
(** Awaiting target [h] on the message context. *)
Variable invoke : nat -> St -> St * completion AnyType.

(** The body of [for (const handler of snapshot)]. The third component
    is the list of targets that were invoked, in order. *)
Fixpoint handle_loop (snapshot : list nat) (st : St)
  : St * completion AnyType * list nat :=
  match snapshot with
  | [] => (st, Normal UNHANDLED, [])
  | h :: rest =>
      match invoke h st with
      | (st', Normal r) =>
          if is_UNHANDLED r then
            let '(st'', res, tr) := handle_loop rest st' in (st'', res, h :: tr)
          else (st', Normal r, [h])
      | (st', Throw m) => (st', Throw m, [h])
      end
  end.

(** [handle(context)]: iterate over [handlers.slice()]. *)
Definition handle (st : St) : St * completion AnyType * list nat :=
  handle_loop (handlers st) st.

(** The states in which the targets of a snapshot are invoked when
    every one of them so far answered UNHANDLED. *)
Fixpoint state_after (pre : list nat) (st : St) : St :=
  match pre with
  | [] => st
  | h :: rest => state_after rest (fst (invoke h st))
  end.

(** Every target of [pre], invoked in turn from [st], answers UNHANDLED. *)
Fixpoint all_unhandled (pre : list nat) (st : St) : Prop :=
  match pre with
  | [] => True
  | h :: rest =>
      snd (invoke h st) = Normal UNHANDLED /\ all_unhandled rest (fst (invoke h st))
  end.

End Handle.

(** ** String helpers (String.prototype methods used by the source)

    A string is the sequence of its code units, each below 256: the
    character [ascii n] is the code unit [n]. This is the form in which
    the request line and the header lines reach the program (one code
    unit per byte received); a string with a code unit above 255 is not
    represented. [trim] removes the white space and line terminators of
    this range: the code units 9 to 13, 32 and 160. The case conversions
    act on the ASCII letters and leave every other code unit as it is. *)

Module JsString.

(** [s.split(c)] for a one-character separator. *)
Fixpoint split (c : ascii) (s : string) : list string :=
  match s with
  | EmptyString => [EmptyString]
  | String a r =>
      if Ascii.eqb a c then EmptyString :: split c r
      else match split c r with
           | x :: xs => String a x :: xs
           | [] => [String a EmptyString]
           end
  end.

(** [parts.join(sep)] *)
Definition join (sep : string) (parts : list string) : string :=
  String.concat sep parts.

Definition startsWith (s p : string) : bool := String.prefix p s.

(** [s.endsWith(suf)]: some suffix of [s] is [suf]. *)
Fixpoint endsWith (s suf : string) : bool :=
  (String.eqb s suf ||
   match s with
   | EmptyString => false
   | String _ r => endsWith r suf
   end)%bool.

(** [s.slice(1)] and [s.substring(1)] *)
Definition slice1 (s : string) : string :=
  match s with
  | EmptyString => EmptyString
  | String _ r => r
  end.

(** [s.slice(0, -1)] *)
Fixpoint removeLast (s : string) : string :=
  match s with
  | EmptyString => EmptyString
  | String a r =>
      match r with
      | EmptyString => EmptyString
      | _ => String a (removeLast r)
      end
  end.

(** [s.slice(0, s.length - k)] *)
Fixpoint dropEnd (k : nat) (s : string) : string :=
  match k with
  | O => s
  | S k' => dropEnd k' (removeLast s)
  end.

(** White space and line terminators: TAB, LF, VT, FF, CR, SP and the
    no-break space U+00A0. *)
Definition is_space (a : ascii) : bool :=
  let n := nat_of_ascii a in
  (Nat.eqb n 32 || (Nat.leb 9 n && Nat.leb n 13) || Nat.eqb n 160)%bool.

Fixpoint trimStart (s : string) : string :=
  match s with
  | EmptyString => EmptyString
  | String a r => if is_space a then trimStart r else s
  end.

(** Drops the trailing white space: a character is kept when it is not
    white space or when something is kept after it. *)
Fixpoint trimEnd (s : string) : string :=
  match s with
  | EmptyString => EmptyString
  | String a r =>
      match trimEnd r with
      | EmptyString => if is_space a then EmptyString else String a EmptyString
      | r' => String a r'
      end
  end.

Definition trim (s : string) : string := trimEnd (trimStart s).

Definition upper_ascii (a : ascii) : ascii :=
  let n := nat_of_ascii a in
  if (Nat.leb 97 n && Nat.leb n 122)%bool then ascii_of_nat (n - 32) else a.

Definition lower_ascii (a : ascii) : ascii :=
  let n := nat_of_ascii a in
  if (Nat.leb 65 n && Nat.leb n 90)%bool then ascii_of_nat (n + 32) else a.

Fixpoint map_string (f : ascii -> ascii) (s : string) : string :=
  match s with
  | EmptyString => EmptyString
  | String a r => String (f a) (map_string f r)
  end.

Definition toUpperCase : string -> string := map_string upper_ascii.
Definition toLowerCase : string -> string := map_string lower_ascii.

(** Membership of a string in a list of strings, as a boolean. *)
Definition mem (s : string) (l : list string) : bool :=
  existsb (String.eqb s) l.

End JsString.

(** ** Regular expressions built by [getPathRegExp]

    [new RegExp(source)] is modelled on a fragment of the pattern
    syntax: what [getPathRegExp] itself writes plus the atoms and
    quantifiers a literal path segment can contribute, namely a start
    anchor, ordinary characters, [.], the quantifiers [*], [+], [?],
    the named group [(?<name>[^/]+)], character classes without range
    or escape, groups without a name or quantifier, and a final [$].
    A source that is ill-formed inside this fragment is a [SyntaxError];
    a source that leaves the fragment (braces, alternation, escapes,
    ranges, lazy quantifiers, quantified groups, look-around, group
    names outside ASCII) is reported as [OutsideFragment] and nothing
    is stated about it.

    The source is read by [parse_body], which knows neither classes nor
    groups without a name; where that reader leaves its fragment the
    source is read again by [parse_wide], which knows them. *)

Module RegExp.

Inductive charset :=
| CLit (c : ascii)      (* an ordinary character *)
| CAny                  (* [.]: anything but a line terminator *)
| CNotSlash             (* [[^/]] *)
| CClass (negated : bool) (members : list ascii).   (* [[...]] and [[^...]] *)

Inductive quant := QOne | QOpt | QStar | QPlus.

Record item := Item { cs : charset; qt : quant; gname : option string }.

(** A compiled pattern; every source starts with [^]. *)
Record regex := Regex { items : list item; anchoredEnd : bool }.

Inductive result :=
| Compiled (re : regex)
| SyntaxError
| OutsideFragment.

Definition is_alpha (a : ascii) : bool :=
  let n := nat_of_ascii a in
  ((Nat.leb 65 n && Nat.leb n 90) || (Nat.leb 97 n && Nat.leb n 122))%bool.

Definition is_digit (a : ascii) : bool :=
  let n := nat_of_ascii a in (Nat.leb 48 n && Nat.leb n 57)%bool.

(** ASCII part of ID_Start and ID_Continue of a group name. *)
Definition id_start (a : ascii) : bool :=
  (is_alpha a || Ascii.eqb a "$" || Ascii.eqb a "_")%bool.
Definition id_continue (a : ascii) : bool := (id_start a || is_digit a)%bool.

(** Characters of a group name the model does not decide: the code
    units above 127 and the backslash of a unicode escape. *)
Definition id_undecided (a : ascii) : bool :=
  (Nat.leb 128 (nat_of_ascii a) || Ascii.eqb a "\")%bool.

(** Syntax characters that take a source out of the fragment. *)
Definition leaves_fragment (a : ascii) : bool :=
  JsString.mem (String a EmptyString)
    ["("; ")"; "["; "]"; "{"; "}"; "|"; "\"; "^"; "$"].

(** The identifier characters at the head of [s], and what follows. *)
Fixpoint read_name (s : string) : string * string :=
  match s with
  | String a r =>
      if id_continue a then let '(n, rest) := read_name r in (String a n, rest)
      else (EmptyString, s)
  | EmptyString => (EmptyString, EmptyString)
  end.

Definition has_group (n : string) (acc : list item) : bool :=
  existsb (fun it => match gname it with
                     | Some m => String.eqb m n
                     | None => false
                     end) acc.

(** What follows [(?<] in the source. *)
Inductive group_head :=
| GroupNamed (n rest : string)
| GroupSyntaxError
| GroupOutside.

Definition read_group (s : string) : group_head :=
  match s with
  | EmptyString => GroupSyntaxError
  | String a _ =>
      if (Ascii.eqb a "=" || Ascii.eqb a "!" || id_undecided a)%bool then GroupOutside
      else if negb (id_start a) then GroupSyntaxError
      else
        let '(n, rest) := read_name s in
        match rest with
        | String b rest' =>
            if Ascii.eqb b ">" then GroupNamed n rest'
            else if id_undecided b then GroupOutside
            else GroupSyntaxError
        | EmptyString => GroupSyntaxError
        end
  end.

(** Applying a quantifier to the last atom read ([acc] is reversed). *)
Definition quantify (qn : quant) (lazy : bool) (acc : list item) : result + list item :=
  match acc with
  | [] => inl SyntaxError   (* nothing to repeat *)
  | it :: acc' =>
      match gname it, qt it with
      | Some _, _ => inl OutsideFragment  (* a quantified group *)
      | None, QOne => inr (Item (cs it) qn None :: acc')
      | None, _ => inl (if lazy then OutsideFragment else SyntaxError)
      end
  end.

(** The body of the pattern after [^], read from left to right. After a
    named group has been recognised, [skip] counts the characters of its
    text that are still to be passed over. *)
Fixpoint parse_body (s : string) (skip : nat) (acc : list item) : result :=
  match s with
  | EmptyString => Compiled (Regex (rev acc) false)
  | String a r =>
      match skip with
      | S k => parse_body r k acc
      | O =>
          if (Ascii.eqb a "$" && String.eqb r EmptyString)%bool then
            Compiled (Regex (rev acc) true)
          else if Ascii.eqb a "*" then
            match quantify QStar false acc with
            | inl e => e
            | inr acc' => parse_body r 0 acc'
            end
          else if Ascii.eqb a "+" then
            match quantify QPlus false acc with
            | inl e => e
            | inr acc' => parse_body r 0 acc'
            end
          else if Ascii.eqb a "?" then
            match quantify QOpt true acc with
            | inl e => e
            | inr acc' => parse_body r 0 acc'
            end
          else if Ascii.eqb a "." then
            parse_body r 0 (Item CAny QOne None :: acc)
          else if (Ascii.eqb a "(" && JsString.startsWith r "?<")%bool then
            match read_group (JsString.slice1 (JsString.slice1 r)) with
            | GroupNamed n rest =>
                if negb (JsString.startsWith rest "[^/]+)") then OutsideFragment
                else if has_group n acc then SyntaxError
                else parse_body r (String.length n + 9) (Item CNotSlash QPlus (Some n) :: acc)
            | GroupSyntaxError => SyntaxError
            | GroupOutside => OutsideFragment
            end
          else if leaves_fragment a then OutsideFragment
          else parse_body r 0 (Item (CLit a) QOne None :: acc)
      end
  end.

(** What a quantifier would apply to. *)
Inductive preceding :=
| NothingBefore         (* the start of the pattern or of a group *)
| AtomBefore            (* a character, [.] or a class *)
| GroupBefore.          (* a group *)

(** The body of the pattern read with character classes and groups
    without a name. [depth] counts the groups that are open, [class]
    holds the members read of a class that is open. A group without a
    name or quantifier matches as its contents do and adds nothing to
    the named groups, so its items are listed in place. *)
Fixpoint parse_wide (s : string) (skip depth : nat) (before : preceding)
         (class : option (bool * list ascii)) (acc : list item) : result :=
  match s with
  | EmptyString =>
      match class, depth with
      | None, O => Compiled (Regex (rev acc) false)
      | _, _ => SyntaxError      (* unterminated class or group *)
      end
  | String a r =>
      match skip with
      | S k => parse_wide r k depth before class acc
      | O =>
          match class with
          | Some (negated, members) =>
              if Ascii.eqb a "]" then
                parse_wide r 0 depth AtomBefore None
                  (Item (CClass negated (rev members)) QOne None :: acc)
              else if (Ascii.eqb a "\" || Ascii.eqb a "-")%bool then OutsideFragment
              else parse_wide r 0 depth before (Some (negated, a :: members)) acc
          | None =>
              let repeat (qn : quant) (lazy : bool) :=
                match before with
                | NothingBefore => SyntaxError      (* nothing to repeat *)
                | GroupBefore => OutsideFragment
                | AtomBefore =>
                    match quantify qn lazy acc with
                    | inl e => e
                    | inr acc' => parse_wide r 0 depth AtomBefore None acc'
                    end
                end in
              if (Ascii.eqb a "$" && String.eqb r EmptyString)%bool then
                match depth with
                | O => Compiled (Regex (rev acc) true)
                | S _ => SyntaxError
                end
              else if Ascii.eqb a "*" then repeat QStar false
              else if Ascii.eqb a "+" then repeat QPlus false
              else if Ascii.eqb a "?" then repeat QOpt true
              else if Ascii.eqb a "." then
                parse_wide r 0 depth AtomBefore None (Item CAny QOne None :: acc)
              else if (Ascii.eqb a "(" && JsString.startsWith r "?<")%bool then
                match read_group (JsString.slice1 (JsString.slice1 r)) with
                | GroupNamed n rest =>
                    if negb (JsString.startsWith rest "[^/]+)") then OutsideFragment
                    else if has_group n acc then SyntaxError
                    else parse_wide r (String.length n + 9) depth GroupBefore None
                           (Item CNotSlash QPlus (Some n) :: acc)
                | GroupSyntaxError => SyntaxError
                | GroupOutside => OutsideFragment
                end
              else if (Ascii.eqb a "(" && JsString.startsWith r "?")%bool then OutsideFragment
              else if Ascii.eqb a "(" then parse_wide r 0 (S depth) NothingBefore None acc
              else if Ascii.eqb a ")" then
                match depth with
                | O => SyntaxError                      (* unmatched parenthesis *)
                | S d => parse_wide r 0 d GroupBefore None acc
                end
              else if Ascii.eqb a "[" then
                if JsString.startsWith r "^" then parse_wide r 1 depth before (Some (true, [])) acc
                else parse_wide r 0 depth before (Some (false, [])) acc
              else if leaves_fragment a then OutsideFragment
              else parse_wide r 0 depth AtomBefore None (Item (CLit a) QOne None :: acc)
          end
      end
  end.

(** [new RegExp(source)] *)
Definition create (source : string) : result :=
  match source with
  | String "^" body =>
      match parse_body body 0 [] with
      | OutsideFragment => parse_wide body 0 0 NothingBefore None []
      | decided => decided
      end
  | _ => OutsideFragment
  end.

(** *** Matching *)

Definition is_line_terminator (a : ascii) : bool :=
  let n := nat_of_ascii a in (Nat.eqb n 10 || Nat.eqb n 13)%bool.

Definition cs_match (c : charset) (a : ascii) : bool :=
  match c with
  | CLit b => Ascii.eqb a b
  | CAny => negb (is_line_terminator a)
  | CNotSlash => negb (Ascii.eqb a "/")
  | CClass negated members => xorb negated (existsb (Ascii.eqb a) members)
  end.

(** Captures, in the order of the groups of the pattern. *)
Definition captures := list (string * string).

Section Greedy.
Variable c : charset.
Variable k : list ascii -> option captures.

(** Greedy repetition: take as many characters as [c] allows, giving
    characters back until the continuation [k] succeeds. The result
    carries the characters that the repetition kept. *)
Fixpoint star (s : list ascii) : option (list ascii * captures) :=
  match s with
  | a :: r =>
      if cs_match c a then
        match star r with
        | Some (w, res) => Some (a :: w, res)
        | None => option_map (pair []) (k s)
        end
      else option_map (pair []) (k s)
  | [] => option_map (pair []) (k [])
  end.

Definition one (s : list ascii) : option (list ascii * captures) :=
  match s with
  | a :: r => if cs_match c a then option_map (pair [a]) (k r) else None
  | [] => None
  end.

Definition opt (s : list ascii) : option (list ascii * captures) :=
  match one s with
  | Some x => Some x
  | None => option_map (pair []) (k s)
  end.

Definition plus (s : list ascii) : option (list ascii * captures) :=
  match s with
  | a :: r =>
      if cs_match c a then
        match star r with
        | Some (w, res) => Some (a :: w, res)
        | None => None
        end
      else None
  | [] => None
  end.
End Greedy.

Definition bind_group (g : option string) (x : option (list ascii * captures))
  : option captures :=
  match x with
  | None => None
  | Some (w, res) =>
      match g with
      | Some n => Some ((n, string_of_list_ascii w) :: res)
      | None => Some res
      end
  end.

(** Backtracking match of the items from the start of the input. *)
Fixpoint run (its : list item) (anch : bool) : list ascii -> option captures :=
  match its with
  | [] => fun s =>
      if anch then match s with [] => Some [] | _ => None end else Some []
  | it :: rest =>
      let k := run rest anch in
      fun s =>
        bind_group (gname it)
          (match qt it with
           | QOne => one (cs it) k s
           | QOpt => opt (cs it) k s
           | QStar => star (cs it) k s
           | QPlus => plus (cs it) k s
           end)
  end.

(** The names of the groups of a pattern, in order. *)
Definition groupNames (re : regex) : list string := omap gname (items re).

Definition has_named_groups (re : regex) : bool :=
  existsb (fun it => match gname it with Some _ => true | None => false end) (items re).

(** The result of [re.exec(s)]: [None] is [null]; of a match only the
    [groups] field is kept, which is [undefined] ([None]) for a pattern
    without named groups. *)
Definition exec (re : regex) (s : string) : option (option captures) :=
  match run (items re) (anchoredEnd re) (list_ascii_of_string s) with
  | None => None
  | Some caps => Some (if has_named_groups re then Some caps else None)
  end.

(** [re.test(s)] *)
Definition test (re : regex) (s : string) : bool :=
  match exec re s with
  | Some _ => true
  | None => false
  end.

End RegExp.

(** ** Message context state

    The read-only part of a message context (what the incoming request
    supplies) is a [Request]; everything a callback can change during a
    dispatch is in the [World]: the fields [params], the response status
    and headers and the externally-handled flag of the message context,
    and the [handlers] array of the router it is dispatched on. *)

Record Request := {
  method : string;
  path : string;
  accept : option string       (* req.headers.accept *)
}.

(** A value stored in a [Headers] container. *)
Inductive stringable :=
| Str (s : string)
| NumText (z : Z)              (* the decimal text of a number *)
| Inherited (key : string).    (* a member inherited from [Object.prototype] *)

Record World := {
  handlers : list nat;
  params : option RegExp.captures;           (* [None] is [undefined] *)
  responseStatus : Z;
  responseHeaders : gmap string (list stringable);
  externallyHandled : bool
}.

Definition set_handlers (hs : list nat) (w : World) : World :=
  {| handlers := hs; params := params w; responseStatus := responseStatus w;
     responseHeaders := responseHeaders w; externallyHandled := externallyHandled w |}.

Definition set_params (p : option RegExp.captures) (w : World) : World :=
  {| handlers := handlers w; params := p; responseStatus := responseStatus w;
     responseHeaders := responseHeaders w; externallyHandled := externallyHandled w |}.

Definition set_status (s : Z) (w : World) : World :=
  {| handlers := handlers w; params := params w; responseStatus := s;
     responseHeaders := responseHeaders w; externallyHandled := externallyHandled w |}.

Definition set_responseHeaders (h : gmap string (list stringable)) (w : World) : World :=
  {| handlers := handlers w; params := params w; responseStatus := responseStatus w;
     responseHeaders := h; externallyHandled := externallyHandled w |}.

(** ** Route listeners and routers (router.ts) *)

(** A precondition of a listener: the method test installed by [add], or
    a predicate supplied by the application, named by an index into the
    callback environment. *)
Inductive preCondition :=
| MethodIs (METHOD : string)          (* ctx => ctx.method === METHOD *)
| UserPreCondition (id : nat).

Record Listener := {
  pathAsRegExp : RegExp.regex;
  preConditions : list preCondition;
  routeHandler : nat                   (* index of the current route handler *)
}.

(** The callbacks of the application. A route handler returns [None] for
    [undefined]. Callbacks see the request and may change the world (in
    particular they may detach listeners); the preconditions and the
    handler of a listener are fixed while a request is dispatched. *)
Record Callbacks := {
  userPreCondition : nat -> Request -> World -> World * completion bool;
  userHandler : nat -> Request -> World ->
                World * completion (option RouterHandleResponse.payload)
}.

(** The closure of [RouterContext.create] apart from the [handlers]
    array: the prefix, the listeners created so far and the next fresh
    function identity. *)
Record Router := {
  prefix : string;
  table : gmap nat Listener;
  fresh : nat
}.

Module RouterContext.

Import JsString.

(** The normalised prefix [prefixPath]. *)
Definition prefixPath (prefix : string) : string :=
  if Nat.eqb (String.length prefix) 1 then
    if String.eqb prefix "/" then "/" else "/" ++ prefix ++ "/"
  else if startsWith prefix "/" then
    if endsWith prefix "/" then prefix else prefix ++ "/"
  else if endsWith prefix "/" then "/" ++ prefix
  else "/" ++ prefix ++ "/".

(** [part => part.startsWith(':') ? `(?<${part.substring(1)}>[^/]+)` : part] *)
Definition paramCutout (part : string) : string :=
  if startsWith part ":" then "(?<" ++ slice1 part ++ ">[^/]+)" else part.

Definition fullPath (prefix path : string) : string :=
  prefixPath prefix ++ (if startsWith path "/" then slice1 path else path).

(** [.replace(/\/$/, '/?')] *)
Definition optionalTrailingSlash (s : string) : string :=
  if endsWith s "/" then dropEnd 1 s ++ "/?" else s.

Definition fullPathWithParamCutouts (prefix path : string) : string :=
  optionalTrailingSlash
    (join "/" (map paramCutout (split "/" (fullPath prefix path)))).

(** The source text handed to [new RegExp]. *)
Definition regExpSource (prefix path : string) : string :=
  let p := fullPathWithParamCutouts prefix path in
  "^" ++ (if endsWith p "/*" then dropEnd 2 p ++ "/.*" else p ++ "$").

Definition getPathRegExp (prefix path : string) : RegExp.result :=
  RegExp.create (regExpSource prefix path).

(** The outcome of a registration call. *)
Inductive registration :=
| Registered (rt : Router) (w : World) (listener : nat)
| RegistrationThrows                (* SyntaxError from [new RegExp] *)
| RegistrationOutsideFragment.

(** [any(path, handler)] *)
Definition any (p : string) (handler : nat) (rt : Router) (w : World) : registration :=
  match getPathRegExp (prefix rt) p with
  | RegExp.Compiled re =>
      let l := fresh rt in
      let lst := {| pathAsRegExp := re; preConditions := []; routeHandler := handler |} in
      Registered {| prefix := prefix rt; table := <[l := lst]> (table rt); fresh := S l |}
                 (set_handlers (handlers w ++ [l]) w) l
  | RegExp.SyntaxError => RegistrationThrows
  | RegExp.OutsideFragment => RegistrationOutsideFragment
  end.

(** [listener.addPreCondition(pred)] *)
Definition addPreCondition (l : nat) (pred : preCondition) (rt : Router) : Router :=
  {| prefix := prefix rt;
     table := alter (fun lst => {| pathAsRegExp := pathAsRegExp lst;
                                   preConditions := preConditions lst ++ [pred];
                                   routeHandler := routeHandler lst |}) l (table rt);
     fresh := fresh rt |}.

(** [add(method, path, handler)] *)
Definition add (m p : string) (handler : nat) (rt : Router) (w : World) : registration :=
  match any p handler rt w with
  | Registered rt' w' l =>
      let METHOD := toUpperCase m in
      Registered (addPreCondition l (MethodIs METHOD) rt') w' l
  | r => r
  end.

Definition get := add "GET".
Definition post := add "POST".
Definition put := add "PUT".
Definition delete := add "DELETE".
Definition patch := add "PATCH".
Definition options := add "OPTIONS".
Definition head := add "HEAD".

(** The detach function of a listener:
    [() => handlers.splice(handlers.indexOf(listener))] *)
Definition detachListener (l : nat) (w : World) : World :=
  set_handlers (JsArray.splice1 (JsArray.indexOfJs l (handlers w)) (handlers w)) w.

(** The detach function of a sub-router whose [handle] is target [r]:
    [const index = handlers.indexOf(router.handle)
     if (index !== -1) handlers.splice(index, 1)] *)
Definition detachRouter (r : nat) (w : World) : World :=
  match JsArray.indexOf r (handlers w) with
  | Some i => set_handlers (JsArray.splice_one (JsArray.Idx i) (handlers w)) w
  | None => w
  end.

End RouterContext.

Module RouteListener.

Section Invoke.
Variable cb : Callbacks.
Variable req : Request.

Definition evalPreCondition (p : preCondition) (w : World) : World * completion bool :=
  match p with
  | MethodIs METHOD => (w, Normal (String.eqb (method req) METHOD))
  | UserPreCondition i => userPreCondition cb i req w
  end.

(** [for (const preCondition of preConditions) if (!await preCondition(ctx)) return UNHANDLED];
    [Normal true] when every precondition held. *)
Fixpoint checkPreConditions (ps : list preCondition) (w : World) : World * completion bool :=
  match ps with
  | [] => (w, Normal true)
  | p :: rest =>
      match evalPreCondition p w with
      | (w', Normal true) => checkPreConditions rest w'
      | (w', Normal false) => (w', Normal false)
      | (w', Throw m) => (w', Throw m)
      end
  end.

(** What [wrappedRouteHandler] makes of the settled route handler:
    [undefined] becomes HANDLED, a value becomes a RESULT. *)
Definition toResponse (r : World * completion (option RouterHandleResponse.payload))
  : World * completion AnyType :=
  match r with
  | (w, Throw m) => (w, Throw m)
  | (w, Normal None) => (w, Normal HANDLED)
  | (w, Normal (Some result)) => (w, Normal (RESULT result))
  end.

(** [wrappedRouteHandler(ctx)] *)
Definition wrappedRouteHandler (lst : Listener) (w : World)
  : World * completion AnyType :=
  if negb (RegExp.test (pathAsRegExp lst) (path req)) then (w, Normal UNHANDLED)
  else
    match checkPreConditions (preConditions lst) w with
    | (w1, Throw m) => (w1, Throw m)
    | (w1, Normal false) => (w1, Normal UNHANDLED)
    | (w1, Normal true) =>
        match RegExp.exec (pathAsRegExp lst) (path req) with
        | None => (w1, Throw "TypeError")     (* [null.groups] *)
        | Some groups =>
            let w2 := set_params groups w1 in
            toResponse (userHandler cb (routeHandler lst) req w2)
        end
    end.

(** A target that is not a listener is the [handle] of a sub-router:
    what it does when it is awaited on the message context. *)
Variable subRouterHandle : nat -> World -> World * completion AnyType.

(** Invoking the target [h] of a router whose listeners are [tbl]. *)
Definition invokeTarget (tbl : gmap nat Listener) (h : nat) (w : World)
  : World * completion AnyType :=
  match tbl !! h with
  | Some lst => wrappedRouteHandler lst w
  | None => subRouterHandle h w
  end.

(** [router.handle(ctx)] *)
Definition routerHandle (rt : Router) (w : World) :=
  handle World handlers (invokeTarget (table rt)) w.

End Invoke.

(** For a router without sub-routers: every target is a listener, and
    this stand-in for the sub-routers is never awaited. *)
Definition noSubRouter (h : nat) (w : World) : World * completion AnyType :=
  (w, Normal UNHANDLED).

End RouteListener.

(** ** Numbers and values of the accept-header parser *)

(** A JavaScript number as far as the sign of a difference needs it. *)
Inductive num :=
| NaN
| Fin (x : Q)
| PosInf
| NegInf.

Inductive jsval :=
| VUndefined
| VString (s : string)
| VNumber (n : num).

Module JsNum.

(** [a - b] *)
Definition sub (a b : num) : num :=
  match a, b with
  | NaN, _ | _, NaN => NaN
  | Fin x, Fin y => Fin (x - y)
  | Fin _, PosInf => NegInf
  | Fin _, NegInf => PosInf
  | PosInf, PosInf => NaN
  | PosInf, _ => PosInf
  | NegInf, NegInf => NaN
  | NegInf, _ => NegInf
  end.

Definition isNaN (a : num) : bool :=
  match a with NaN => true | _ => false end.

(** [v < 0], where a NaN comparator result counts as [+0] (SortCompare). *)
Definition negative (a : num) : bool :=
  match a with
  | Fin x => match Qcompare x 0 with Lt => true | _ => false end
  | NegInf => true
  | _ => false
  end.

End JsNum.

(** ** Message context (message-context.ts) *)

Module MessageContext.

Import JsString.

Definition mimeTypeShorthands : list (string * string) :=
  [ ("json", "application/json");
    ("html", "text/html");
    ("css", "text/css");
    ("js", "text/javascript");
    ("javascript", "text/javascript");
    ("svg", "image/svg+xml");
    ("png", "image/png");
    ("jpeg", "image/jpeg");
    ("jpg", "image/jpeg") ].

(** The property names every object literal inherits from
    [Object.prototype]; the [in] operator finds them too. *)
Definition objectPrototypeKeys : list string :=
  [ "constructor"; "__defineGetter__"; "__defineSetter__"; "hasOwnProperty";
    "__lookupGetter__"; "__lookupSetter__"; "isPrototypeOf";
    "propertyIsEnumerable"; "toString"; "valueOf"; "__proto__"; "toLocaleString" ].

Fixpoint assoc {A} (k : string) (l : list (string * A)) : option A :=
  match l with
  | [] => None
  | (k', v) :: r => if String.eqb k' k then Some v else assoc k r
  end.

(** *** Parsing of the accept header *)

Record acceptEntry := { mimeType : jsval; q : jsval }.

Section Accepts.

(** [+value] on a string (StringToNumber of the language). *)
Variable toNumber : string -> num.

(** [+value] where [value] may be [undefined]. *)
Definition toNumberOpt (value : option string) : num :=
  match value with
  | Some s => toNumber s
  | None => NaN
  end.

(** ToNumber on a field of an entry. *)
Definition numberOf (v : jsval) : num :=
  match v with
  | VUndefined => NaN
  | VString s => toNumber s
  | VNumber n => n
  end.

(** [const [name, value] = it.split('=')] *)
Definition nameValue (it : string) : string * option string :=
  match split "=" it with
  | n :: v :: _ => (n, Some v)
  | n :: [] => (n, None)
  | [] => (EmptyString, None)
  end.

(** One step of the [reduce] over the parameters, applied to the
    fields [mimeType] and [q] of the entry under construction:
    a parameter named like a field overwrites it. *)
Definition applyParam (e : acceptEntry) (it : string) : acceptEntry :=
  let '(name, value) := nameValue it in
  if String.eqb name EmptyString then e
  else
    let v := if JsNum.isNaN (toNumberOpt value)
             then match value with Some s => VString s | None => VUndefined end
             else VNumber (toNumberOpt value) in
    if String.eqb name "mimeType" then {| mimeType := v; q := q e |}
    else if String.eqb name "q" then {| mimeType := mimeType e; q := v |}
    else e.

(** The entry of one comma-separated element of the header. *)
Definition parseEntry (it : string) : acceptEntry :=
  match map trim (split ";" it) with
  | m :: paramsS =>
      fold_left applyParam paramsS {| mimeType := VString m; q := VNumber (Fin 1) |}
  | [] => {| mimeType := VUndefined; q := VNumber (Fin 1) |}
  end.

(** [(a, b) => b.q - a.q] is negative: [a] sorts before [b]. *)
Definition before (a b : acceptEntry) : bool :=
  JsNum.negative (JsNum.sub (numberOf (q b)) (numberOf (q a))).

(** A stable sort: an element moves in front of exactly those it
    strictly precedes. *)
Fixpoint insert (x : acceptEntry) (l : list acceptEntry) : list acceptEntry :=
  match l with
  | [] => [x]
  | y :: r => if before y x then y :: insert x r else x :: y :: r
  end.

Definition stableSort (l : list acceptEntry) : list acceptEntry :=
  fold_right insert [] l.

(** The quality of the entry is a finite number. *)
Definition finiteQuality (e : acceptEntry) : bool :=
  match numberOf (q e) with
  | Fin _ => true
  | _ => false
  end.

(** What the engine makes of an array of two or more entries when the
    comparator is not a consistent one; the language leaves that order
    to the implementation. *)
Variable engineOrder : list acceptEntry -> list acceptEntry.

(** [entries.sort((a, b) => b.q - a.q)]. The comparator is a consistent
    one exactly when no difference is NaN, that is, when every quality
    is a finite number; [Array.prototype.sort] is then the stable sort. *)
Definition sort (l : list acceptEntry) : list acceptEntry :=
  match l with
  | [] | [_] => l
  | _ => if forallb finiteQuality l then stableSort l else engineOrder l
  end.

(** [calc()] *)
Definition calc (req : Request) : list acceptEntry :=
  sort (map parseEntry (split "," (match accept req with Some h => h | None => EmptyString end))).

(** *** accepts *)

(** The first two components of [s.split('/')]. *)
Definition typePair (s : string) : string * option string :=
  match split "/" s with
  | a :: b :: _ => (a, Some b)
  | a :: [] => (a, None)
  | [] => (EmptyString, None)
  end.

(** One element of [resolvedTypes]. *)
Definition resolveType (it : string) : completion (string * option string * string) :=
  match assoc it mimeTypeShorthands with
  | Some full => Normal (typePair full, it)
  | None =>
      if mem it objectPrototypeKeys then Throw "TypeError"
      else Normal (typePair it, it)
  end.

Fixpoint resolveTypes (types : list string)
  : completion (list (string * option string * string)) :=
  match types with
  | [] => Normal []
  | t :: r =>
      cbind (resolveType t) (fun x =>
      cbind (resolveTypes r) (fun xs => Normal (x :: xs)))
  end.

Definition eqb_opt (a b : option string) : bool :=
  match a, b with
  | Some x, Some y => String.eqb x y
  | None, None => true
  | _, _ => false
  end.

(** The inner loop over [resolvedTypes] for one accept entry. *)
Fixpoint scanTypes (acceptTypeFirst : string) (acceptTypeSecond : option string)
         (resolved : list (string * option string * string)) : option string :=
  match resolved with
  | [] => None
  | (typeFirst, typeSecond, value) :: r =>
      if negb (String.eqb acceptTypeFirst typeFirst) then
        scanTypes acceptTypeFirst acceptTypeSecond r
      else if eqb_opt acceptTypeSecond (Some "*") then Some value
      else if eqb_opt acceptTypeSecond typeSecond then Some value
      else scanTypes acceptTypeFirst acceptTypeSecond r
  end.

(** The outer loop over the sorted accept entries; [None] is [false]. *)
Fixpoint walk (first : string) (resolved : list (string * option string * string))
         (entries : list acceptEntry) : completion (option string) :=
  match entries with
  | [] => Normal None
  | e :: r =>
      match mimeType e with
      | VString m =>
          if String.eqb m "*/*" then Normal (Some first)
          else
            let '(f, s) := typePair m in
            match scanTypes f s resolved with
            | Some value => Normal (Some value)
            | None => walk first resolved r
            end
      | _ => Throw "TypeError"    (* [mimeType.split] is not a function *)
      end
  end.

(** [ctx.accepts(...types)] *)
Definition accepts (req : Request) (types : list string) : completion (option string) :=
  match types with
  | [] => Normal None
  | first :: _ =>
      cbind (resolveTypes types) (fun resolved => walk first resolved (calc req))
  end.

(** *** accepting *)

(** [keys.splice(keys.indexOf('else'), 1)] *)
Fixpoint removeFirst (k : string) (keys : list string) : list string :=
  match keys with
  | [] => []
  | x :: r => if String.eqb x k then r else x :: removeFirst k r
  end.

Variable cb : Callbacks.

(** [ctx.accepting(obj)]; the object is given by its entries in
    [Object.keys] order, each handler by its index. *)
Definition accepting (req : Request) (obj : list (string * nat)) (w : World)
  : World * completion (option RouterHandleResponse.payload) :=
  let keys := map fst obj in
  if negb (mem "else" keys) then
    (w, Throw "Must include a handling for anything else that does not match your defined mime types")
  else
    let callElse :=
      match assoc "else" obj with
      | Some h => userHandler cb h req w
      | None => (w, Throw "TypeError")
      end in
    match removeFirst "else" keys with
    | [] => callElse
    | keys' =>
        match accepts req keys' with
        | Throw m => (w, Throw m)
        | Normal (Some res) =>
            match assoc res obj with
            | Some h => userHandler cb h req w
            | None => (w, Throw "TypeError")
            end
        | Normal None => callElse
        end
    end.

End Accepts.

(** An engine order for evaluating the functions on concrete headers:
    the entries as they are. The headers evaluated here have finite
    qualities or a single element, for which no engine order is
    consulted. *)
Definition unsorted (l : list acceptEntry) : list acceptEntry := l.

End MessageContext.

(** ** Response mutators of the message context *)

Module Response.

Import JsString.

(** The argument of [setHeader]. *)
Inductive headerArg :=
| ANum (z : Z)
| AStr (s : string)
| AArr (l : list string)
| AUndef.

(** [Headers.prototype.set(name, value)] *)
Definition headersSet (name : string) (value : list stringable)
           (h : gmap string (list stringable)) : gmap string (list stringable) :=
  <[toLowerCase name := value]> h.

(** The values [set] stores for one argument. *)
Definition storedValues (value : headerArg) : list stringable :=
  match value with
  | ANum z => [NumText z]
  | AStr s => [Str s]
  | AArr l => map Str l
  | AUndef => []
  end.

(** [''+value] *)
Definition textOf (value : headerArg) : option string :=
  match value with
  | ANum _ => None
  | AStr s => Some s
  | AArr l => Some (join "," l)
  | AUndef => Some "undefined"
  end.

(** [ctx.status(status)] *)
Definition status (s : Z) (w : World) : World := set_status s w.

(** [ctx.setHeader(name, value)] *)
Definition setHeader (name : string) (value : headerArg) (w : World) : World :=
  let plain := set_responseHeaders (headersSet name (storedValues value) (responseHeaders w)) w in
  if String.eqb (toLowerCase name) "content-type" then
    match textOf value with
    | Some t =>
        match MessageContext.assoc t MessageContext.mimeTypeShorthands with
        | Some full => set_responseHeaders (headersSet name [Str full] (responseHeaders w)) w
        | None =>
            if mem t MessageContext.objectPrototypeKeys
            then set_responseHeaders (headersSet name [Inherited t] (responseHeaders w)) w
            else plain
        end
    | None => plain
    end
  else plain.

Definition unsafeMethod (req : Request) : bool :=
  (String.eqb (method req) "PUT" || String.eqb (method req) "POST")%bool.

Definition redirect (req : Request) (location : string) (w : World) : World :=
  setHeader "Location" (AStr location)
    (status (if unsafeMethod req then 303 else 307)%Z w).

Definition redirectPermanent (req : Request) (location : string) (w : World) : World :=
  setHeader "Location" (AStr location)
    (status (if unsafeMethod req then 303 else 308)%Z w).

Definition redirectPermanentCompat (req : Request) (location : string) (w : World) : World :=
  setHeader "Location" (AStr location)
    (status (if unsafeMethod req then 303 else 301)%Z w).

End Response.

(** ** Extension decoration (internal-util.ts, [install] of the application)

    A target of a decoration is given by its fields, a finite map from
    field names to values of an arbitrary type [V], and by the names it
    refuses to be assigned ([readOnly]): its non-writable properties and
    its accessors without a setter. A decoration hook is a function of
    the target that returns a partial object or nothing; a partial
    object is given by its own enumerable fields in property order. *)

Module Decoration.

Section Decorate.

Variable V : Type.

Abbreviation object := (gmap string V).
Abbreviation partial := (list (string * V)).

Record Extension := {
  name : string;
  decorateApplication : option (object -> option partial);
  decorateRouterContext : option (object -> option partial);
  decorateMessageContext : option (object -> option partial)
}.

Definition hookName := Extension -> option (object -> option partial).

(** [array.filter(item => functionName in item).map(item => item[functionName](...params))]:
    for every extension that defines the hook, in order, its name and
    what the hook returned. *)
Fixpoint execFunctionOnArray (array : list Extension) (functionName : hookName)
         (target : object) : list (string * option partial) :=
  match array with
  | [] => []
  | item :: r =>
      match functionName item with
      | Some hook => (name item, hook target) :: execFunctionOnArray r functionName target
      | None => execFunctionOnArray r functionName target
      end
  end.

(** [results.filter(Boolean)] *)
Definition filterBoolean (results : list (string * option partial)) : list partial :=
  omap snd results.

(** The hooks invoked by a call, by extension name, in order. *)
Definition invoked (results : list (string * option partial)) : list string :=
  map fst results.

(** The names the target refuses to be assigned. *)
Variable readOnly : string -> bool.

(** The assignments of one source of [Object.assign]: the fields are
    set in property order; setting a name the target refuses throws a
    TypeError and leaves the fields set so far. *)
Fixpoint assignFields (target : object) (source : partial) : object * completion unit :=
  match source with
  | [] => (target, Normal tt)
  | (key, value) :: r =>
      if readOnly key then (target, Throw "TypeError")
      else assignFields (<[key := value]> target) r
  end.

(** [Object.assign(target, ...sources)]: the target afterwards, and
    whether the call returned. *)
Fixpoint objectAssign (target : object) (sources : list partial)
  : object * completion unit :=
  match sources with
  | [] => (target, Normal tt)
  | source :: r =>
      match assignFields target source with
      | (target', Normal _) => objectAssign target' r
      | (target', Throw m) => (target', Throw m)
      end
  end.

(** [decorateApplication(app, ...extensions)]: the application
    afterwards, whether the call returned, and the trace of invoked
    hooks. Every hook has run before the assignment starts. *)
Definition decorateApplicationWith (app : object) (extensions : list Extension)
  : object * completion unit * list string :=
  let results := execFunctionOnArray extensions decorateApplication app in
  (objectAssign app (filterBoolean results), invoked results).

(** [decorateRouterContext(router, ...extensions)]: a first pass whose
    results are dropped ([doLifecycle]), then the decorating pass. *)
Definition decorateRouterContextWith (router : object) (extensions : list Extension)
  : object * completion unit * list string :=
  let lifecycle := execFunctionOnArray extensions decorateRouterContext router in
  let results := execFunctionOnArray extensions decorateRouterContext router in
  (objectAssign router (filterBoolean results), invoked lifecycle ++ invoked results).

(** [decorateMessageContext(message, ...extensions)] *)
Definition decorateMessageContextWith (message : object) (extensions : list Extension)
  : object * completion unit * list string :=
  let lifecycle := execFunctionOnArray extensions decorateMessageContext message in
  let results := execFunctionOnArray extensions decorateMessageContext message in
  (objectAssign message (filterBoolean results), invoked lifecycle ++ invoked results).

(** [app.install(factory, setup)] once the factory has produced the
    extension instance: the extension list and the application object
    afterwards, and whether the call returned. The extension is pushed
    before the decorations; when the first decoration throws, the
    second is not run. *)
Definition install (extension : Extension) (st : list Extension * object)
  : list Extension * object * completion unit :=
  let '(extensions, app) := st in
  match decorateRouterContextWith app [extension] with
  | (app1, Normal _, _) =>
      let '(app2, c, _) := decorateApplicationWith app1 [extension] in
      (extensions ++ [extension], app2, c)
  | (app1, Throw m, _) => (extensions ++ [extension], app1, Throw m)
  end.

(** No field of the sources is refused by the target. *)
Definition allWritable (sources : list partial) : bool :=
  forallb (fun e => negb (readOnly (fst e))) (concat sources).

(** The value of field [k] after assigning [sources] onto [target] by
    last-writer-wins: that of the last field named [k] of the sources,
    else the target's. *)
Definition lastWriter (k : string) (target : object) (sources : list partial) : option V :=
  match find (fun e => String.eqb (fst e) k) (rev (concat sources)) with
  | Some e => Some (snd e)
  | None => target !! k
  end.

(** What the hook of an extension returns on a target, if anything. *)
Definition returned (hook : hookName) (target : object) (e : Extension) : option partial :=
  match hook e with
  | Some f => f target
  | None => None
  end.

Definition definesHook (hook : hookName) (e : Extension) : bool :=
  match hook e with Some _ => true | None => false end.

End Decorate.

(** The names a function object refuses to be assigned: its
    non-writable [name] and [length], and [caller] and [arguments]. The
    application is the function [handlerFunction]. *)
Definition functionReadOnly (key : string) : bool :=
  JsString.mem key ["name"; "length"; "caller"; "arguments"].

(** The getter-only fields of a message context. *)
Definition messageReadOnly (key : string) : bool :=
  JsString.mem key ["bodyAsBuffer"; "isExternallyHandled"].

End Decoration.

(** ** A router with three listeners, the second of which detaches itself

    Three listeners are registered on the root router: the first for
    [/other], the second and third for [/x]. The second carries a
    precondition that calls the listener's own [detach] and answers
    [false]. *)

Module ThreeListeners.

Definition emptyWorld : World :=
  {| handlers := []; params := None; responseStatus := 200%Z;
     responseHeaders := ∅; externallyHandled := false |}.

Definition emptyRouter : Router := {| prefix := "/"; table := ∅; fresh := 0 |}.

Definition callbacks : Callbacks :=
  {| userPreCondition := fun _ _ w => (RouterContext.detachListener 1 w, Normal false);
     userHandler := fun i _ w =>
       (w, Normal (Some (Text (match i with
                               | 0 => "first" | 1 => "second" | _ => "third"
                               end)))) |}.

(** The router and the world after the three registrations. *)
Definition setup : option (Router * World) :=
  match RouterContext.any "/other" 0 emptyRouter emptyWorld with
  | RouterContext.Registered rt1 w1 _ =>
      match RouterContext.any "/x" 1 rt1 w1 with
      | RouterContext.Registered rt2 w2 l2 =>
          match RouterContext.any "/x" 2
                  (RouterContext.addPreCondition l2 (UserPreCondition 0) rt2) w2 with
          | RouterContext.Registered rt3 w3 _ => Some (rt3, w3)
          | _ => None
          end
      | _ => None
      end
  | _ => None
  end.

Definition request : Request := {| method := "GET"; path := "/x"; accept := None |}.

(** The handlers array after the dispatch, the result, and the
    listeners invoked. *)
Definition dispatch : option (list nat * completion AnyType * list nat) :=
  match setup with
  | Some (rt, w) =>
      let '(w', r, tr) :=
        RouteListener.routerHandle callbacks request RouteListener.noSubRouter rt w in
      Some (handlers w', r, tr)
  | None => None
  end.

End ThreeListeners.

(** ** Two extensions that decorate the application with the same field *)

Module TwoExtensions.

Import Decoration.

Definition first : Extension string :=
  {| name := "first";
     decorateApplication := Some (fun _ => Some [("greeting", "hello")]);
     decorateRouterContext := None;
     decorateMessageContext := None |}.

Definition second : Extension string :=
  {| name := "second";
     decorateApplication := Some (fun _ => Some [("greeting", "bonjour")]);
     decorateRouterContext := None;
     decorateMessageContext := None |}.

(** The state after [install(first)] then [install(second)]. *)
Definition installedBoth : list (Extension string) * gmap string string * completion unit :=
  install string functionReadOnly second
    (fst (install string functionReadOnly first ([], ∅))).

(** An extension that decorates the application with a field [name]. *)
Definition renaming : Extension string :=
  {| name := "renaming";
     decorateApplication := Some (fun _ => Some [("name", "renamed"); ("greeting", "hello")]);
     decorateRouterContext := None;
     decorateMessageContext := None |}.

(** The fields of an application, a function named [handlerFunction]. *)
Definition application : gmap string string :=
  {[ "name" := "handlerFunction" ]}.

End TwoExtensions.

(** ** A route registered for one method *)

Module MethodRoutes.

Definition callbacks : Callbacks :=
  {| userPreCondition := fun _ _ w => (w, Normal true);
     userHandler := fun _ _ w => (w, Normal (Some (Text "ok"))) |}.

(** The answer of the listener registered by [add(registered, '/x', h)]
    on the root router to a request for [/x] with method [requested]. *)
Definition answer (registered requested : string) : option (completion AnyType) :=
  match RouterContext.add registered "/x" 0
          ThreeListeners.emptyRouter ThreeListeners.emptyWorld with
  | RouterContext.Registered rt w l =>
      Some (snd (RouteListener.invokeTarget callbacks
                   {| method := requested; path := "/x"; accept := None |}
                   RouteListener.noSubRouter (table rt) l w))
  | _ => None
  end.

End MethodRoutes.

(** ** Decimal literals

    The part of the language's StringToNumber that reads an optionally
    signed decimal literal without exponent ([1], [0.8], [.5], [1.]),
    the empty string (0) and [Infinity]; it is used to evaluate the
    content-negotiation functions on concrete headers. The statements
    about those functions hold for every string-to-number conversion. *)

Module Decimal.

Definition digit (a : ascii) : option Z :=
  let n := nat_of_ascii a in
  if (Nat.leb 48 n && Nat.leb n 57)%bool then Some (Z.of_nat (n - 48)) else None.

(** The value of a string of digits and their number; [None] when a
    character is not a digit. *)
Fixpoint digits (s : string) (acc : Z) (count : nat) : option (Z * nat) :=
  match s with
  | EmptyString => Some (acc, count)
  | String a r =>
      match digit a with
      | Some d => digits r (10 * acc + d)%Z (S count)
      | None => None
      end
  end.

Definition unsigned (s : string) : option Q :=
  match JsString.split "." s with
  | [i] =>
      match digits i 0%Z 0 with
      | Some (v, S _) => Some (inject_Z v)
      | _ => None
      end
  | [i; f] =>
      match digits i 0%Z 0, digits f 0%Z 0 with
      | Some (v, ni), Some (fv, nf) =>
          if (Nat.eqb ni 0 && Nat.eqb nf 0)%bool then None
          else Some (Qmake (v * 10 ^ Z.of_nat nf + fv) (Z.to_pos (10 ^ Z.of_nat nf)))
      | _, _ => None
      end
  | _ => None
  end.

Definition toNumber (s : string) : num :=
  let t := JsString.trim s in
  match t with
  | EmptyString => Fin 0
  | String "-" r =>
      if String.eqb r "Infinity" then NegInf
      else match unsigned r with Some x => Fin (- x) | None => NaN end
  | String "+" r =>
      if String.eqb r "Infinity" then PosInf
      else match unsigned r with Some x => Fin x | None => NaN end
  | _ =>
      if String.eqb t "Infinity" then PosInf
      else match unsigned t with Some x => Fin x | None => NaN end
  end.

End Decimal.

(** ** Content negotiation on concrete requests *)

Module Negotiation.

Definition withAccept (h : string) : Request :=
  {| method := "GET"; path := "/"; accept := Some h |}.

(** [ctx.accepts('json', 'html')] under the accept header [h] *)
Definition acceptsJsonHtml (h : string) : completion (option string) :=
  MessageContext.accepts Decimal.toNumber MessageContext.unsorted (withAccept h) ["json"; "html"].

(** Route handlers that return their own index as text. *)
Definition callbacks : Callbacks :=
  {| userPreCondition := fun _ _ w => (w, Normal true);
     userHandler := fun i _ w =>
       (w, Normal (Some (Text (match i with
                               | 0 => "zero" | 1 => "one" | _ => "other"
                               end)))) |}.

End Negotiation.

(** ** The reading of [accepting] in terms of the keys of the object *)

Module AcceptingSpec.

(** The keys of the object other than [else], in key order. *)
Definition nonElseKeys (obj : list (string * nat)) : list string :=
  List.filter (fun k => negb (String.eqb k "else")) (map fst obj).

(** Calling the handler stored under key [k]. *)
Definition callKey (cb : Callbacks) (req : Request) (obj : list (string * nat))
           (k : string) (w : World)
  : World * completion (option RouterHandleResponse.payload) :=
  match MessageContext.assoc k obj with
  | Some h => userHandler cb h req w
  | None => (w, Throw "TypeError")
  end.

Definition configurationError : string :=
  "Must include a handling for anything else that does not match your defined mime types".

End AcceptingSpec.

(** ** The reading of [accepts] as a search over the sorted entries *)

Module AcceptsSpec.

Import MessageContext.

(** Shorthand expansion of a candidate. *)
Definition expand (cand : string) : string :=
  match assoc cand mimeTypeShorthands with
  | Some full => full
  | None => cand
  end.

(** The accept entry [m] matches the candidate: equal major types, and
    equal subtypes or the subtype [*] in the entry. *)
Definition matchesEntry (m cand : string) : bool :=
  let '(f, s) := typePair m in
  let '(tf, ts) := typePair (expand cand) in
  (String.eqb f tf && (eqb_opt s (Some "*") || eqb_opt s ts))%bool.

(** An entry that decides the answer: the universal wildcard, or an
    entry some candidate matches. *)
Definition decides (types : list string) (m : string) : bool :=
  (String.eqb m "*/*" || existsb (matchesEntry m) types)%bool.

(** The answer for the mime types of the sorted entries: the first
    deciding entry gives the first candidate when it is the wildcard and
    otherwise the first candidate it matches; [None] is [false]. *)
Definition answer (mimes : list string) (types : list string) : option string :=
  match types with
  | [] => None
  | first :: _ =>
      match find (decides types) mimes with
      | None => None
      | Some m => if String.eqb m "*/*" then Some first else find (matchesEntry m) types
      end
  end.

(** The mime type of an entry when it is a string. *)
Definition mimeOf (e : acceptEntry) : option string :=
  match mimeType e with
  | VString m => Some m
  | _ => None
  end.

(** The quality of an entry when it is a finite number. *)
Definition qualityOf (toNumber : string -> num) (e : acceptEntry) : option Q :=
  match numberOf toNumber (q e) with
  | Fin x => Some x
  | _ => None
  end.

(** An entry as the type assertion of [calc] describes it: a textual
    mime type and a numeric quality. *)
Definition wellFormed (toNumber : string -> num) (e : acceptEntry) : Prop :=
  (exists m, mimeOf e = Some m) /\ (exists x, qualityOf toNumber e = Some x).

Definition wellFormedb (toNumber : string -> num) (e : acceptEntry) : bool :=
  match mimeOf e, qualityOf toNumber e with
  | Some _, Some _ => true
  | _, _ => false
  end.

(** [a] is listed no later than [b] by quality: the quality of [b] is at
    most that of [a]. *)
Definition qualityGe (toNumber : string -> num) (a b : acceptEntry) : Prop :=
  exists x y, qualityOf toNumber a = Some x /\ qualityOf toNumber b = Some y /\ (y <= x)%Q.

(** The entries of quality [c]. *)
Definition hasQuality (toNumber : string -> num) (c : Q) (e : acceptEntry) : bool :=
  match qualityOf toNumber e with
  | Some x => Qeq_bool x c
  | None => false
  end.

(** The entries of the header before sorting. *)
Definition parsed (toNumber : string -> num) (req : Request) : list acceptEntry :=
  map (parseEntry toNumber)
      (JsString.split "," (match accept req with Some h => h | None => EmptyString end)).

End AcceptsSpec.

(** ** The reading of a route path, segment by segment

    The segments of the full path of a route (prefix and path, split at
    [/]) are read as the specification describes them: a segment that
    starts with [:] is a named parameter, a final [*] is the wildcard
    tail, a final empty segment is the optional trailing slash, every
    other segment is literal text. *)

Module PathSpec.

Import RegExp.

Definition chars := list_ascii_of_string.

(** Characters with a meaning of their own in a pattern. *)
Definition special (a : ascii) : bool :=
  JsString.mem (String a EmptyString)
    ["."; "*"; "+"; "?"; "("; ")"; "["; "]"; "{"; "}"; "|"; "\"; "^"; "$"].

Definition ordinary (a : ascii) : bool :=
  (negb (special a) && negb (Ascii.eqb a "/"))%bool.

Definition isParam (p : string) : bool := JsString.startsWith p ":".

Definition validName (n : string) : bool :=
  match n with
  | EmptyString => false
  | String a r => (id_start a && forallb id_continue (chars r))%bool
  end.

(** A literal segment of ordinary characters, or a parameter with a
    well-formed name. *)
Definition plainSeg (p : string) : bool :=
  if isParam p then validName (JsString.slice1 p) else forallb ordinary (chars p).

Definition paramNames (segs : list string) : list string :=
  omap (fun p => if isParam p then Some (JsString.slice1 p) else None) segs.

Fixpoint distinct (l : list string) : bool :=
  match l with
  | [] => true
  | x :: r => (negb (JsString.mem x r) && distinct r)%bool
  end.

(** Plain segments, where the last one may be the wildcard. *)
Fixpoint plainSegs (segs : list string) : bool :=
  match segs with
  | [] => true
  | p :: r =>
      match r with
      | [] => plainSeg p
      | [l] => (plainSeg p && (plainSeg l || String.eqb l "*"))%bool
      | _ => (plainSeg p && plainSegs r)%bool
      end
  end.

Definition plainPath (segs : list string) : bool :=
  (plainSegs segs && distinct (paramNames segs))%bool.

(** *** How a request path matches *)

(** A request segment against a pattern segment: a parameter takes one
    or more characters and binds them, literal text must be equal. *)
Definition segMatch (p r : string) : option captures :=
  if isParam p then
    if String.eqb r EmptyString then None else Some [(JsString.slice1 p, r)]
  else if String.eqb p r then Some [] else None.

Definition andThen (a b : option captures) : option captures :=
  match a, b with
  | Some x, Some y => Some (x ++ y)
  | _, _ => None
  end.

(** The request segments [rs] against the pattern segments: segment by
    segment and of the same number, except that after a final wildcard
    at least one more segment, of any content, must follow, and that a
    final empty pattern segment may be absent from the request. *)
Fixpoint specMatch (segs rs : list string) : option captures :=
  match segs with
  | [] => match rs with [] => Some [] | _ => None end
  | p :: ps =>
      match ps with
      | [] => match rs with [r] => segMatch p r | _ => None end
      | [l] =>
          if String.eqb l EmptyString then
            match rs with
            | [r] => segMatch p r
            | [r; e] => if String.eqb e EmptyString then segMatch p r else None
            | _ => None
            end
          else if String.eqb l "*" then
            match rs with
            | r :: _ :: _ => segMatch p r
            | _ => None
            end
          else
            match rs with
            | r :: rs' => andThen (segMatch p r) (specMatch ps rs')
            | [] => None
            end
      | _ =>
          match rs with
          | r :: rs' => andThen (segMatch p r) (specMatch ps rs')
          | [] => None
          end
      end
  end.

(** *** The pattern the segments compile to *)

Definition lit (a : ascii) : item := Item (CLit a) QOne None.
Definition slash : item := lit "/".

Definition segItems (p : string) : list item :=
  if isParam p then [Item CNotSlash QPlus (Some (JsString.slice1 p))]
  else map lit (chars p).

Fixpoint compileSegs (segs : list string) : list item * bool :=
  match segs with
  | [] => ([], true)
  | p :: ps =>
      match ps with
      | [] => (segItems p, true)
      | [l] =>
          if String.eqb l EmptyString then
            (segItems p ++ [Item (CLit "/") QOpt None], true)
          else if String.eqb l "*" then
            (segItems p ++ [slash; Item CAny QStar None], false)
          else
            let '(its, a) := compileSegs ps in (segItems p ++ slash :: its, a)
      | _ => let '(its, a) := compileSegs ps in (segItems p ++ slash :: its, a)
      end
  end.

(** The source text of that pattern, after the leading [^]. *)
Fixpoint sourceOf (segs : list string) : string :=
  match segs with
  | [] => "$"
  | p :: ps =>
      match ps with
      | [] => RouterContext.paramCutout p ++ "$"
      | [l] =>
          if String.eqb l EmptyString then RouterContext.paramCutout p ++ "/?$"
          else if String.eqb l "*" then RouterContext.paramCutout p ++ "/.*"
          else RouterContext.paramCutout p ++ "/" ++ sourceOf ps
      | _ => RouterContext.paramCutout p ++ "/" ++ sourceOf ps
      end
  end.

(** The segments of the full path of a route. *)
Definition segments (prefix path : string) : list string :=
  JsString.split "/" (RouterContext.fullPath prefix path).

(** What [regExpSource] makes of the joined cut-outs [t]. *)
Definition finish (t : string) : string :=
  let t' := RouterContext.optionalTrailingSlash t in
  if JsString.endsWith t' "/*" then JsString.dropEnd 2 t' ++ "/.*" else t' ++ "$".

(** A text whose last character is neither [/] nor [*]. *)
Definition endsPlain (s : string) : Prop :=
  exists t c, s = String.append t (String c "") /\ c <> "/"%char /\ c <> "*"%char.

End PathSpec.

(** ** Continuations of a segment in a match *)

Module MatchSpec.

(** A continuation that fails on every input starting with a character
    other than the slash. *)
Definition rejectsNonSlash (k : list ascii -> option RegExp.captures) : Prop :=
  forall a s, a <> "/"%char -> k (a :: s) = None.

(** What may follow a segment in a request path: nothing, or a slash. *)
Definition boundary (tail : list ascii) : Prop :=
  match tail with
  | [] => True
  | a :: _ => a = "/"%char
  end.

Definition slashFree (r : string) : Prop :=
  forallb (fun a => negb (Ascii.eqb a "/")) (list_ascii_of_string r) = true.

(** The characters of a request path after its first segment, the
    remaining segments being [rs]. *)
Definition tailOf (rs : list string) : list ascii :=
  match rs with
  | [] => []
  | _ => "/"%char :: list_ascii_of_string (JsString.join "/" rs)
  end.

(** The outcome of matching a request path against the route registered
    for [p] under [prefix]: [None] when the pattern is not compiled. *)
Definition execRoute (prefix p req : string) : option (option (option RegExp.captures)) :=
  match RouterContext.getPathRegExp prefix p with
  | RegExp.Compiled re => Some (RegExp.exec re req)
  | _ => None
  end.

End MatchSpec.

(** ** Callbacks that do not throw, and the text around a segment *)

Module RegistrationSpec.

(** No precondition and no route handler of the application throws. *)
Definition neverThrow (cb : Callbacks) : Prop :=
  forall i req w,
    (forall m, snd (userPreCondition cb i req w) <> Throw m) /\
    (forall m, snd (userHandler cb i req w) <> Throw m).

(** The joined text of the segments before a given one. *)
Fixpoint textBefore (xs : list string) : string :=
  match xs with
  | [] => EmptyString
  | x :: r => String.append x (String.append "/" (textBefore r))
  end.

(** The joined text of the segments after a given one. *)
Fixpoint textAfter (zs : list string) : string :=
  match zs with
  | [] => EmptyString
  | z :: r => String.append "/" (String.append z (textAfter r))
  end.

End RegistrationSpec.

(** ** Sub-routers and listener updates (router.ts) *)

Module SubRouter.

(** The [handle] of a sub-router as a target of its parent: it dispatches
    over the sub-router's own target list, read from the shared state
    when the target is invoked. *)
Definition routerTarget (St : Type) (invoke : nat -> St -> St * completion AnyType)
           (subHandlers : St -> list nat) (st : St) : St * completion AnyType :=
  let '(st', r, _) := handle St subHandlers invoke st in (st', r).

(** The state and the result of a dispatch, without the trace. *)
Definition outcome {St : Type} (x : St * completion AnyType * list nat)
  : St * completion AnyType :=
  (fst (fst x), snd (fst x)).

(** The prefix given to the router made by [createRouter(path)]:
    [prefixPath + (path.startsWith('/') ? path.slice(1) : path)] *)
Definition subPrefix (parentPrefix path : string) : string :=
  RouterContext.fullPath parentPrefix path.

(** [listener.replaceHandler(newHandler)] *)
Definition replaceHandler (l : nat) (newHandler : nat) (rt : Router) : Router :=
  {| prefix := prefix rt;
     table := alter (fun lst => {| pathAsRegExp := pathAsRegExp lst;
                                   preConditions := preConditions lst;
                                   routeHandler := newHandler |}) l (table rt);
     fresh := fresh rt |}.

(** The list without the first occurrence of [x]. *)
Fixpoint withoutFirst (x : nat) (l : list nat) : list nat :=
  match l with
  | [] => []
  | y :: r => if Nat.eqb y x then r else y :: withoutFirst x r
  end.

End SubRouter.

(** ** A router nested in another *)

Module NestedRouters.

(** Listeners 1, 2 and 3: only listener 2 handles the request. *)
Definition leaf (h : nat) (st : nat) : nat * completion AnyType :=
  (S st, Normal (if Nat.eqb h 2 then HANDLED else UNHANDLED)).

(** Target 0 is the [handle] of a sub-router with the listeners 1 and 2. *)
Definition invoke (h : nat) (st : nat) : nat * completion AnyType :=
  if Nat.eqb h 0 then SubRouter.routerTarget nat leaf (fun _ => [1; 2]) st
  else leaf h st.

End NestedRouters.

(** ** Path and query of the request URL (MessageContext.create) *)

Module Url.

(** [s.indexOf(c)]; [None] stands for -1. *)
Fixpoint indexOf (c : ascii) (s : string) : option nat :=
  match s with
  | EmptyString => None
  | String a r => if Ascii.eqb a c then Some 0 else option_map S (indexOf c r)
  end.

(** [s.slice(0, n)] *)
Fixpoint take (n : nat) (s : string) : string :=
  match n, s with
  | S k, String a r => String a (take k r)
  | _, _ => EmptyString
  end.

(** [s.slice(n)] *)
Fixpoint drop (n : nat) (s : string) : string :=
  match n, s with
  | S k, String _ r => drop k r
  | _, _ => s
  end.

(** The path of the message context and the text handed to
    [QueryObject.from], if the URL has a question mark. *)
Definition pathAndQuery (url : string) : string * option string :=
  match indexOf "?" url with
  | Some slashIndex => (take slashIndex url, Some (drop (slashIndex + 1) url))
  | None => (url, None)
  end.

End Url.

(** ** Math.min and Math.max *)

Module JsMath.

(** [a <= b] on numbers that are not NaN. *)
Definition leb (a b : num) : bool :=
  match a, b with
  | NegInf, _ => true
  | _, PosInf => true
  | Fin x, Fin y => match Qcompare x y with Gt => false | _ => true end
  | _, _ => false
  end.

(** [Math.min(a, b)]: NaN when an argument is NaN. *)
Definition min (a b : num) : num :=
  match a, b with
  | NaN, _ | _, NaN => NaN
  | _, _ => if leb a b then a else b
  end.

(** [Math.max(a, b)] *)
Definition max (a b : num) : num :=
  match a, b with
  | NaN, _ | _, NaN => NaN
  | _, _ => if leb a b then b else a
  end.

End JsMath.

(** ** Query strings (query-object.ts)

    The record [queryObject] is modelled by its own properties; a name
    that is not an own property may still be found on [Object.prototype],
    which the container does not guard against. Values are strings,
    [undefined] or arrays of strings, as [QueryObject.from] passes them
    for a query string; the conversion of numbers and other objects to
    text is not modelled. *)

Module QueryObject.

Abbreviation t := (gmap string (list string)).

(** The argument of [set] and [add] in their one-value form. *)
Inductive arg :=
| Undefined
| Value (s : string)
| Values (l : list string).

(** The member a name not among the own properties resolves to. *)
Definition inherited (name : string) : bool :=
  JsString.mem name MessageContext.objectPrototypeKeys.

(** [value.length === 1 && Array.isArray(value[0]) ? value[0] : value],
    without the undefined values. *)
Definition texts (value : arg) : list string :=
  match value with
  | Undefined => []
  | Value s => [s]
  | Values l => l
  end.

(** [get(name, defaultValue)] *)
Definition get (name : string) (defaultValue : option string) (q : t) : option string :=
  match q !! name with
  | Some (v :: _) => Some v
  | Some [] => defaultValue
  | None => defaultValue       (* also for an inherited member: it has no index 0 *)
  end.

(** What [getAll(name)] returns. *)
Inductive all :=
| AllValues (l : list string)
| AllInherited (name : string)     (* the member of [Object.prototype] itself *)
| AllUndefined.

Definition getAll (name : string) (q : t) : all :=
  match q !! name with
  | Some l => AllValues l
  | None => if inherited name then AllInherited name else AllUndefined
  end.

(** [has(name)]: [name in this.queryObject] *)
Definition has (name : string) (q : t) : bool :=
  match q !! name with
  | Some _ => true
  | None => inherited name
  end.

(** [set(name, value)]; [None] when the name is [__proto__], for which
    the assignment replaces the prototype of the record instead of
    storing a property (not modelled). *)
Definition set (name : string) (value : arg) (q : t) : option t :=
  if String.eqb name "__proto__" then None
  else Some (<[name := texts value]> q).

(** [add(name, value)]: [(this.queryObject[name] ??= []).push(...)]. An
    inherited member is not nullish and has no [push]. *)
Definition add (name : string) (value : arg) (q : t) : completion t :=
  match q !! name with
  | Some current => Normal (<[name := current ++ texts value]> q)
  | None =>
      if inherited name then Throw "TypeError"
      else Normal (<[name := texts value]> q)
  end.

Section Numbers.

(** [+value] on a string. *)
Variable toNumber : string -> num.

(** [getAsNumber(name, defaultValue)]; [None] is [undefined]. *)
Definition getAsNumber (name : string) (defaultValue : option num) (q : t) : option num :=
  match get name None q with
  | None => defaultValue
  | Some value => if JsNum.isNaN (toNumber value) then defaultValue else Some (toNumber value)
  end.

(** [getAsNumberInRange(name, min, max, defaultValue)] *)
Definition getAsNumberInRange (name : string) (min max : num) (defaultValue : option num)
           (q : t) : num :=
  JsMath.max
    (JsMath.min (match getAsNumber name defaultValue q with
                 | Some x => x
                 | None => min
                 end) max)
    min.

End Numbers.

Section From.

(** [decodeURIComponent]; [None] when it throws a URIError. *)
Variable decode : string -> option string.

Fixpoint decodeAll (parts : list string) : option (list string) :=
  match parts with
  | [] => Some []
  | p :: r =>
      match decode p, decodeAll r with
      | Some x, Some xs => Some (x :: xs)
      | _, _ => None
      end
  end.

(** [object.split('&').map(it => it.split('=').map(decodeURIComponent))] *)
Fixpoint decodeItems (items : list string) : option (list (list string)) :=
  match items with
  | [] => Some []
  | it :: r =>
      match decodeAll (JsString.split "=" it), decodeItems r with
      | Some x, Some xs => Some (x :: xs)
      | _, _ => None
      end
  end.

(** [const [name, value] = entry] on the entries that pass
    [.filter(([name]) => name !== '' && name !== undefined)] *)
Definition entryOf (parts : list string) : option (string * arg) :=
  match parts with
  | [] => None
  | name :: rest =>
      if String.eqb name EmptyString then None
      else Some (name, match rest with
                       | value :: _ => Value value
                       | [] => Undefined
                       end)
  end.

(** [for (const [name, value] of entries) query.add(name, value)] *)
Fixpoint addAll (entries : list (string * arg)) (q : t) : completion t :=
  match entries with
  | [] => Normal q
  | (name, value) :: r => cbind (add name value q) (addAll r)
  end.

(** The entries of a query string, if every part decodes. *)
Definition entriesOf (s : string) : option (list (string * arg)) :=
  option_map (omap entryOf) (decodeItems (JsString.split "&" s)).

(** [QueryObject.from(string)] *)
Definition from (s : string) : completion t :=
  match entriesOf s with
  | None => Throw "URIError"
  | Some entries => addAll entries ∅
  end.

(** [QueryObject.from(object)], the object given by its entries. *)
Definition fromObject (entries : list (string * arg)) : completion t :=
  addAll entries ∅.

End From.

(** The values given for [name] by a list of entries, in order. *)
Definition valuesFor (name : string) (entries : list (string * arg)) : list string :=
  flat_map (fun e => if String.eqb (fst e) name then texts (snd e) else []) entries.

Definition mentions (name : string) (entries : list (string * arg)) : bool :=
  existsb (fun e => String.eqb (fst e) name) entries.

End QueryObject.

(** ** Query strings written from key and value pairs *)

Module QueryText.

(** A key with its value, or a key alone. *)
Definition pair := (string * option string)%type.

(** Free of [&] and [=]. *)
Definition plainPart (x : string) : bool :=
  forallb (fun a => negb (Ascii.eqb a "&") && negb (Ascii.eqb a "="))
          (list_ascii_of_string x).

Definition plainPair (p : pair) : bool :=
  plainPart (fst p) && negb (String.eqb (fst p) EmptyString) &&
  match snd p with
  | Some v => plainPart v
  | None => true
  end.

(** [key=value], or [key]. *)
Definition itemText (p : pair) : string :=
  match snd p with
  | Some v => String.append (fst p) (String "=" v)
  | None => fst p
  end.

(** The items joined by [&]. *)
Definition queryText (pairs : list pair) : string :=
  JsString.join "&" (map itemText pairs).

(** The keys and values that occur. *)
Definition partsOf (pairs : list pair) : list string :=
  flat_map (fun p => fst p :: match snd p with Some v => [v] | None => [] end) pairs.

Definition entryFor (p : pair) : string * QueryObject.arg :=
  (fst p, match snd p with
          | Some v => QueryObject.Value v
          | None => QueryObject.Undefined
          end).

Definition noneInherited (pairs : list pair) : bool :=
  forallb (fun p => negb (QueryObject.inherited (fst p))) pairs.

End QueryText.

(** The character [c] does not occur in [x]. *)
Definition free (c : ascii) (x : string) : Prop :=
  forallb (fun a => negb (Ascii.eqb a c)) (list_ascii_of_string x) = true.

(** ** Header containers (headers.ts)

    The record [headers] is modelled by its own properties, which [set]
    and [add] store under the lower-cased name. A stored value stands
    for its text: [get], [getAll] and [entries] convert with [toString]. *)

Module Headers.

Import JsString.

Abbreviation t := (gmap string (list stringable)).

(** The names a record inherits from [Object.prototype]. *)
Definition inherited (key : string) : bool :=
  mem key MessageContext.objectPrototypeKeys.

(** [get(name)]: the first value; [undefined.toString()] throws when the
    list is empty or the name resolves to an inherited member, which has
    no index 0. *)
Definition get (name : string) (h : t) : completion (option stringable) :=
  match h !! toLowerCase name with
  | Some (v :: _) => Normal (Some v)
  | Some [] => Throw "TypeError"
  | None => if inherited (toLowerCase name) then Throw "TypeError" else Normal None
  end.

(** [getAll(name)]; an inherited member has no [map]. *)
Definition getAll (name : string) (h : t) : completion (option (list stringable)) :=
  match h !! toLowerCase name with
  | Some values => Normal (Some values)
  | None => if inherited (toLowerCase name) then Throw "TypeError" else Normal None
  end.

(** [has(name)]: [name.toLowerCase() in this.headers] *)
Definition has (name : string) (h : t) : bool :=
  match h !! toLowerCase name with
  | Some _ => true
  | None => inherited (toLowerCase name)
  end.

(** [set(name, value)]; [None] when the lower-cased name is [__proto__],
    for which the assignment replaces the prototype of the record
    instead of storing a property (not modelled). *)
Definition set (name : string) (value : Response.headerArg) (h : t) : option t :=
  if String.eqb (toLowerCase name) "__proto__" then None
  else Some (Response.headersSet name (Response.storedValues value) h).

(** [add(name, value)]: [(this.headers[name.toLowerCase()] ??= []).push(...)] *)
Definition add (name : string) (value : Response.headerArg) (h : t) : completion t :=
  match h !! toLowerCase name with
  | Some current => Normal (<[toLowerCase name := current ++ Response.storedValues value]> h)
  | None =>
      if inherited (toLowerCase name) then Throw "TypeError"
      else Normal (<[toLowerCase name := Response.storedValues value]> h)
  end.

Definition irregularHeaderNames : list (string * string) :=
  [ ("www-authenticate", "WWW-Authenticate");
    ("te", "TE");
    ("accept-ch", "Accept-CH");
    ("accept-ch-lifetime", "Accept-CH-Lifetime");
    ("etag", "ETag");
    ("dnt", "DNT");
    ("except-ct", "Except-CT");
    ("x-xss-protection", "X-XSS-Protection");
    ("nel", "NEL");
    ("sec-websocket-key", "Sec-WebSocket-Key");
    ("sec-websocket-extensions", "Sec-WebSocket-Extensions");
    ("sec-websocket-accept", "Sec-WebSocket-Accept");
    ("sec-websocket-protocol", "Sec-WebSocket-Protocol");
    ("sec-websocket-version", "Sec-WebSocket-Version");
    ("sourcemap", "SourceMap");
    ("x-dns-prefetch-control", "X-DNS-Prefetch-Control");
    ("x-ua-compatible ", "X-UA-Compatible ") ].

(** [[a-z]] *)
Definition is_lower (a : ascii) : bool :=
  let n := nat_of_ascii a in (Nat.leb 97 n && Nat.leb n 122)%bool.

(** [name.replace(/^([a-z])|\-([a-z])/g, (_, f, l) => f ? f.toUpperCase() : '-' + l.toUpperCase())];
    [atStart] tells whether the position is the start of the name. *)
Fixpoint capitalise (atStart : bool) (s : string) : string :=
  match s with
  | EmptyString => EmptyString
  | String a r =>
      if (atStart && is_lower a)%bool then String (upper_ascii a) (capitalise false r)
      else if Ascii.eqb a "-" then
        match r with
        | String b r' =>
            if is_lower b then String "-" (String (upper_ascii b) (capitalise false r'))
            else String a (capitalise false r)
        | EmptyString => String a EmptyString
        end
      else String a (capitalise false r)
  end.

(** What [toHeaderName] returns: a name, or the member of
    [Object.prototype] that [name in irregularHeaderNames] found. *)
Inductive headerName :=
| Name (s : string)
| Member (key : string).

Definition toHeaderName (name : string) : headerName :=
  match MessageContext.assoc name irregularHeaderNames with
  | Some v => Name v
  | None =>
      if inherited name then Member name
      else Name (capitalise true name)
  end.

End Headers.

(** ** Names that header capitalisation leaves alone *)

Module HeaderSpec.

Definition noDash (s : string) : bool :=
  forallb (fun a => negb (Ascii.eqb a "-")) (list_ascii_of_string s).

(** The key starts with a lower-case letter, or with an underscore and
    then has no dash. *)
Definition fixedKey (k : string) : bool :=
  match k with
  | String c _ => (Headers.is_lower c || (Ascii.eqb c "_" && noDash k))%bool
  | EmptyString => false
  end.

(** The names [name in irregularHeaderNames] finds. *)
Definition knownKeys : list string :=
  map fst Headers.irregularHeaderNames ++ MessageContext.objectPrototypeKeys.

End HeaderSpec.

(** ** The request handler of an application (index.ts, [handlerFunction])

    The model covers the handler from the dispatch ([app.handle]) to the
    response it writes; the lifecycle hooks of the extensions that run
    before and after are not part of it. The [headers] object of the
    handler is the [responseHeaders] of the world. *)

Module Application.

(** What is passed to [res.end] or piped into the response. *)
Inductive body :=
| Payload (p : RouterHandleResponse.payload)
| NotFoundPage (path : string)                 (* [getDefaultHTML404Page(path)] *)
| ErrorPage (path : string) (error : string)   (* [getDefaultHTML500Page(path, error)] *)
| StatusJson (status : Z) (message : string).  (* [JSON.stringify({ status, message })] *)

(** [res.writeHead(status, headers.toJSON())] followed by [res.end(body)],
    [res.end()] or [result.pipe(res)]; [sentHeaders] is the container
    whose [toJSON] is written. *)
Record Sent := {
  sentStatus : Z;
  sentHeaders : Headers.t;
  sentBody : option body
}.

Section HandlerFunction.

Variable toNumber : string -> num.
(** The order the engine gives to an accept header without numeric
    qualities, see [MessageContext.sort]. *)
Variable engineOrder : list MessageContext.acceptEntry -> list MessageContext.acceptEntry.
(** [buffer.byteLength] *)
Variable byteLength : body -> Z.
Variable req : Request.
(** [app.handle(message)] *)
Variable dispatch : World -> World * completion AnyType.
(** The handlers given to [app.onError] and [app.onUnhandled]. *)
Variable onError : option (string -> World -> World * completion (option RouterHandleResponse.payload)).
Variable onUnhandled : option (World -> World * completion (option RouterHandleResponse.payload)).

(** [respond(mimeType, buffer)] *)
Definition respond (mimeType : string) (buffer : body) (w : World) : World * Sent :=
  let h0 := responseHeaders w in
  let h1 := if Headers.has "Content-Type" h0 then h0
            else Response.headersSet "Content-Type"
                   (Response.storedValues (Response.AStr mimeType)) h0 in
  let h2 := if Headers.has "Content-Length" h1 then h1
            else Response.headersSet "Content-Length"
                   (Response.storedValues (Response.ANum (byteLength buffer))) h1 in
  (set_responseHeaders h2 w,
   {| sentStatus := responseStatus w; sentHeaders := h2; sentBody := Some buffer |}).

(** [message.status(code).accepting({ html: ..., json: ..., else: ... })] *)
Definition defaultResponse (code : Z) (html json plain : body) (w : World)
  : World * completion (option Sent) :=
  let w1 := Response.status code w in
  match MessageContext.accepts toNumber engineOrder req ["html"; "json"]%string with
  | Throw m => (w1, Throw m)
  | Normal (Some res) =>
      if String.eqb res "html" then
        let '(w2, s) := respond "text/html; charset=UTF-8" html w1 in (w2, Normal (Some s))
      else if String.eqb res "json" then
        let '(w2, s) := respond "application/json; charset=UTF-8" json w1 in (w2, Normal (Some s))
      else (w1, Throw "TypeError")
  | Normal None =>
      let '(w2, s) := respond "text/plain; charset=UTF-8" plain w1 in (w2, Normal (Some s))
  end.

(** The result a handler of [onError] or [onUnhandled] stands for. *)
Definition created (r : option RouterHandleResponse.payload) : AnyType :=
  match r with
  | Some result => RESULT result
  | None => HANDLED
  end.

(** The part of the handler after [handleResult] is known. *)
Definition finish (handleResult : AnyType) (w : World) : World * completion (option Sent) :=
  match handleResult with
  | RESULT (Bytes b) =>
      let '(w', s) := respond "application/octet-stream" (Payload (Bytes b)) w in
      (w', Normal (Some s))
  | RESULT (Text t) =>
      let '(w', s) := respond "text/plain; charset=UTF-8" (Payload (Text t)) w in
      (w', Normal (Some s))
  | RESULT (Stream id) =>
      (w, Normal (Some {| sentStatus := responseStatus w;
                          sentHeaders := responseHeaders w;
                          sentBody := Some (Payload (Stream id)) |}))
  | UNHANDLED =>
      defaultResponse 404 (NotFoundPage (path req)) (StatusJson 404 "Not Found")
        (Payload (Text "404 Not Found")) w
  | HANDLED =>
      if externallyHandled w then (w, Normal None)
      else (w, Normal (Some {| sentStatus := responseStatus w;
                               sentHeaders := responseHeaders w;
                               sentBody := None |}))
  end.

(** [if (is(handleResult, UNHANDLED) && onUnhandled !== undefined) ...] *)
Definition unhandledHook (handleResult : AnyType) (w : World) : World * completion AnyType :=
  match onUnhandled with
  | Some handler =>
      if is_UNHANDLED handleResult then
        match handler w with
        | (w', Normal errorRes) => (w', Normal (created errorRes))
        | (w', Throw m) => (w', Throw m)
        end
      else (w, Normal handleResult)
  | None => (w, Normal handleResult)
  end.

Definition settle (handleResult : AnyType) (w : World) : World * completion (option Sent) :=
  match unhandledHook handleResult w with
  | (w', Normal r) => finish r w'
  | (w', Throw m) => (w', Throw m)
  end.

(** [handlerFunction(req, res)]: the response that is written, if any. *)
Definition handlerFunction (w : World) : World * completion (option Sent) :=
  match dispatch w with
  | (w1, Normal handleResult) => settle handleResult w1
  | (w1, Throw error) =>
      match onError with
      | Some handler =>
          match handler error w1 with
          | (w2, Normal errorRes) => settle (created errorRes) w2
          | (w2, Throw m) => (w2, Throw m)
          end
      | None =>
          defaultResponse 500 (ErrorPage (path req) error)
            (StatusJson 500 "Internal Server Error")
            (Payload (Text "500 Internal Server Error")) w1
      end
  end.

End HandlerFunction.

End Application.

(** ** An application dispatching over its root router *)

Module RoutedApplication.


(** The negotiated alternative of a default response. *)
Definition chosen {A} (a : option string) (html json plain : A) : A :=
  match a with
  | Some res => if String.eqb res "html" then html else json
  | None => plain
  end.

(** A router with one route, [/a]. *)
Definition pattern : RegExp.regex :=
  match RouterContext.getPathRegExp "/" "/a" with
  | RegExp.Compiled re => re
  | _ => RegExp.Regex [] false
  end.

Definition router : Router :=
  {| prefix := "/";
     table := {[ 0 := {| pathAsRegExp := pattern; preConditions := []; routeHandler := 0 |} ]};
     fresh := 1 |}.

Definition world : World :=
  {| handlers := [0]; params := None; responseStatus := 200%Z;
     responseHeaders := ∅; externallyHandled := false |}.

End RoutedApplication.

(** ** Adding to a response header (message-context.ts, [addHeader]) *)

Module ResponseAdd.


End ResponseAdd.

(** ** Cookies (cookie.ts) and the cookie functions of the message context *)

Module Cookie.

(** A [number | Date]: a number, or a date object with its time value. *)
Inductive time :=
| ANumber (n : num)
| ADate (timeValue : num).

(** [CookieOptions]; [None] is an absent (undefined) option. *)
Record CookieOptions := {
  sameSite : option string;
  secure : option bool;
  httpOnly : option bool;
  domain : option string;
  path : option string;
  maxAge : option time;
  expires : option time
}.

Definition noOptions : CookieOptions :=
  {| sameSite := None; secure := None; httpOnly := None; domain := None;
     path := None; maxAge := None; expires := None |}.

(** The private fields of a cookie. *)
Record t := {
  key : string;
  _value : string;
  _changed : bool;
  _options : CookieOptions
}.

(** [new Cookie(key, value, options)]; [None] for [options] undefined. *)
Definition create (key value : string) (options : option CookieOptions) : t :=
  {| key := key; _value := value; _changed := false;
     _options := match options with Some o => o | None => noOptions end |}.

(** Truthiness of the fields. *)
Definition truthyString (s : option string) : bool :=
  match s with
  | Some (String _ _) => true
  | _ => false
  end.

Definition truthyBool (b : option bool) : bool :=
  match b with
  | Some true => true
  | _ => false
  end.

Definition truthyNumber (n : num) : bool :=
  match n with
  | NaN => false
  | Fin x => negb (Qeq_bool x 0)
  | _ => true
  end.

Definition truthyTime (x : option time) : bool :=
  match x with
  | Some (ANumber n) => truthyNumber n
  | Some (ADate _) => true
  | None => false
  end.

(** [x.valueOf()] *)
Definition valueOf (x : time) : num :=
  match x with
  | ANumber n => n
  | ADate timeValue => timeValue
  end.

(** [s[0].toUpperCase() + s.slice(1)] on a string that is not empty. *)
Definition capitalised (s : string) : string :=
  match s with
  | String a r => String (JsString.upper_ascii a) r
  | EmptyString => EmptyString
  end.

Section Text.

Variable encodeURIComponent : string -> string.
(** The text of a number, and of [new Date(n).toString()]. *)
Variable numberText : num -> string.
Variable dateText : num -> string.

Definition attribute (present : bool) (text : string) (base : string) : string :=
  if present then String.append base text else base.

(** [cookie.toString()] *)
Definition toString (c : t) : string :=
  let o := _options c in
  let base := String.append (key c) (String.append "=" (encodeURIComponent (_value c))) in
  let base := attribute (truthyString (sameSite o))
                (String.append "; SameSite="
                   (capitalised (match sameSite o with Some s => s | None => EmptyString end)))
                base in
  let base := attribute (truthyBool (secure o)) "; Secure" base in
  let base := attribute (truthyBool (httpOnly o)) "; HttpOnly" base in
  let base := attribute (truthyString (domain o))
                (String.append "; Domain="
                   (match domain o with Some s => s | None => EmptyString end))
                base in
  let base := attribute (truthyString (path o))
                (String.append "; Path="
                   (match path o with Some s => s | None => EmptyString end))
                base in
  let base := attribute (truthyTime (maxAge o))
                (String.append "; Max-Age="
                   (numberText (match maxAge o with Some x => valueOf x | None => NaN end)))
                base in
  attribute (truthyTime (expires o))
    (String.append "; Expires="
       (dateText (match expires o with Some x => valueOf x | None => NaN end)))
    base.

(** [ctx.setCookie(key, value, options)]: the cookie is added to the
    [Set-Cookie] values of the response. No reference to the new cookie
    leaves the call, so the value added stands for the text the
    container later takes from it. *)
Definition setCookie (key value : string) (options : option CookieOptions) (w : World)
  : completion World :=
  match Headers.add "Set-Cookie"
          (Response.AStr (toString (create key value options))) (responseHeaders w) with
  | Normal h => Normal (set_responseHeaders h w)
  | Throw m => Throw m
  end.

(** [ctx.removeCookie(key)] *)
Definition removeCookie (key : string) (w : World) : completion World :=
  setCookie key EmptyString
    (Some {| sameSite := None; secure := None; httpOnly := None; domain := None;
             path := None; maxAge := Some (ANumber (Fin 0)); expires := None |}) w.

End Text.

(** The options with another [maxAge]. *)
Definition withMaxAge (x : option time) (o : CookieOptions) : CookieOptions :=
  {| sameSite := sameSite o; secure := secure o; httpOnly := httpOnly o;
     domain := domain o; path := path o; maxAge := x; expires := expires o |}.

End Cookie.

(** ** The path and the query of a message context (message-context.ts) *)

Module MessageCreate.

(** The [path] and [query] that [MessageContext.create] computes from
    [req.url]; a throwing [QueryObject.from] makes [create] throw. *)
Definition pathAndQueryObject (decode : string -> option string) (url : string)
  : completion (string * QueryObject.t) :=
  match Url.pathAndQuery url with
  | (path, Some text) =>
      match QueryObject.from decode text with
      | Normal query => Normal (path, query)
      | Throw m => Throw m
      end
  | (path, None) => Normal (path, ∅)
  end.

End MessageCreate.

(** ** The cookies of a request (message-context.ts, [ctx.cookies]) *)

Module RequestCookies.

(** Without the spaces (U+0020) at the start. *)
Fixpoint dropLeading (s : string) : string :=
  match s with
  | String a r => if Ascii.eqb a " " then dropLeading r else s
  | EmptyString => EmptyString
  end.

(** Without the spaces at the end. *)
Fixpoint dropTrailing (s : string) : string :=
  match s with
  | EmptyString => EmptyString
  | String a r =>
      match dropTrailing r with
      | EmptyString => if Ascii.eqb a " " then EmptyString else String a EmptyString
      | r' => String a r'
      end
  end.

(** The pieces between semicolons without the spaces next to a
    semicolon; [first] tells whether the piece starts the text. *)
Fixpoint strip (first : bool) (parts : list string) : list string :=
  match parts with
  | [] => []
  | [p] => [if first then p else dropLeading p]
  | p :: rest =>
      (if first then dropTrailing p else dropTrailing (dropLeading p)) :: strip false rest
  end.

(** [s.split(/ *; */g)]: a separator is a semicolon with the spaces
    before and after it. *)
Definition regexSplit (s : string) : list string :=
  strip true (JsString.split ";" s).

(** [[name, value]] of an entry that passes
    [.filter(([name]) => name !== '' && name !== undefined)] *)
Definition pairOf (parts : list string) : option (string * option string) :=
  match parts with
  | [] => None
  | name :: rest =>
      if String.eqb name EmptyString then None
      else Some (name, match rest with
                       | value :: _ => Some value
                       | [] => None
                       end)
  end.

(** [Object.fromEntries(entries)]: the own properties of the result;
    the value [None] is [undefined]. *)
Definition fromEntries (entries : list (string * option string))
  : gmap string (option string) :=
  fold_left (fun m e => <[fst e := snd e]> m) entries ∅.

(** [ctx.cookies] for the Cookie header of the request ([None] when the
    request has none); [decode] is [decodeURIComponent]. *)
Definition cookies (decode : string -> option string) (header : option string)
  : completion (gmap string (option string)) :=
  let text := JsString.trim (match header with Some s => s | None => EmptyString end) in
  match QueryObject.decodeItems decode (regexSplit text) with
  | None => Throw "URIError"
  | Some items => Normal (fromEntries (omap pairOf items))
  end.

(** A key or value of a cookie: no semicolon, no equals sign and no
    white space. *)
Definition plainPart (x : string) : bool :=
  forallb (fun a => negb (Ascii.eqb a ";") && negb (Ascii.eqb a "=")
                    && negb (JsString.is_space a))%bool
          (list_ascii_of_string x).

Definition plainPair (p : QueryText.pair) : bool :=
  plainPart (fst p) && negb (String.eqb (fst p) EmptyString) &&
  match snd p with
  | Some v => plainPart v
  | None => true
  end.

(** No white space occurs in [x]. *)
Definition noSpace (x : string) : Prop :=
  forallb (fun a => negb (JsString.is_space a)) (list_ascii_of_string x) = true.

(** The pieces of [k1=v1; k2=v2; ...] between the semicolons. *)
Definition padded (items : list string) : list string :=
  match items with
  | x :: r => x :: map (String " ") r
  | [] => [EmptyString]
  end.

(** [k1=v1; k2=v2; ...] *)
Definition cookieText (pairs : list QueryText.pair) : string :=
  JsString.join "; " (map QueryText.itemText pairs).

(** The value of the last pair with key [name]. *)
Definition lastValue (name : string) (pairs : list QueryText.pair)
  : option (option string) :=
  option_map snd (find (fun p => String.eqb (fst p) name) (rev pairs)).

End RequestCookies.

(** ** The headers of a request (headers.ts, [Headers.from]) *)

Module HeadersProxy.

Import JsString.

(** [for (const key in object) if (object.hasOwnProperty(key)) headers.set(key, object[key])],
    the object given by its own entries; [None] as for [Headers.set]. *)
Definition fill (entries : list (string * Response.headerArg)) : option Headers.t :=
  fold_left (fun acc e => acc ≫= Headers.set (fst e) (snd e)) entries (Some ∅).

(** What reading a property of the proxy gives. *)
Inductive property :=
| HeaderText (v : stringable)      (* the text of a header value *)
| NoValue                          (* [undefined] *)
| Reflected (key : string).        (* [Reflect.get(target, key)]: a method or
                                      field of the container, or [undefined] *)

(** The [get] trap, for a string key. *)
Definition proxyGet (key : string) (h : Headers.t) : completion property :=
  if Headers.has key h then
    match Headers.get key h with
    | Normal (Some v) => Normal (HeaderText v)
    | Normal None => Normal NoValue
    | Throw m => Throw m
    end
  else Normal (Reflected key).

(** The names [Reflect.has(target, key)] finds: the field and the
    methods of the container and the members of [Object.prototype]. *)
Definition targetKeys : list string :=
  [ "headers"; "get"; "getAll"; "has"; "set"; "add"; "entries"; "toJSON" ]
  ++ MessageContext.objectPrototypeKeys.

(** The [has] trap, for a string key. *)
Definition proxyHas (key : string) (h : Headers.t) : bool :=
  if Headers.has key h then true else mem key targetKeys.

(** The entry read for a name: the last one whose key is the name up to
    letter case. *)
Definition lastEntry (name : string) (entries : list (string * Response.headerArg))
  : option (string * Response.headerArg) :=
  find (fun e => String.eqb (toLowerCase (fst e)) (toLowerCase name)) (rev entries).

Definition noProto (entries : list (string * Response.headerArg)) : bool :=
  forallb (fun e => negb (String.eqb (toLowerCase (fst e)) "__proto__")) entries.

End HeadersProxy.

(** ** Preconditions that hold, evaluated in turn *)

Module PreconditionSpec.

Section InTurn.
Variable cb : Callbacks.
Variable req : Request.

(** Every precondition of [ps], evaluated in turn from [w], answers
    true. *)
Fixpoint allHold (ps : list preCondition) (w : World) : Prop :=
  match ps with
  | [] => True
  | p :: rest =>
      snd (RouteListener.evalPreCondition cb req p w) = Normal true
      /\ allHold rest (fst (RouteListener.evalPreCondition cb req p w))
  end.

(** The world the preconditions of [ps] leave when they are evaluated
    in turn from [w]. *)
Fixpoint worldAfter (ps : list preCondition) (w : World) : World :=
  match ps with
  | [] => w
  | p :: rest => worldAfter rest (fst (RouteListener.evalPreCondition cb req p w))
  end.

End InTurn.

(** A listener that answers GET requests for [/a], with a second
    precondition that is never reached by a POST. *)
Definition getOnly : Listener :=
  {| pathAsRegExp := RoutedApplication.pattern;
     preConditions := [MethodIs "GET"; UserPreCondition 0];
     routeHandler := 0 |}.

End PreconditionSpec.

(** * Properties *)

(** ** Dispatch *)

Section HandleFacts.

Context {St : Type} (invoke : nat -> St -> St * completion AnyType).

Lemma handle_loop_spec (snap : list nat) (st : St) :
  (exists pre h post,
      snap = pre ++ h :: post /\
      all_unhandled St invoke pre st /\
      snd (invoke h (state_after St invoke pre st)) <> Normal UNHANDLED /\
      handle_loop St invoke snap st =
        (fst (invoke h (state_after St invoke pre st)),
         snd (invoke h (state_after St invoke pre st)),
         pre ++ [h]))
  \/ (all_unhandled St invoke snap st /\
      handle_loop St invoke snap st =
        (state_after St invoke snap st, Normal UNHANDLED, snap)).
Proof.
  revert st. induction snap as [|h rest IH]; intros st.
  - right. split; [exact I | reflexivity].
  - destruct (invoke h st) as [st' c] eqn:E.
    assert (Hl : handle_loop St invoke (h :: rest) st =
                 match c with
                 | Normal r =>
                     if is_UNHANDLED r then
                       let '(st'', res, tr) := handle_loop St invoke rest st' in
                       (st'', res, h :: tr)
                     else (st', Normal r, [h])
                 | Throw m => (st', Throw m, [h])
                 end)
      by (cbn [handle_loop]; rewrite E; reflexivity).
    destruct c as [[p| |]|m]; cbn [is_UNHANDLED] in Hl.
    1,2,4: left; exists [], h, rest;
           cbn [app all_unhandled state_after]; rewrite E; cbn [fst snd];
           (split; [reflexivity | split; [exact I | split; [discriminate | exact Hl]]]).
    destruct (IH st') as [(pre & h0 & post & -> & Hall & Hne & Hr)|[Hall Hr]];
      rewrite Hr in Hl.
    + left. exists (h :: pre), h0, post.
      cbn [app all_unhandled state_after]. rewrite E. cbn [fst snd]. tauto.
    + right. cbn [app all_unhandled state_after]. rewrite E. cbn [fst snd]. tauto.
Qed.

End HandleFacts.

(** C1. [handle] iterates over the target list as it was when the
    dispatch started, in registration order: the targets invoked are an
    initial part of that snapshot, whatever the targets do to the live
    list. Either some target of the snapshot is the first whose answer is
    not UNHANDLED (or which throws), everything before it answered
    UNHANDLED, and its answer is the result; or every target of the
    snapshot was invoked and answered UNHANDLED, and the result is
    UNHANDLED. In the router with three listeners whose second listener
    detaches itself while it is invoked, all three are invoked in that
    dispatch and the third one's result is returned. *)
Theorem handle_snapshot_first_match :
  (forall (St : Type) (hs : St -> list nat)
          (invoke : nat -> St -> St * completion AnyType) (st : St),
      (exists pre h post,
          hs st = pre ++ h :: post /\
          all_unhandled St invoke pre st /\
          snd (invoke h (state_after St invoke pre st)) <> Normal UNHANDLED /\
          handle St hs invoke st =
            (fst (invoke h (state_after St invoke pre st)),
             snd (invoke h (state_after St invoke pre st)),
             pre ++ [h]))
      \/ (all_unhandled St invoke (hs st) st /\
          handle St hs invoke st =
            (state_after St invoke (hs st) st, Normal UNHANDLED, hs st)))
  /\ ThreeListeners.dispatch
     = Some ([0], Normal (RESULT (Text "third")), [0; 1; 2]).
Proof.
  split.
  - intros St hs invoke st. unfold handle. apply handle_loop_spec.
  - vm_compute. reflexivity.
Qed.

(** ** Detaching *)

Section DetachFacts.

Import JsArray RouterContext.

Lemma indexOf_Some_lt (x : nat) (arr : list nat) (i : nat) :
  indexOf x arr = Some i -> (i < length arr)%nat.
Proof.
  revert i. induction arr as [|y r IH]; intros i; cbn; [discriminate|].
  destruct (Nat.eqb y x).
  - intros [= <-]. lia.
  - destruct (indexOf x r) as [j|]; cbn; [|discriminate].
    intros [= <-]. specialize (IH j eq_refl). lia.
Qed.

(** A listener that is in the list takes every later target with it. *)
Lemma detachListener_present (l : nat) (w : World) (i : nat) :
  indexOf l (handlers w) = Some i ->
  handlers (detachListener l w) = firstn i (handlers w).
Proof.
  intros H. unfold detachListener, splice1, indexOfJs, actualStart. rewrite H. cbn.
  apply indexOf_Some_lt in H. f_equal. lia.
Qed.

(** A listener that is not in the list removes the last target. *)
Lemma detachListener_absent (l : nat) (w : World) :
  indexOf l (handlers w) = None ->
  handlers (detachListener l w) = firstn (length (handlers w) - 1) (handlers w).
Proof.
  intros H. unfold detachListener, splice1, indexOfJs, actualStart. rewrite H. reflexivity.
Qed.

(** The detach function of a sub-router guards against the missing
    entry: detaching what is not in the list changes nothing. *)
Lemma detachRouter_absent (r : nat) (w : World) :
  indexOf r (handlers w) = None -> detachRouter r w = w.
Proof. intros H. unfold detachRouter. rewrite H. reflexivity. Qed.

End DetachFacts.

(** C2. The detach function of a listener does not remove exactly that
    listener. With the targets [0; 1; 2] registered, detaching listener 0
    empties the list; and after listener 2 was detached, detaching it a
    second time removes listener 1, which is still registered. *)
Theorem listener_detach_removes_other_listeners :
  let w := set_handlers [0; 1; 2] ThreeListeners.emptyWorld in
  handlers (RouterContext.detachListener 0 w) = []
  /\ handlers (RouterContext.detachListener 2 w) = [0; 1]
  /\ handlers (RouterContext.detachListener 2 (RouterContext.detachListener 2 w)) = [0].
Proof. repeat split. Qed.

(** ** Redirects *)

Section RedirectFacts.

Import Response.

Lemma unsafeMethod_spec (req : Request) :
  unsafeMethod req = true <-> method req = "PUT" \/ method req = "POST".
Proof.
  unfold unsafeMethod. rewrite Bool.orb_true_iff, !String.eqb_eq. reflexivity.
Qed.

Lemma setHeader_Location (location : string) (w : World) :
  setHeader "Location" (AStr location) w =
  set_responseHeaders (<["location" := [Str location]]> (responseHeaders w)) w.
Proof. reflexivity. Qed.

End RedirectFacts.

(** C9. [redirect], [redirectPermanent] and [redirectPermanentCompat] set
    the status to 307, 308 and 301, or to 303 when the method of the
    request is PUT or POST; they store the location as the only value of
    the Location header and leave the rest of the response state (the
    other headers, the externally-handled flag) and the rest of the world
    as they were. *)
Theorem redirect_status_and_location (req : Request) (location : string) (w : World) :
  let unsafe := (String.eqb (method req) "PUT" || String.eqb (method req) "POST")%bool in
  let after (s : Z) :=
    {| handlers := handlers w; params := params w;
       responseStatus := if unsafe then 303%Z else s;
       responseHeaders := <["location" := [Str location]]> (responseHeaders w);
       externallyHandled := externallyHandled w |} in
  Response.redirect req location w = after 307%Z
  /\ Response.redirectPermanent req location w = after 308%Z
  /\ Response.redirectPermanentCompat req location w = after 301%Z
  /\ (unsafe = true <-> method req = "PUT" \/ method req = "POST").
Proof.
  cbv zeta.
  unfold Response.redirect, Response.redirectPermanent, Response.redirectPermanentCompat.
  rewrite !setHeader_Location. unfold Response.status, Response.unsafeMethod.
  repeat split; try (destruct (_ || _)%bool; reflexivity).
  - intros H. apply (proj1 (unsafeMethod_spec req)). exact H.
  - intros H. apply (proj2 (unsafeMethod_spec req)). exact H.
Qed.

(** ** Decoration *)

Section DecorationFacts.

Import Decoration.
Context {V : Type}.
Variable readOnly : string -> bool.

Abbreviation obj := (gmap string V).
Abbreviation part := (list (string * V)).

Lemma find_append {A} (p : A -> bool) (l1 l2 : list A) :
  find p (l1 ++ l2) = match find p l1 with Some x => Some x | None => find p l2 end.
Proof.
  induction l1 as [|x l1 IH]; [reflexivity|]. cbn [app find].
  destruct (p x); [reflexivity|exact IH].
Qed.

Lemma assignFields_writable (src : part) :
  forall (target : obj) (k : string),
    forallb (fun e => negb (readOnly (fst e))) src = true ->
    snd (assignFields V readOnly target src) = Normal tt
    /\ fst (assignFields V readOnly target src) !! k
       = match find (fun e => String.eqb (fst e) k) (rev src) with
         | Some e => Some (snd e)
         | None => target !! k
         end.
Proof.
  induction src as [|[key v] r IH]; intros target k H.
  - split; reflexivity.
  - cbn [forallb fst] in H. apply andb_true_iff in H as [Hk Hr].
    apply negb_true_iff in Hk. cbn [assignFields]. rewrite Hk.
    destruct (IH (<[key := v]> target) k Hr) as [H1 H2]. split; [exact H1|].
    rewrite H2. cbn [rev]. rewrite find_append.
    destruct (find (fun e => String.eqb (fst e) k) (rev r)); [reflexivity|].
    cbn [find fst snd]. destruct (String.eqb key k) eqn:E.
    + apply String.eqb_eq in E. subst key. rewrite lookup_insert_eq. reflexivity.
    + apply String.eqb_neq in E. rewrite lookup_insert_ne by exact E. reflexivity.
Qed.

Lemma assignFields_refused (src : part) :
  forall target : obj,
    forallb (fun e => negb (readOnly (fst e))) src = false ->
    snd (assignFields V readOnly target src) = Throw "TypeError".
Proof.
  induction src as [|[key v] r IH]; intros target H; [discriminate|].
  cbn [forallb fst] in H. cbn [assignFields].
  destruct (readOnly key); [reflexivity|]. apply IH. exact H.
Qed.

Lemma assignFields_keeps (src : part) :
  forall (target : obj) (k : string),
    is_Some (target !! k) -> is_Some (fst (assignFields V readOnly target src) !! k).
Proof.
  induction src as [|[key v] r IH]; intros target k H; [exact H|].
  cbn [assignFields]. destruct (readOnly key); [exact H|]. apply IH.
  destruct (String.eqb key k) eqn:E.
  - apply String.eqb_eq in E. subst key. rewrite lookup_insert_eq. eauto.
  - apply String.eqb_neq in E. rewrite lookup_insert_ne by exact E. exact H.
Qed.

Lemma objectAssign_writable (sources : list part) :
  forall (target : obj) (k : string),
    allWritable V readOnly sources = true ->
    snd (objectAssign V readOnly target sources) = Normal tt
    /\ fst (objectAssign V readOnly target sources) !! k
       = lastWriter V k target sources.
Proof.
  unfold allWritable, lastWriter.
  induction sources as [|src r IH]; intros target k H.
  - split; reflexivity.
  - cbn [concat] in H. rewrite forallb_app in H. apply andb_true_iff in H as [Hs Hr].
    destruct (assignFields_writable src target k Hs) as [H1 H2].
    cbn [objectAssign].
    destruct (assignFields V readOnly target src) as [target' c] eqn:E.
    cbn [fst snd] in H1, H2. subst c.
    destruct (IH target' k Hr) as [H3 H4]. split; [exact H3|].
    rewrite H4, H2. cbn [concat]. rewrite rev_app_distr, find_append.
    destruct (find (fun e => String.eqb (fst e) k) (rev (concat r))); reflexivity.
Qed.

Lemma objectAssign_refused (sources : list part) :
  forall target : obj,
    allWritable V readOnly sources = false ->
    snd (objectAssign V readOnly target sources) = Throw "TypeError".
Proof.
  unfold allWritable. induction sources as [|src r IH]; intros target H; [discriminate|].
  cbn [concat] in H. rewrite forallb_app in H. cbn [objectAssign].
  destruct (forallb (fun e => negb (readOnly (fst e))) src) eqn:Es.
  - destruct (assignFields_writable src target EmptyString Es) as [H1 _].
    destruct (assignFields V readOnly target src) as [target' c].
    cbn [snd] in H1. subst c. apply IH. exact H.
  - pose proof (assignFields_refused src target Es) as H1.
    destruct (assignFields V readOnly target src) as [target' c].
    cbn [snd] in H1. subst c. reflexivity.
Qed.

Lemma objectAssign_keeps (sources : list part) :
  forall (target : obj) (k : string),
    is_Some (target !! k) -> is_Some (fst (objectAssign V readOnly target sources) !! k).
Proof.
  induction sources as [|src r IH]; intros target k H; [exact H|].
  cbn [objectAssign]. pose proof (assignFields_keeps src target k H) as H1.
  destruct (assignFields V readOnly target src) as [target' [[]|m]]; cbn [fst] in H1.
  - apply IH. exact H1.
  - exact H1.
Qed.

Lemma filterBoolean_exec (hook : hookName V) (target : obj) (exts : list (Extension V)) :
  filterBoolean V (execFunctionOnArray V exts hook target)
  = omap (returned V hook target) exts.
Proof.
  unfold filterBoolean. induction exts as [|e r IH]; [reflexivity|].
  cbn. unfold returned at 1. destruct (hook e) as [f|]; cbn; [|exact IH].
  destruct (f target); cbn; rewrite IH; reflexivity.
Qed.

Lemma invoked_exec (hook : hookName V) (target : obj) (exts : list (Extension V)) :
  invoked V (execFunctionOnArray V exts hook target)
  = map (name V) (List.filter (definesHook V hook) exts).
Proof.
  unfold invoked. induction exts as [|e r IH]; [reflexivity|].
  cbn. unfold definesHook at 1. destruct (hook e); cbn; rewrite IH; reflexivity.
Qed.

End DecorationFacts.

(** C8 fails as stated: the application is a function, whose [name]
    cannot be assigned. When the decoration hook of an extension
    returns a field [name], the decoration of the application throws a
    TypeError; the field keeps its value, and the field returned after
    it is not assigned. *)
Lemma decoration_throws_on_read_only_field :
  let decorated :=
    Decoration.decorateApplicationWith string Decoration.functionReadOnly
      TwoExtensions.application [TwoExtensions.renaming] in
  snd (fst decorated) = Throw "TypeError"
  /\ fst (fst decorated) !! "name"%string = Some "handlerFunction"%string
  /\ fst (fst decorated) !! "name"%string <> Some "renamed"%string
  /\ fst (fst decorated) !! "greeting"%string = None
  /\ snd decorated = ["renaming"%string].
Proof. cbv zeta. repeat split; try (vm_compute; reflexivity). vm_compute. discriminate. Qed.

(** C8, amended. Decoration calls the matching hook of every extension
    that defines it, in installation order (the router and message
    decorators in a first pass whose results are dropped, then in the
    decorating pass), and assigns the partial objects the hooks returned
    onto the target in that order. When no returned field names a
    property the target refuses to be assigned, a field has the value
    given by the last extension that returned it (the target's own value
    when none did); otherwise the decoration throws a TypeError. When
    two installed extensions decorate the application with the same
    field, the value of the one installed second is present. *)
Theorem decoration_in_order_last_writer_wins :
  (forall (V : Type) (readOnly : string -> bool) (target : gmap string V)
          (exts : list (Decoration.Extension V)) (k : string),
      let hookA := Decoration.decorateApplication V in
      let hookR := Decoration.decorateRouterContext V in
      let hookM := Decoration.decorateMessageContext V in
      let names hook := map (Decoration.name V) (List.filter (Decoration.definesHook V hook) exts) in
      let partials hook := omap (Decoration.returned V hook target) exts in
      let decoratedA := Decoration.decorateApplicationWith V readOnly target exts in
      let decoratedR := Decoration.decorateRouterContextWith V readOnly target exts in
      let decoratedM := Decoration.decorateMessageContextWith V readOnly target exts in
      snd decoratedA = names hookA
      /\ snd decoratedR = names hookR ++ names hookR
      /\ snd decoratedM = names hookM ++ names hookM
      /\ (Decoration.allWritable V readOnly (partials hookA) = true ->
          snd (fst decoratedA) = Normal tt
          /\ fst (fst decoratedA) !! k = Decoration.lastWriter V k target (partials hookA))
      /\ (Decoration.allWritable V readOnly (partials hookR) = true ->
          snd (fst decoratedR) = Normal tt
          /\ fst (fst decoratedR) !! k = Decoration.lastWriter V k target (partials hookR))
      /\ (Decoration.allWritable V readOnly (partials hookM) = true ->
          snd (fst decoratedM) = Normal tt
          /\ fst (fst decoratedM) !! k = Decoration.lastWriter V k target (partials hookM))
      /\ (Decoration.allWritable V readOnly (partials hookA) = false ->
          snd (fst decoratedA) = Throw "TypeError")
      /\ (Decoration.allWritable V readOnly (partials hookR) = false ->
          snd (fst decoratedR) = Throw "TypeError")
      /\ (Decoration.allWritable V readOnly (partials hookM) = false ->
          snd (fst decoratedM) = Throw "TypeError"))
  /\ snd TwoExtensions.installedBoth = Normal tt
  /\ snd (fst TwoExtensions.installedBoth) !! "greeting"%string = Some "bonjour"%string
  /\ fst (fst (Decoration.decorateApplicationWith string Decoration.functionReadOnly ∅
                 [TwoExtensions.first; TwoExtensions.second])) !! "greeting"%string
     = Some "bonjour"%string.
Proof.
  split.
  - intros V readOnly target exts k. cbv zeta.
    unfold Decoration.decorateApplicationWith, Decoration.decorateRouterContextWith,
      Decoration.decorateMessageContextWith. cbn [fst snd].
    rewrite !filterBoolean_exec, !invoked_exec.
    split; [reflexivity|]. split; [reflexivity|]. split; [reflexivity|].
    split; [apply objectAssign_writable|].
    split; [apply objectAssign_writable|].
    split; [apply objectAssign_writable|].
    split; [apply objectAssign_refused|].
    split; apply objectAssign_refused.
  - split; [vm_compute; reflexivity|]. split; vm_compute; reflexivity.
Qed.

(** ** Route listeners *)

Section ListenerFacts.

Import RouterContext RouteListener.

Lemma any_registered (p : string) (h : nat) (rt : Router) (w : World)
      (rt' : Router) (w' : World) (l : nat) :
  any p h rt w = Registered rt' w' l ->
  exists re,
    getPathRegExp (prefix rt) p = RegExp.Compiled re /\
    l = fresh rt /\
    w' = set_handlers (handlers w ++ [l]) w /\
    rt' = {| prefix := prefix rt;
             table := <[l := {| pathAsRegExp := re; preConditions := [];
                                routeHandler := h |}]> (table rt);
             fresh := S l |}.
Proof.
  unfold any. destruct (getPathRegExp (prefix rt) p) as [re| |]; try discriminate.
  intros [= <- <- <-]. exists re. repeat split.
Qed.

(** A match of the pattern is what [exec] returns: the non-null
    assertion on [exec] in [wrappedRouteHandler] cannot fail. *)
Lemma test_exec (re : RegExp.regex) (s : string) :
  RegExp.test re s = true ->
  exists caps,
    RegExp.run (RegExp.items re) (RegExp.anchoredEnd re) (list_ascii_of_string s) = Some caps /\
    RegExp.exec re s = Some (if RegExp.has_named_groups re then Some caps else None).
Proof.
  unfold RegExp.test, RegExp.exec.
  destruct (RegExp.run _ _ _) as [caps|]; [|discriminate].
  intros _. exists caps. split; reflexivity.
Qed.

Lemma wrappedRouteHandler_method (cb : Callbacks) (req : Request) (re : RegExp.regex)
      (h : nat) (M : string) (w : World) :
  wrappedRouteHandler cb req
    {| pathAsRegExp := re; preConditions := [MethodIs M]; routeHandler := h |} w
  = if String.eqb (method req) M
    then wrappedRouteHandler cb req
           {| pathAsRegExp := re; preConditions := []; routeHandler := h |} w
    else (w, Normal UNHANDLED).
Proof.
  unfold wrappedRouteHandler. cbn.
  destruct (RegExp.test re (path req)); cbn.
  - destruct (String.eqb (method req) M); reflexivity.
  - destruct (String.eqb (method req) M); reflexivity.
Qed.

End ListenerFacts.

(** C5 fails as stated: only the registered method is upper-cased, the
    method of the request is compared as it is. A route registered for
    GET answers UNHANDLED to a request whose method is spelled [get],
    although the two methods are equal once upper-cased. *)
Lemma request_method_is_not_uppercased :
  MethodRoutes.answer "GET" "get" = Some (Normal UNHANDLED)
  /\ JsString.toUpperCase "get" = JsString.toUpperCase "GET".
Proof. split; vm_compute; reflexivity. Qed.

(** A route registered for GET answers a GET, also when it was registered
    in lower case, and answers UNHANDLED to a POST to the same path. *)
Example get_route_answers :
  MethodRoutes.answer "GET" "GET" = Some (Normal (RESULT (Text "ok")))
  /\ MethodRoutes.answer "get" "GET" = Some (Normal (RESULT (Text "ok")))
  /\ MethodRoutes.answer "GET" "POST" = Some (Normal UNHANDLED).
Proof. repeat split; vm_compute; reflexivity. Qed.

(** C5, amended. A listener registered by [add(m, path, handler)] is the
    listener [any(path, handler)] registers, with one precondition added
    that compares the method of the request, as it is, with the
    upper-cased [m]: it answers as the listener of [any] when they are
    equal and UNHANDLED, leaving the world alone, when they are not. So
    the letter case of the registered method does not matter, and a route
    registered for GET answers UNHANDLED to a POST to the same path. *)
Theorem add_is_any_with_method_precondition
        (m p : string) (h : nat) (rt : Router) (w : World)
        (rt' : Router) (w' : World) (l : nat) :
  RouterContext.add m p h rt w = RouterContext.Registered rt' w' l ->
  exists rt0,
    RouterContext.any p h rt w = RouterContext.Registered rt0 w' l
    /\ rt' = RouterContext.addPreCondition l (MethodIs (JsString.toUpperCase m)) rt0
    /\ (forall (cb : Callbacks) (req : Request)
               (sub : nat -> World -> World * completion AnyType) (w0 : World),
           RouteListener.invokeTarget cb req sub (table rt') l w0 =
             if String.eqb (method req) (JsString.toUpperCase m)
             then RouteListener.invokeTarget cb req sub (table rt0) l w0
             else (w0, Normal UNHANDLED))
    /\ (forall m2, JsString.toUpperCase m2 = JsString.toUpperCase m ->
           RouterContext.add m2 p h rt w = RouterContext.Registered rt' w' l).
Proof.
  unfold RouterContext.add.
  destruct (RouterContext.any p h rt w) as [rt0 w0 l0| |] eqn:E; try discriminate.
  intros [= <- <- <-]. exists rt0. split; [reflexivity|]. split; [reflexivity|].
  split.
  - intros cb req sub w1. apply any_registered in E as (re & _ & _ & _ & ->).
    unfold RouteListener.invokeTarget, RouterContext.addPreCondition. cbn [table].
    rewrite lookup_alter, lookup_insert_eq. cbn.
    rewrite decide_True by reflexivity. cbn.
    apply wrappedRouteHandler_method.
  - intros m2 ->. reflexivity.
Qed.

Lemma add_is_any_with_method_precondition_witness :
  exists rt' w' l,
    RouterContext.add "GET" "/x" 0 ThreeListeners.emptyRouter ThreeListeners.emptyWorld
    = RouterContext.Registered rt' w' l
    /\ exists rt0,
      RouterContext.any "/x" 0 ThreeListeners.emptyRouter ThreeListeners.emptyWorld
      = RouterContext.Registered rt0 w' l
      /\ rt' = RouterContext.addPreCondition l (MethodIs (JsString.toUpperCase "GET")) rt0
      /\ (forall (cb : Callbacks) (req : Request)
                 (sub : nat -> World -> World * completion AnyType) (w0 : World),
             RouteListener.invokeTarget cb req sub (table rt') l w0 =
               if String.eqb (method req) (JsString.toUpperCase "GET")
               then RouteListener.invokeTarget cb req sub (table rt0) l w0
               else (w0, Normal UNHANDLED))
      /\ (forall m2, JsString.toUpperCase m2 = JsString.toUpperCase "GET" ->
             RouterContext.add m2 "/x" 0 ThreeListeners.emptyRouter ThreeListeners.emptyWorld
             = RouterContext.Registered rt' w' l).
Proof.
  eexists _, _, _. split.
  - vm_compute. reflexivity.
  - apply (add_is_any_with_method_precondition "GET" "/x" 0
             ThreeListeners.emptyRouter ThreeListeners.emptyWorld).
    vm_compute. reflexivity.
Defined.

(** ** The groups of a match *)

Section GroupFacts.

Import RegExp.

Lemma star_continues (c : charset) (k : list ascii -> option captures) (s : list ascii)
      (w : list ascii) (res : captures) :
  star c k s = Some (w, res) -> exists s', s = w ++ s' /\ k s' = Some res.
Proof.
  revert w. induction s as [|a r IH]; intros w; cbn.
  - destruct (k []) eqn:E; cbn; [|discriminate]. intros [= <- <-]. exists []. auto.
  - destruct (cs_match c a).
    + destruct (star c k r) as [[w' res']|] eqn:E.
      * intros [= <- <-]. destruct (IH w' eq_refl) as (s' & -> & Hk).
        exists s'. auto.
      * destruct (k (a :: r)) eqn:Ek; cbn; [|discriminate].
        intros [= <- <-]. exists (a :: r). auto.
    + destruct (k (a :: r)) eqn:Ek; cbn; [|discriminate].
      intros [= <- <-]. exists (a :: r). auto.
Qed.

Lemma step_continues (it : item) (k : list ascii -> option captures) (s : list ascii)
      (w : list ascii) (res : captures) :
  match qt it with
  | QOne => one (cs it) k s
  | QOpt => opt (cs it) k s
  | QStar => star (cs it) k s
  | QPlus => plus (cs it) k s
  end = Some (w, res) ->
  exists s', s = w ++ s' /\ k s' = Some res.
Proof.
  destruct (qt it).
  - unfold one. destruct s as [|a r]; [discriminate|].
    destruct (cs_match (cs it) a); [|discriminate].
    destruct (k r) eqn:E; cbn; [|discriminate]. intros [= <- <-]. exists r. auto.
  - unfold opt, one. destruct s as [|a r].
    + destruct (k []) eqn:E; cbn; [|discriminate]. intros [= <- <-]. exists []. auto.
    + destruct (cs_match (cs it) a).
      * destruct (k r) eqn:E; cbn.
        -- intros [= <- <-]. exists r. auto.
        -- destruct (k (a :: r)) eqn:E'; cbn; [|discriminate].
           intros [= <- <-]. exists (a :: r). auto.
      * destruct (k (a :: r)) eqn:E'; cbn; [|discriminate].
        intros [= <- <-]. exists (a :: r). auto.
  - apply star_continues.
  - unfold plus. destruct s as [|a r]; [discriminate|].
    destruct (cs_match (cs it) a); [|discriminate].
    destruct (star (cs it) k r) as [[w' res']|] eqn:E; [|discriminate].
    intros [= <- <-]. apply star_continues in E as (s' & -> & Hk). exists s'. auto.
Qed.

(** The captures of a match name the groups of the pattern, in order. *)
Lemma run_names (its : list item) (anch : bool) (s : list ascii) (caps : captures) :
  run its anch s = Some caps -> map fst caps = omap gname its.
Proof.
  revert s caps. induction its as [|it rest IH]; intros s caps.
  - cbn. destruct anch; [destruct s|]; intros [= <-]; reflexivity.
  - cbn [run]. unfold bind_group.
    destruct (match qt it with
              | QOne => one (cs it) (run rest anch) s
              | QOpt => opt (cs it) (run rest anch) s
              | QStar => star (cs it) (run rest anch) s
              | QPlus => plus (cs it) (run rest anch) s
              end) as [[w res]|] eqn:E; [|discriminate].
    apply step_continues in E as (s' & _ & Hk). apply IH in Hk.
    cbn [omap list_omap]. destruct (gname it); intros [= <-]; cbn; rewrite Hk; reflexivity.
Qed.

End GroupFacts.

(** C10. When the pattern of a listener matches and its preconditions
    hold, the route handler is invoked with [ctx.params] overwritten by
    the [groups] field of the match, whatever [params] held before: that
    is [undefined] when the compiled pattern has no named group, and the
    mapping from the group names of the pattern to the matched text only
    when it has at least one. *)
Theorem params_are_the_groups_of_the_match
        (cb : Callbacks) (req : Request) (lst : Listener) (w w1 : World) :
  RegExp.test (pathAsRegExp lst) (path req) = true ->
  RouteListener.checkPreConditions cb req (preConditions lst) w = (w1, Normal true) ->
  exists (caps : RegExp.captures) (w2 : World),
    RouteListener.wrappedRouteHandler cb req lst w
    = RouteListener.toResponse (userHandler cb (routeHandler lst) req w2)
    /\ w2 = set_params (params w2) w1
    /\ map fst caps = RegExp.groupNames (pathAsRegExp lst)
    /\ (RegExp.has_named_groups (pathAsRegExp lst) = false -> params w2 = None)
    /\ (RegExp.has_named_groups (pathAsRegExp lst) = true ->
        params w2 = Some caps /\ caps <> []).
Proof.
  intros Ht Hp. destruct (test_exec _ _ Ht) as (caps & Hrun & Hexec).
  exists caps,
    (set_params (if RegExp.has_named_groups (pathAsRegExp lst) then Some caps else None) w1).
  unfold RouteListener.wrappedRouteHandler. rewrite Ht, Hp, Hexec. cbn [negb].
  split; [reflexivity|]. split; [reflexivity|].
  pose proof (run_names _ _ _ _ Hrun) as Hn.
  split; [exact Hn|]. split.
  - intros ->. reflexivity.
  - intros Hg. rewrite Hg. split; [reflexivity|].
    intros ->. unfold RegExp.has_named_groups in Hg. cbn in Hn.
    destruct (RegExp.items (pathAsRegExp lst)) as [|it r]; [discriminate|].
    clear - Hn Hg. induction (it :: r) as [|x xs IH]; [discriminate|].
    cbn in Hg, Hn. destruct (RegExp.gname x); [discriminate|]. cbn in Hg. auto.
Qed.

Lemma params_are_the_groups_of_the_match_witness :
  exists rt w l lst,
    RouterContext.any "/files/*" 0 ThreeListeners.emptyRouter
      (set_params (Some [("id", "42")]) ThreeListeners.emptyWorld)
    = RouterContext.Registered rt w l
    /\ table rt !! l = Some lst
    /\ exists (caps : RegExp.captures) (w2 : World),
      RouteListener.wrappedRouteHandler MethodRoutes.callbacks
        {| method := "GET"; path := "/files/a/b/c"; accept := None |} lst w
      = RouteListener.toResponse
          (userHandler MethodRoutes.callbacks (routeHandler lst)
             {| method := "GET"; path := "/files/a/b/c"; accept := None |} w2)
      /\ w2 = set_params (params w2) w
      /\ map fst caps = RegExp.groupNames (pathAsRegExp lst)
      /\ (RegExp.has_named_groups (pathAsRegExp lst) = false -> params w2 = None)
      /\ (RegExp.has_named_groups (pathAsRegExp lst) = true ->
          params w2 = Some caps /\ caps <> []).
Proof.
  eexists _, _, _, _. split; [vm_compute; reflexivity|].
  split; [vm_compute; reflexivity|].
  apply (params_are_the_groups_of_the_match MethodRoutes.callbacks
           {| method := "GET"; path := "/files/a/b/c"; accept := None |}).
  - vm_compute. reflexivity.
  - vm_compute. reflexivity.
Defined.

(** ** Content negotiation *)

Section AcceptsFacts.

Import MessageContext.
Variable toNumber : string -> num.
Variable engineOrder : list acceptEntry -> list acceptEntry.

Lemma resolveTypes_values (types : list string) resolved :
  resolveTypes types = Normal resolved -> map snd resolved = types.
Proof.
  revert resolved. induction types as [|t r IH]; intros resolved; cbn [resolveTypes].
  - intros [= <-]. reflexivity.
  - unfold resolveType.
    destruct (assoc t mimeTypeShorthands) as [full|]; cbn [cbind].
    + destruct (resolveTypes r) as [xs|]; cbn [cbind]; [|discriminate].
      intros [= <-]. cbn [map snd]. rewrite (IH xs eq_refl). reflexivity.
    + destruct (JsString.mem t objectPrototypeKeys); cbn [cbind]; [discriminate|].
      destruct (resolveTypes r) as [xs|]; cbn [cbind]; [|discriminate].
      intros [= <-]. cbn [map snd]. rewrite (IH xs eq_refl). reflexivity.
Qed.

Lemma scanTypes_In (f : string) (s : option string) resolved (v : string) :
  scanTypes f s resolved = Some v -> In v (map snd resolved).
Proof.
  induction resolved as [|[[tf ts] value] r IH]; cbn [scanTypes map snd In]; [discriminate|].
  destruct (negb (String.eqb f tf)); [auto|].
  destruct (eqb_opt s (Some "*")); [intros [= ->]; auto|].
  destruct (eqb_opt s ts); [intros [= ->]; auto|auto].
Qed.

Lemma walk_In (first : string) resolved (entries : list acceptEntry) (v : string) :
  walk first resolved entries = Normal (Some v) ->
  v = first \/ In v (map snd resolved).
Proof.
  induction entries as [|e r IH]; cbn [walk]; [discriminate|].
  destruct (mimeType e) as [|m|]; try discriminate.
  destruct (String.eqb m "*/*"); [intros [= ->]; auto|].
  destruct (typePair m) as [f s].
  destruct (scanTypes f s resolved) as [value|] eqn:E; [|exact IH].
  intros [= <-]. right. eapply scanTypes_In. exact E.
Qed.

(** What [accepts] returns, when it is not [false], is one of the candidates. *)
Lemma accepts_In (req : Request) (types : list string) (v : string) :
  accepts toNumber engineOrder req types = Normal (Some v) -> In v types.
Proof.
  unfold accepts. destruct types as [|first rest]; [discriminate|].
  destruct (resolveTypes (first :: rest)) as [resolved|] eqn:E; cbn; [|discriminate].
  intros H. apply walk_In in H. apply resolveTypes_values in E. rewrite E in H.
  destruct H as [->|H]; [left; reflexivity|exact H].
Qed.

Lemma mem_In (k : string) (l : list string) : JsString.mem k l = true <-> In k l.
Proof.
  unfold JsString.mem. rewrite existsb_exists. split.
  - intros (x & Hx & He). apply String.eqb_eq in He. subst. exact Hx.
  - intros H. exists k. split; [exact H|apply String.eqb_refl].
Qed.

Lemma assoc_In {A} (k : string) (l : list (string * A)) :
  In k (map fst l) -> exists v, assoc k l = Some v.
Proof.
  induction l as [|[k' v] r IH]; cbn; [intros []|].
  destruct (String.eqb k' k) eqn:E; [eauto|].
  intros [->|H]; [rewrite String.eqb_refl in E; discriminate|auto].
Qed.

(** On an array without repetition, removing the first [else] leaves the
    other keys. *)
Lemma removeFirst_filter (keys : list string) :
  List.NoDup keys ->
  removeFirst "else" keys = List.filter (fun k => negb (String.eqb k "else")) keys.
Proof.
  induction 1 as [|x r Hx Hr IH]; cbn; [reflexivity|].
  destruct (String.eqb x "else") eqn:E; cbn.
  - apply String.eqb_eq in E. subst x. symmetry.
    rewrite <- (filter_ext_in (fun _ => true)).
    + clear. induction r; cbn; congruence.
    + intros a Ha. destruct (String.eqb a "else") eqn:E'; [|reflexivity].
      apply String.eqb_eq in E'. subst a. contradiction.
  - rewrite IH. reflexivity.
Qed.

End AcceptsFacts.

(** C6. [accepting] on an object without the key [else] throws the
    configuration error, whatever the request (the accept header is not
    looked at). With the key [else], it computes [accepts] over the other
    keys in the key order of the object and calls the handler stored
    under the returned type, or the handler under [else] when [accepts]
    returns [false], which is the case when [else] is the only key. An
    exception thrown by [accepts] propagates. *)
Theorem accepting_requires_else_then_negotiates
        (toNumber : string -> num)
        (engineOrder : list MessageContext.acceptEntry -> list MessageContext.acceptEntry) (cb : Callbacks) (obj : list (string * nat)) (w : World) :
  List.NoDup (map fst obj) ->
  (JsString.mem "else" (map fst obj) = false ->
   forall req, MessageContext.accepting toNumber engineOrder cb req obj w
               = (w, Throw AcceptingSpec.configurationError))
  /\ (JsString.mem "else" (map fst obj) = true ->
      forall req,
        match MessageContext.accepts toNumber engineOrder req (AcceptingSpec.nonElseKeys obj) with
        | Throw m => MessageContext.accepting toNumber engineOrder cb req obj w = (w, Throw m)
        | Normal (Some t) =>
            In t (AcceptingSpec.nonElseKeys obj) /\
            exists h, MessageContext.assoc t obj = Some h /\
                      MessageContext.accepting toNumber engineOrder cb req obj w = userHandler cb h req w
        | Normal None =>
            exists h, MessageContext.assoc "else" obj = Some h /\
                      MessageContext.accepting toNumber engineOrder cb req obj w = userHandler cb h req w
        end)
  /\ (forall req, MessageContext.accepts toNumber engineOrder req [] = Normal None).
Proof.
  intros Hnd. split; [|split].
  - intros Hm req. unfold MessageContext.accepting. rewrite Hm. reflexivity.
  - intros Hm req. unfold MessageContext.accepting. rewrite Hm. cbn [negb].
    rewrite (removeFirst_filter _ Hnd).
    change (List.filter (fun k => negb (String.eqb k "else")) (map fst obj))
      with (AcceptingSpec.nonElseKeys obj).
    destruct (assoc_In "else" obj (proj1 (mem_In _ _) Hm)) as [he Hhe]. rewrite Hhe.
    destruct (AcceptingSpec.nonElseKeys obj) as [|k ks] eqn:Ek.
    + cbn. eauto.
    + destruct (MessageContext.accepts toNumber engineOrder req (k :: ks)) as [[t|]|m] eqn:Ea.
      * pose proof (accepts_In toNumber engineOrder _ _ _ Ea) as Hin. split; [exact Hin|].
        assert (Hin' : In t (map fst obj)).
        { rewrite <- Ek in Hin. unfold AcceptingSpec.nonElseKeys in Hin.
          apply filter_In in Hin. tauto. }
        destruct (assoc_In t obj Hin') as [h Hh]. exists h. rewrite Hh. auto.
      * eauto.
      * reflexivity.
  - reflexivity.
Qed.

Lemma accepting_requires_else_then_negotiates_witness :
  (forall req, MessageContext.accepting Decimal.toNumber MessageContext.unsorted Negotiation.callbacks req
                 [("html", 0); ("json", 1)] ThreeListeners.emptyWorld
               = (ThreeListeners.emptyWorld, Throw AcceptingSpec.configurationError))
  /\ (forall req,
        match MessageContext.accepts Decimal.toNumber MessageContext.unsorted req
                (AcceptingSpec.nonElseKeys [("html", 0); ("else", 2); ("json", 1)]) with
        | Throw m =>
            MessageContext.accepting Decimal.toNumber MessageContext.unsorted Negotiation.callbacks req
              [("html", 0); ("else", 2); ("json", 1)] ThreeListeners.emptyWorld
            = (ThreeListeners.emptyWorld, Throw m)
        | Normal (Some t) =>
            In t (AcceptingSpec.nonElseKeys [("html", 0); ("else", 2); ("json", 1)]) /\
            exists h, MessageContext.assoc t [("html", 0); ("else", 2); ("json", 1)] = Some h /\
                      MessageContext.accepting Decimal.toNumber MessageContext.unsorted Negotiation.callbacks req
                        [("html", 0); ("else", 2); ("json", 1)] ThreeListeners.emptyWorld
                      = userHandler Negotiation.callbacks h req ThreeListeners.emptyWorld
        | Normal None =>
            exists h, MessageContext.assoc "else" [("html", 0); ("else", 2); ("json", 1)] = Some h /\
                      MessageContext.accepting Decimal.toNumber MessageContext.unsorted Negotiation.callbacks req
                        [("html", 0); ("else", 2); ("json", 1)] ThreeListeners.emptyWorld
                      = userHandler Negotiation.callbacks h req ThreeListeners.emptyWorld
        end).
Proof.
  split.
  - apply (accepting_requires_else_then_negotiates Decimal.toNumber MessageContext.unsorted Negotiation.callbacks
             [("html", 0); ("json", 1)] ThreeListeners.emptyWorld).
    + cbn. repeat (constructor; [cbn; intuition discriminate|]). constructor.
    + vm_compute. reflexivity.
  - apply (accepting_requires_else_then_negotiates Decimal.toNumber MessageContext.unsorted Negotiation.callbacks
             [("html", 0); ("else", 2); ("json", 1)] ThreeListeners.emptyWorld).
    + cbn. repeat (constructor; [cbn; intuition discriminate|]). constructor.
    + vm_compute. reflexivity.
Defined.

Section AcceptsWalk.

Import MessageContext AcceptsSpec.

Lemma resolveTypes_expand (types : list string) :
  Forall (fun t => JsString.mem t objectPrototypeKeys = false) types ->
  resolveTypes types = Normal (map (fun t => (typePair (expand t), t)) types).
Proof.
  induction 1 as [|t r Ht Hr IH]; [reflexivity|].
  cbn [resolveTypes map]. rewrite IH. unfold resolveType, expand.
  destruct (assoc t mimeTypeShorthands); [reflexivity|]. rewrite Ht. reflexivity.
Qed.

Lemma scanTypes_find (m : string) (types : list string) :
  (let '(f, s) := typePair m in
   scanTypes f s (map (fun t => (typePair (expand t), t)) types))
  = find (matchesEntry m) types.
Proof.
  unfold matchesEntry. destruct (typePair m) as [f s].
  induction types as [|t r IH]; [reflexivity|].
  cbn [map scanTypes find]. destruct (typePair (expand t)) as [tf ts].
  destruct (String.eqb f tf); cbn [negb andb]; [|exact IH].
  destruct (eqb_opt s (Some "*")); cbn [orb]; [reflexivity|].
  destruct (eqb_opt s ts); [reflexivity|exact IH].
Qed.

Lemma find_matches_exists (m : string) (types : list string) :
  find (matchesEntry m) types = None <-> existsb (matchesEntry m) types = false.
Proof.
  induction types as [|t r IH]; cbn; [tauto|].
  destruct (matchesEntry m t); cbn; [split; discriminate|exact IH].
Qed.

Lemma walk_answer (first : string) (rest : list string) (entries : list acceptEntry) :
  Forall (fun e => exists m, mimeOf e = Some m) entries ->
  walk first (map (fun t => (typePair (expand t), t)) (first :: rest)) entries
  = Normal (answer (omap mimeOf entries) (first :: rest)).
Proof.
  unfold answer. cbv iota. remember (first :: rest) as types eqn:Et. clear Et.
  induction 1 as [|e r [m Hm] Hr IH]; [reflexivity|].
  cbn [walk omap list_omap]. rewrite Hm. cbn [find].
  unfold mimeOf in Hm. destruct (mimeType e) as [|m'|]; try discriminate.
  injection Hm as ->. unfold decides at 1.
  destruct (String.eqb m "*/*") eqn:Ew; cbn [orb]; [rewrite Ew; reflexivity|].
  pose proof (scanTypes_find m types) as Hs.
  destruct (typePair m) as [f s]. rewrite Hs.
  destruct (find (matchesEntry m) types) as [v|] eqn:Ef.
  - assert (He : existsb (matchesEntry m) types = true).
    { destruct (existsb (matchesEntry m) types) eqn:E; [reflexivity|].
      apply find_matches_exists in E. congruence. }
    rewrite He, Ew, Ef. reflexivity.
  - apply find_matches_exists in Ef. rewrite Ef. exact IH.
Qed.

End AcceptsWalk.

Section AcceptsSort.

Import MessageContext AcceptsSpec.
Variable toNumber : string -> num.

Abbreviation finite := (fun e => exists x, qualityOf toNumber e = Some x).

Lemma before_finite (a b : acceptEntry) (x y : Q) :
  qualityOf toNumber a = Some x -> qualityOf toNumber b = Some y ->
  (before toNumber a b = true <-> (y < x)%Q).
Proof.
  unfold qualityOf, before. intros Ha Hb.
  destruct (numberOf toNumber (q a)) as [|x'| |]; try discriminate.
  destruct (numberOf toNumber (q b)) as [|y'| |]; try discriminate.
  injection Ha as ->. injection Hb as ->. cbn [JsNum.sub JsNum.negative].
  destruct (Qcompare (y - x) 0) eqn:E.
  - apply Qeq_alt in E. split; [discriminate|]. intros H. lra.
  - apply Qlt_alt in E. split; [intros _; lra|reflexivity].
  - apply Qgt_alt in E. split; [discriminate|]. intros H. lra.
Qed.

Lemma insert_perm (x : acceptEntry) (l : list acceptEntry) :
  Permutation (x :: l) (insert toNumber x l).
Proof.
  induction l as [|y r IH]; cbn [insert]; [reflexivity|].
  destruct (before toNumber y x); [|reflexivity].
  rewrite perm_swap. apply perm_skip. exact IH.
Qed.

Lemma sort_perm (l : list acceptEntry) : Permutation l (stableSort toNumber l).
Proof.
  induction l as [|x r IH]; cbn; [reflexivity|].
  rewrite <- insert_perm. apply perm_skip. exact IH.
Qed.

Lemma insert_sorted (x : acceptEntry) (l : list acceptEntry) :
  finite x -> Forall finite l ->
  StronglySorted (qualityGe toNumber) l ->
  StronglySorted (qualityGe toNumber) (insert toNumber x l).
Proof.
  intros [qx Hx] Hf Hs. induction Hs as [|y r Hr IH Hy]; cbn [insert].
  - repeat constructor.
  - apply Forall_cons_iff in Hf as [[qy Hqy] Hf].
    destruct (before toNumber y x) eqn:E.
    + apply (before_finite _ _ _ _ Hqy Hx) in E.
      constructor; [apply IH; exact Hf|].
      eapply Permutation_Forall; [apply insert_perm|].
      constructor; [|exact Hy]. exists qy, qx. repeat split; try assumption. lra.
    + assert (Hle : (qy <= qx)%Q).
      { destruct (Qlt_le_dec qx qy) as [Hlt|Hle]; [|exact Hle].
        apply (before_finite _ _ _ _ Hqy Hx) in Hlt. congruence. }
      constructor; [constructor; assumption|].
      constructor; [exists qx, qy; auto|].
      eapply Forall_impl; [exact Hy|]. cbn. intros z (a & b & Ha & Hb & Hab).
      exists qx, b. repeat split; try assumption.
      rewrite Hqy in Ha. injection Ha as <-. lra.
Qed.

Lemma sort_sorted (l : list acceptEntry) :
  Forall finite l -> StronglySorted (qualityGe toNumber) (stableSort toNumber l).
Proof.
  induction 1 as [|x r Hx Hr IH]; cbn; [constructor|].
  apply insert_sorted; [exact Hx| |exact IH].
  eapply Permutation_Forall; [apply sort_perm|exact Hr].
Qed.

Lemma insert_filter (c : Q) (x : acceptEntry) (l : list acceptEntry) :
  finite x -> Forall finite l ->
  List.filter (hasQuality toNumber c) (insert toNumber x l)
  = List.filter (hasQuality toNumber c) (x :: l).
Proof.
  intros [qx Hx] Hf. induction Hf as [|y r [qy Hqy] Hr IH]; [reflexivity|].
  cbn [insert]. destruct (before toNumber y x) eqn:E; [|reflexivity].
  apply (before_finite _ _ _ _ Hqy Hx) in E.
  cbn [List.filter] in *. rewrite IH.
  unfold hasQuality. rewrite Hx, Hqy.
  destruct (Qeq_bool qx c) eqn:E1; [|reflexivity].
  destruct (Qeq_bool qy c) eqn:E2; [|reflexivity].
  apply Qeq_bool_iff in E1, E2. lra.
Qed.

Lemma sort_stable (c : Q) (l : list acceptEntry) :
  Forall finite l ->
  List.filter (hasQuality toNumber c) (stableSort toNumber l)
  = List.filter (hasQuality toNumber c) l.
Proof.
  induction 1 as [|x r Hx Hr IH]; [reflexivity|].
  cbn [stableSort fold_right].
  change (fold_right (insert toNumber) [] r) with (stableSort toNumber r).
  rewrite insert_filter; [|exact Hx|eapply Permutation_Forall; [apply sort_perm|exact Hr]].
  cbn [List.filter]. rewrite IH. reflexivity.
Qed.

Lemma finite_finiteQuality (l : list acceptEntry) :
  Forall finite l -> forallb (finiteQuality toNumber) l = true.
Proof.
  induction 1 as [|e r [x He] _ IH]; [reflexivity|]. cbn [forallb]. rewrite IH.
  unfold qualityOf in He. unfold finiteQuality.
  destruct (numberOf toNumber (q e)); try discriminate. reflexivity.
Qed.

(** With finite qualities the comparator is consistent and the engine
    sorts stably. *)
Lemma sort_finite (engineOrder : list acceptEntry -> list acceptEntry)
      (l : list acceptEntry) :
  Forall finite l -> sort toNumber engineOrder l = stableSort toNumber l.
Proof.
  intros H. unfold sort. rewrite (finite_finiteQuality l H).
  destruct l as [|x [|y r]]; reflexivity.
Qed.

End AcceptsSort.

Lemma wellFormedb_Forall (toNumber : string -> num) (l : list MessageContext.acceptEntry) :
  forallb (AcceptsSpec.wellFormedb toNumber) l = true ->
  Forall (AcceptsSpec.wellFormed toNumber) l.
Proof.
  induction l as [|e r IH]; cbn [forallb]; intros H; [constructor|].
  apply andb_prop in H as [He Hr]. constructor; [|exact (IH Hr)].
  unfold AcceptsSpec.wellFormedb in He. unfold AcceptsSpec.wellFormed.
  destruct (AcceptsSpec.mimeOf e); [|discriminate].
  destruct (AcceptsSpec.qualityOf toNumber e); [|discriminate].
  split; eexists; reflexivity.
Qed.

(** C3. The code breaks the claim: [calc] spreads every parameter of a
    header element over its entry, so a parameter named [mimeType]
    replaces the mime type by a number, on which [accepts] calls
    [split]. Under the accept header [text/plain] no entry matches
    [json] or [html] and [accepts('json', 'html')] returns [false];
    under [text/plain;mimeType=1] no entry matches them either, yet
    [accepts] does not return [false]: it throws a TypeError. *)
Lemma accepts_throws_on_mimeType_parameter :
  Negotiation.acceptsJsonHtml "text/plain" = Normal None
  /\ MessageContext.parseEntry Decimal.toNumber "text/plain;mimeType=1"
     = {| MessageContext.mimeType := VNumber (Fin 1);
          MessageContext.q := VNumber (Fin 1) |}
  /\ Negotiation.acceptsJsonHtml "text/plain;mimeType=1" = Throw "TypeError"
  /\ Negotiation.acceptsJsonHtml "text/plain;mimeType=1" <> Normal None.
Proof.
  split; [vm_compute; reflexivity|]. split; [vm_compute; reflexivity|].
  split; [vm_compute; reflexivity|vm_compute; discriminate].
Qed.

(** What [accepts] does on the headers the type assertion of [calc]
    describes. When every entry parsed from the accept header has a
    textual mime type and a finite numeric quality (no parameter
    overwrote the mime type, every [q] is a number) and the candidates
    are mime type strings, the entries [accepts] walks are the parsed
    ones (quality 1 when the element has no parameter) sorted by
    descending quality, entries of equal quality in header order; and
    [accepts] returns the first candidate for the first deciding entry
    when that is [*/*], and otherwise the first candidate, in argument
    order and after shorthand expansion, whose major type equals the
    entry's and whose subtype equals the entry's unless the entry's is
    [*]; it returns [false] when no entry decides or no candidate was
    given. For [accepts('json', 'html')] the answer is [json] under
    [text/html;q=0.8, application/json;q=0.9] and under [*/*], and
    [false] under [text/plain]. *)
Theorem accepts_walks_sorted_entries
        (toNumber : string -> num)
        (engineOrder : list MessageContext.acceptEntry -> list MessageContext.acceptEntry) (req : Request) (types : list string) :
  Forall (AcceptsSpec.wellFormed toNumber) (AcceptsSpec.parsed toNumber req) ->
  Forall (fun t => JsString.mem t MessageContext.objectPrototypeKeys = false) types ->
  let entries := MessageContext.calc toNumber engineOrder req in
  Permutation (AcceptsSpec.parsed toNumber req) entries
  /\ StronglySorted (AcceptsSpec.qualityGe toNumber) entries
  /\ (forall c, List.filter (AcceptsSpec.hasQuality toNumber c) entries
                = List.filter (AcceptsSpec.hasQuality toNumber c)
                    (AcceptsSpec.parsed toNumber req))
  /\ (forall it m, JsString.split ";" it = [m] ->
        MessageContext.parseEntry toNumber it
        = {| MessageContext.mimeType := VString (JsString.trim m);
             MessageContext.q := VNumber (Fin 1) |})
  /\ MessageContext.accepts toNumber engineOrder req types
     = Normal (AcceptsSpec.answer (omap AcceptsSpec.mimeOf entries) types)
  /\ MessageContext.accepts toNumber engineOrder req [] = Normal None
  /\ Negotiation.acceptsJsonHtml "text/html;q=0.8, application/json;q=0.9"
     = Normal (Some "json")
  /\ Negotiation.acceptsJsonHtml "*/*" = Normal (Some "json")
  /\ Negotiation.acceptsJsonHtml "text/plain" = Normal None.
Proof.
  intros Hwf Hty entries.
  assert (Hfin : Forall (fun e => exists x, AcceptsSpec.qualityOf toNumber e = Some x)
                        (AcceptsSpec.parsed toNumber req)).
  { eapply Forall_impl; [exact Hwf|]. intros e [_ H]. exact H. }
  assert (Hcalc : entries
                  = MessageContext.stableSort toNumber (AcceptsSpec.parsed toNumber req)).
  { unfold entries, MessageContext.calc. apply (sort_finite toNumber engineOrder).
    exact Hfin. }
  assert (Hperm : Permutation (AcceptsSpec.parsed toNumber req) entries)
    by (rewrite Hcalc; apply sort_perm).
  split; [exact Hperm|].
  split; [rewrite Hcalc; apply sort_sorted; exact Hfin|].
  split; [intros c; rewrite Hcalc; apply sort_stable; exact Hfin|].
  split; [intros it m H; unfold MessageContext.parseEntry; rewrite H; reflexivity|].
  split.
  - unfold MessageContext.accepts. destruct types as [|first rest]; [reflexivity|].
    rewrite (resolveTypes_expand _ Hty). cbn [cbind].
    apply walk_answer. eapply Permutation_Forall; [exact Hperm|].
    eapply Forall_impl; [exact Hwf|]. intros e [H _]. exact H.
  - repeat split; vm_compute; reflexivity.
Qed.

Lemma accepts_walks_sorted_entries_witness :
  let toNumber := Decimal.toNumber in
  let engineOrder := MessageContext.unsorted in
  let req := Negotiation.withAccept "text/html;q=0.8, application/json;q=0.9, text/*;q=0.8" in
  let types := ["json"; "html"] in
  let entries := MessageContext.calc toNumber engineOrder req in
  Permutation (AcceptsSpec.parsed toNumber req) entries
  /\ StronglySorted (AcceptsSpec.qualityGe toNumber) entries
  /\ (forall c, List.filter (AcceptsSpec.hasQuality toNumber c) entries
                = List.filter (AcceptsSpec.hasQuality toNumber c)
                    (AcceptsSpec.parsed toNumber req))
  /\ (forall it m, JsString.split ";" it = [m] ->
        MessageContext.parseEntry toNumber it
        = {| MessageContext.mimeType := VString (JsString.trim m);
             MessageContext.q := VNumber (Fin 1) |})
  /\ MessageContext.accepts toNumber engineOrder req types
     = Normal (AcceptsSpec.answer (omap AcceptsSpec.mimeOf entries) types)
  /\ MessageContext.accepts toNumber engineOrder req [] = Normal None
  /\ Negotiation.acceptsJsonHtml "text/html;q=0.8, application/json;q=0.9"
     = Normal (Some "json")
  /\ Negotiation.acceptsJsonHtml "*/*" = Normal (Some "json")
  /\ Negotiation.acceptsJsonHtml "text/plain" = Normal None.
Proof.
  apply (accepts_walks_sorted_entries Decimal.toNumber MessageContext.unsorted
           (Negotiation.withAccept "text/html;q=0.8, application/json;q=0.9, text/*;q=0.8")
           ["json"; "html"]).
  - apply wellFormedb_Forall. vm_compute. reflexivity.
  - repeat (constructor; [vm_compute; reflexivity|]). constructor.
Defined.

(** ** Strings, segments and suffixes *)

Section StringFacts.

Import JsString.
Local Open Scope string_scope.

Lemma split_nonempty (c : ascii) (s : string) : split c s <> [].
Proof.
  destruct s as [|a r]; cbn; [discriminate|].
  destruct (Ascii.eqb a c); [discriminate|]. destruct (split c r); discriminate.
Qed.

Lemma concat_cons (sep x : string) (xs : list string) :
  xs <> [] -> String.concat sep (x :: xs) = x ++ sep ++ String.concat sep xs.
Proof. destruct xs; [congruence|reflexivity]. Qed.

Lemma join_split (c : ascii) (s : string) :
  join (String c EmptyString) (split c s) = s.
Proof.
  unfold join. induction s as [|a r IH]; [reflexivity|].
  cbn [split]. destruct (Ascii.eqb a c) eqn:E.
  - apply Ascii.eqb_eq in E. subst a.
    rewrite concat_cons by apply split_nonempty. rewrite IH. reflexivity.
  - pose proof (split_nonempty c r) as Hne.
    destruct (split c r) as [|x xs]; [congruence|].
    destruct xs as [|y ys].
    + cbn in *. congruence.
    + rewrite concat_cons by discriminate. rewrite concat_cons in IH by discriminate.
      rewrite <- IH. reflexivity.
Qed.

(** No segment of a split contains the separator. *)
Lemma split_free (c : ascii) (s : string) :
  Forall (fun r => forallb (fun a => negb (Ascii.eqb a c)) (list_ascii_of_string r) = true)
         (split c s).
Proof.
  induction s as [|a r IH]; cbn [split].
  - repeat constructor.
  - destruct (Ascii.eqb a c) eqn:E.
    + constructor; [reflexivity|exact IH].
    + destruct (split c r) as [|x xs]; [repeat constructor; cbn; rewrite E; reflexivity|].
      apply Forall_cons_iff in IH as [Hx Hxs]. constructor; [|exact Hxs].
      cbn. rewrite E. exact Hx.
Qed.

Lemma append_cons (x : ascii) (a b : string) : String x a ++ b = String x (a ++ b).
Proof. reflexivity. Qed.

Lemma append_nil_l (b : string) : "" ++ b = b.
Proof. reflexivity. Qed.

Lemma append_assoc (a b c : string) : (a ++ b) ++ c = a ++ b ++ c.
Proof.
  induction a as [|x a IH]; [reflexivity|].
  rewrite !append_cons. f_equal. exact IH.
Qed.

Lemma append_nil_r (a : string) : a ++ "" = a.
Proof.
  induction a as [|x a IH]; [reflexivity|]. rewrite append_cons. f_equal. exact IH.
Qed.

Lemma chars_app (a b : string) :
  list_ascii_of_string (a ++ b) = (list_ascii_of_string a ++ list_ascii_of_string b)%list.
Proof.
  induction a as [|x a IH]; [reflexivity|].
  rewrite append_cons. cbn [list_ascii_of_string app]. f_equal. exact IH.
Qed.

Lemma append_last_inj (t u : string) (a b : ascii) :
  t ++ String a "" = u ++ String b "" -> t = u /\ a = b.
Proof.
  revert u. induction t as [|y t IH]; intros [|z u]; rewrite ?append_cons, ?append_nil_l.
  - intros [= ->]. auto.
  - intros [= -> H]. destruct u; discriminate.
  - intros [= -> H]. destruct t; discriminate.
  - intros [= -> H]. apply IH in H as [-> ->]. auto.
Qed.

(** A string that ends in a character other than the last character of
    [suf] does not end with [suf]. *)
Lemma endsWith_last_differs (s suf : string) (a b : ascii) :
  a <> b -> endsWith (s ++ String a "") (suf ++ String b "") = false.
Proof.
  intros Hab. induction s as [|x s IH].
  - rewrite append_nil_l. cbn [endsWith].
    assert (E : String.eqb (String a "") (suf ++ String b "") = false).
    { apply String.eqb_neq. intros H.
      apply (append_last_inj "" suf) in H as [_ H]. contradiction. }
    rewrite E. cbn [orb].
    assert (E2 : String.eqb "" (suf ++ String b "") = false).
    { apply String.eqb_neq. destruct suf; discriminate. }
    rewrite E2. reflexivity.
  - rewrite append_cons. cbn [endsWith]. rewrite IH, Bool.orb_false_r.
    apply String.eqb_neq. intros H. rewrite <- append_cons in H.
    apply append_last_inj in H as [_ H]. contradiction.
Qed.

Lemma endsWith_one_differs (s : string) (a b : ascii) :
  a <> b -> endsWith (s ++ String a "") (String b "") = false.
Proof. intros H. exact (endsWith_last_differs s "" a b H). Qed.

Lemma endsWith_two_differs (s : string) (a x b : ascii) :
  a <> b -> endsWith (s ++ String a "") (String x (String b "")) = false.
Proof. intros H. exact (endsWith_last_differs s (String x "") a b H). Qed.

Lemma endsWith_app (s suf : string) : endsWith (s ++ suf) suf = true.
Proof.
  induction s as [|x s IH].
  - rewrite append_nil_l. destruct suf; cbn [endsWith]; rewrite String.eqb_refl; reflexivity.
  - rewrite append_cons. cbn [endsWith]. rewrite IH. apply Bool.orb_true_r.
Qed.

Lemma removeLast_app (s : string) (a : ascii) : removeLast (s ++ String a "") = s.
Proof.
  induction s as [|x s IH]; [reflexivity|].
  rewrite append_cons. cbn [removeLast]. rewrite IH.
  destruct s; reflexivity.
Qed.

End StringFacts.

(** ** The source text of the pattern of a plain path *)

Section SourceFacts.

Import JsString RouterContext PathSpec.
Local Open Scope string_scope.

Lemma regExpSource_finish (prefix p : string) :
  regExpSource prefix p
  = "^" ++ finish (join "/" (map paramCutout (segments prefix p))).
Proof. reflexivity. Qed.

Lemma finish_plain (s : string) : endsPlain s -> finish s = s ++ "$".
Proof.
  intros (t & c & -> & H1 & H2). unfold finish, optionalTrailingSlash.
  rewrite (endsWith_one_differs t c "/" H1).
  rewrite (endsWith_two_differs t c "/" "*" H2). reflexivity.
Qed.

Lemma finish_slash (t : string) : finish (t ++ "/") = t ++ "/?$".
Proof.
  unfold finish, optionalTrailingSlash. rewrite endsWith_app.
  cbn [dropEnd]. rewrite removeLast_app.
  change (t ++ "/?") with (t ++ "/" ++ String "?" ""). rewrite <- append_assoc.
  rewrite (endsWith_two_differs (t ++ "/") "?" "/" "*") by discriminate.
  rewrite !append_assoc. reflexivity.
Qed.

Lemma finish_star (t : string) : finish (t ++ "/*") = t ++ "/.*".
Proof.
  unfold finish, optionalTrailingSlash.
  change (t ++ "/*") with (t ++ "/" ++ String "*" ""). rewrite <- append_assoc.
  rewrite (endsWith_one_differs (t ++ "/") "*" "/") by discriminate.
  rewrite append_assoc. change ("/" ++ String "*" "") with "/*".
  rewrite endsWith_app. cbn [dropEnd].
  change (t ++ "/*") with (t ++ "/" ++ String "*" ""). rewrite <- append_assoc.
  rewrite removeLast_app, removeLast_app. reflexivity.
Qed.

Lemma endsPlain_app (pre s : string) : endsPlain s -> endsPlain (pre ++ s).
Proof.
  intros (t & c & -> & H). exists (pre ++ t), c. rewrite append_assoc. auto.
Qed.

Lemma string_last (s : string) :
  s <> "" -> exists t c, s = t ++ String c "" /\ In c (chars s).
Proof.
  induction s as [|a s IH]; [congruence|]. intros _.
  destruct s as [|b s].
  - exists "", a. split; [reflexivity|]. left. reflexivity.
  - destruct IH as (t & c & E & Hin); [discriminate|].
    exists (String a t), c. rewrite append_cons, <- E. split; [reflexivity|].
    right. exact Hin.
Qed.

(** The cut-out of a plain segment that is not empty ends in a character
    that is neither [/] nor [*]. *)
Lemma paramCutout_endsPlain (p : string) :
  plainSeg p = true -> p <> "" -> endsPlain (paramCutout p).
Proof.
  unfold plainSeg, paramCutout, isParam. destruct (startsWith p ":").
  - intros _ _. exists ("(?<" ++ slice1 p ++ ">[^/]+"), ")"%char.
    rewrite !append_assoc. repeat split; discriminate.
  - intros H Hne. destruct (string_last p Hne) as (t & c & E & Hin).
    exists t, c. split; [exact E|].
    rewrite forallb_forall in H. specialize (H c Hin). unfold ordinary in H.
    apply andb_prop in H as [H1 H2].
    split; intros ->; [discriminate H2|discriminate H1].
Qed.

Lemma join_cons (x : string) (xs : list string) :
  xs <> [] -> join "/" (x :: xs) = x ++ "/" ++ join "/" xs.
Proof. apply concat_cons. Qed.

Lemma finish_segments (segs : list string) :
  forall pre,
    plainSegs segs = true ->
    match segs with [p] => p <> "" | [] => False | _ => True end ->
    finish (pre ++ join "/" (map paramCutout segs)) = pre ++ sourceOf segs.
Proof.
  induction segs as [|p ps IH]; intros pre Hpl Hne; [contradiction|].
  destruct ps as [|l [|m r]].
  - cbn [map]. unfold join. cbn [String.concat sourceOf].
    rewrite finish_plain, append_assoc; [reflexivity|].
    apply endsPlain_app, paramCutout_endsPlain; [exact Hpl|exact Hne].
  - cbn [plainSegs] in Hpl. apply andb_prop in Hpl as [Hp Hl].
    cbn [map sourceOf]. rewrite join_cons by discriminate.
    unfold join at 1. cbn [String.concat].
    destruct (String.eqb l "") eqn:E1.
    + apply String.eqb_eq in E1. subst l.
      change (paramCutout "") with "". rewrite append_nil_r.
      rewrite <- append_assoc, finish_slash, append_assoc. reflexivity.
    + destruct (String.eqb l "*") eqn:E2.
      * apply String.eqb_eq in E2. subst l.
        change (paramCutout "*") with "*".
        change ("/" ++ "*") with "/*".
        rewrite <- append_assoc, finish_star, append_assoc. reflexivity.
      * rewrite Bool.orb_false_r in Hl.
        specialize (IH (pre ++ paramCutout p ++ "/")).
        cbn [map] in IH. unfold join in IH. cbn [String.concat sourceOf] in IH.
        rewrite !append_assoc in IH. rewrite IH; [reflexivity|exact Hl|].
        apply String.eqb_neq. exact E1.
  - assert (Hpl' : plainSeg p = true /\ plainSegs (l :: m :: r) = true).
    { cbn [plainSegs] in Hpl |- *. apply andb_prop in Hpl. exact Hpl. }
    destruct Hpl' as [Hp Hrest].
    change (map paramCutout (p :: l :: m :: r))
      with (paramCutout p :: map paramCutout (l :: m :: r)).
    rewrite join_cons by discriminate.
    specialize (IH (pre ++ paramCutout p ++ "/") Hrest I).
    rewrite !append_assoc in IH. rewrite IH. reflexivity.
Qed.

End SourceFacts.

(** ** Reading the source text of a plain path *)

Section ParseFacts.

Import JsString RegExp PathSpec.
Local Open Scope string_scope.

Ltac by_cases_on_ascii a :=
  destruct a as [[] [] [] [] [] [] [] []]; try discriminate; reflexivity.

Lemma special_false_tests (a : ascii) :
  special a = false ->
  Ascii.eqb a "$" = false /\ Ascii.eqb a "*" = false /\ Ascii.eqb a "+" = false /\
  Ascii.eqb a "?" = false /\ Ascii.eqb a "." = false /\ Ascii.eqb a "(" = false /\
  leaves_fragment a = false.
Proof.
  intros H. repeat split; revert H; by_cases_on_ascii a.
Qed.

Lemma id_start_tests (a : ascii) :
  id_start a = true ->
  (Ascii.eqb a "=" || Ascii.eqb a "!" || id_undecided a)%bool = false /\
  id_continue a = true.
Proof. intros H. split; revert H; by_cases_on_ascii a. Qed.

Lemma id_continue_not_gt (a : ascii) :
  id_continue a = true -> Ascii.eqb a ">" = false.
Proof. by_cases_on_ascii a. Qed.

(** An ordinary character, and the slash, stand for themselves. *)
Lemma parse_ordinary (a : ascii) (r : string) (acc : list item) :
  special a = false ->
  parse_body (String a r) 0 acc = parse_body r 0 (lit a :: acc).
Proof.
  intros H. destruct (special_false_tests a H) as (H1 & H2 & H3 & H4 & H5 & H6 & H7).
  cbn [parse_body]. rewrite H1, H2, H3, H4, H5, H6, H7. reflexivity.
Qed.

Lemma parse_literal (s rest : string) (acc : list item) :
  forallb ordinary (chars s) = true ->
  parse_body (s ++ rest) 0 acc = parse_body rest 0 (rev (map lit (chars s)) ++ acc)%list.
Proof.
  revert acc. induction s as [|a s IH]; intros acc H; [reflexivity|].
  cbn [chars list_ascii_of_string forallb] in H. apply andb_prop in H as [Ha Hs].
  rewrite append_cons, parse_ordinary.
  - rewrite (IH _ Hs). cbn [chars list_ascii_of_string map rev].
    rewrite <- app_assoc. reflexivity.
  - unfold ordinary in Ha. apply andb_prop in Ha as [Ha _].
    destruct (special a); [discriminate|reflexivity].
Qed.

Lemma parse_skip (s rest : string) (acc : list item) :
  parse_body (s ++ rest) (String.length s) acc = parse_body rest 0 acc.
Proof.
  induction s as [|a s IH]; [destruct rest; reflexivity|].
  rewrite append_cons. cbn [String.length parse_body]. exact IH.
Qed.

Lemma read_name_valid (n x : string) :
  forallb id_continue (chars n) = true ->
  read_name (n ++ String ">" x) = (n, String ">" x).
Proof.
  induction n as [|a n IH]; intros H; [reflexivity|].
  cbn [chars list_ascii_of_string forallb] in H. apply andb_prop in H as [Ha Hn].
  rewrite append_cons. cbn [read_name]. rewrite Ha, (IH Hn). reflexivity.
Qed.

Lemma read_group_valid (n x : string) :
  validName n = true -> read_group (n ++ String ">" x) = GroupNamed n x.
Proof.
  destruct n as [|a n]; [discriminate|]. intros H.
  cbn [validName] in H. apply andb_prop in H as [Ha Hn].
  destruct (id_start_tests a Ha) as [H1 H2].
  unfold read_group. rewrite append_cons. rewrite H1, Ha. cbn [negb].
  rewrite <- append_cons, read_name_valid.
  - reflexivity.
  - cbn [chars list_ascii_of_string forallb]. rewrite H2. exact Hn.
Qed.

Lemma length_append (a b : string) :
  String.length (a ++ b) = (String.length a + String.length b)%nat.
Proof.
  induction a as [|x a IH]; [reflexivity|].
  rewrite append_cons. cbn [String.length]. rewrite IH. reflexivity.
Qed.

Lemma startsWith_app (p rest : string) : startsWith (p ++ rest) p = true.
Proof.
  unfold startsWith. induction p as [|a p IH]; [destruct rest; reflexivity|].
  rewrite append_cons. cbn [String.prefix].
  destruct (ascii_dec a a) as [_|H]; [exact IH|congruence].
Qed.

Lemma parse_open (r : string) (acc : list item) :
  startsWith r "?<" = true ->
  parse_body (String "(" r) 0 acc
  = match read_group (slice1 (slice1 r)) with
    | GroupNamed n rest =>
        if negb (startsWith rest "[^/]+)") then OutsideFragment
        else if has_group n acc then SyntaxError
        else parse_body r (String.length n + 9) (Item CNotSlash QPlus (Some n) :: acc)
    | GroupSyntaxError => SyntaxError
    | GroupOutside => OutsideFragment
    end.
Proof. intros H. cbn [parse_body]. cbn [Ascii.eqb Bool.eqb andb]. rewrite H. reflexivity. Qed.

(** A named group with a well-formed, fresh name is read as one item. *)
Lemma parse_group (n rest : string) (acc : list item) :
  validName n = true -> has_group n acc = false ->
  parse_body ("(?<" ++ n ++ ">[^/]+)" ++ rest) 0 acc
  = parse_body rest 0 (Item CNotSlash QPlus (Some n) :: acc).
Proof.
  intros Hn Hacc.
  change ("(?<" ++ n ++ ">[^/]+)" ++ rest)
    with (String "(" ("?<" ++ (n ++ String ">" ("[^/]+)" ++ rest)))).
  rewrite parse_open by apply startsWith_app.
  change (slice1 (slice1 ("?<" ++ (n ++ String ">" ("[^/]+)" ++ rest)))))
    with (n ++ String ">" ("[^/]+)" ++ rest)).
  rewrite (read_group_valid n _ Hn), startsWith_app, Hacc. cbn [negb].
  change (n ++ String ">" ("[^/]+)" ++ rest)) with (n ++ (">[^/]+)" ++ rest)).
  rewrite <- (append_assoc n ">[^/]+)" rest), <- append_assoc.
  replace (String.length n + 9)%nat with (String.length ("?<" ++ n ++ ">[^/]+)")).
  - apply parse_skip.
  - rewrite !length_append. cbn. lia.
Qed.

End ParseFacts.

Section CompileFacts.

Import JsString RegExp RouterContext PathSpec.
Local Open Scope string_scope.

Lemma has_group_lits (n : string) (cs : list ascii) (acc : list item) :
  has_group n (rev (map lit cs) ++ acc)%list = has_group n acc.
Proof.
  unfold has_group. rewrite existsb_app.
  replace (existsb _ (rev (map lit cs))) with false; [reflexivity|].
  symmetry. apply Bool.not_true_is_false. intros H.
  apply existsb_exists in H as (it & Hin & Hg).
  apply in_rev, in_map_iff in Hin as (c & <- & _). discriminate.
Qed.

Lemma has_group_segItems (n p : string) (acc : list item) :
  has_group n (rev (segItems p) ++ acc)%list
  = ((isParam p && String.eqb (slice1 p) n) || has_group n acc)%bool.
Proof.
  unfold segItems. destruct (isParam p).
  - reflexivity.
  - apply has_group_lits.
Qed.

Lemma parse_segment (p rest : string) (acc : list item) :
  plainSeg p = true ->
  (isParam p = true -> has_group (slice1 p) acc = false) ->
  parse_body (paramCutout p ++ rest) 0 acc
  = parse_body rest 0 (rev (segItems p) ++ acc)%list.
Proof.
  unfold plainSeg, paramCutout, segItems, isParam.
  destruct (startsWith p ":"); intros Hp Hf.
  - rewrite !append_assoc. rewrite parse_group; [reflexivity|exact Hp|auto].
  - apply parse_literal. exact Hp.
Qed.

Lemma parse_segment_slash (p rest : string) (acc : list item) :
  plainSeg p = true ->
  (isParam p = true -> has_group (slice1 p) acc = false) ->
  parse_body (paramCutout p ++ "/" ++ rest) 0 acc
  = parse_body rest 0 (slash :: rev (segItems p) ++ acc)%list.
Proof.
  intros Hp Hf. rewrite (parse_segment _ _ _ Hp Hf).
  change ("/" ++ rest) with (String "/" rest). apply parse_ordinary. reflexivity.
Qed.

Lemma paramNames_cons (p : string) (ps : list string) :
  paramNames (p :: ps)
  = ((if isParam p then [slice1 p] else []) ++ paramNames ps)%list.
Proof. unfold paramNames. cbn [omap list_omap]. destruct (isParam p); reflexivity. Qed.

(** Freshness of the parameter names is kept along the path. *)
Lemma fresh_step (p : string) (ps : list string) (acc : list item) :
  distinct (paramNames (p :: ps)) = true ->
  (forall n, In n (paramNames (p :: ps)) -> has_group n acc = false) ->
  (isParam p = true -> has_group (slice1 p) acc = false)
  /\ distinct (paramNames ps) = true
  /\ (forall n, In n (paramNames ps) ->
        has_group n (slash :: rev (segItems p) ++ acc)%list = false).
Proof.
  rewrite paramNames_cons. intros Hd Hf.
  destruct (isParam p) eqn:E; cbn [app] in *.
  - cbn [distinct] in Hd. apply andb_prop in Hd as [Hn Hd].
    split; [intros _; apply Hf; left; reflexivity|]. split; [exact Hd|].
    intros n Hin. change (has_group n (slash :: ?l)) with (has_group n l).
    rewrite has_group_segItems, E. cbn [andb].
    rewrite (Hf n (or_intror Hin)), Bool.orb_false_r.
    apply String.eqb_neq. intros Heq. subst n.
    apply (proj2 (mem_In _ (paramNames ps))) in Hin. rewrite Hin in Hn. discriminate.
  - split; [discriminate|]. split; [exact Hd|].
    intros n Hin. change (has_group n (slash :: ?l)) with (has_group n l).
    rewrite has_group_segItems, E. cbn [andb orb]. auto.
Qed.

Lemma compileSegs_step (p l : string) (r : list string) :
  (r = [] -> String.eqb l "" = false /\ String.eqb l "*" = false) ->
  compileSegs (p :: l :: r)
  = ((segItems p ++ slash :: fst (compileSegs (l :: r)))%list, snd (compileSegs (l :: r))).
Proof.
  intros H. destruct r as [|m r].
  - destruct (H eq_refl) as [H1 H2]. cbn [compileSegs]. rewrite H1, H2. reflexivity.
  - change (compileSegs (p :: l :: m :: r))
      with (let '(its, a) := compileSegs (l :: m :: r) in
            ((segItems p ++ slash :: its)%list, a)).
    destruct (compileSegs (l :: m :: r)); reflexivity.
Qed.

Lemma sourceOf_step (p l : string) (r : list string) :
  (r = [] -> String.eqb l "" = false /\ String.eqb l "*" = false) ->
  sourceOf (p :: l :: r) = paramCutout p ++ "/" ++ sourceOf (l :: r).
Proof.
  intros H. destruct r as [|m r].
  - destruct (H eq_refl) as [H1 H2]. cbn [sourceOf]. rewrite H1, H2. reflexivity.
  - reflexivity.
Qed.

Lemma plainSegs_step (p l : string) (r : list string) :
  (r = [] -> String.eqb l "" = false /\ String.eqb l "*" = false) ->
  plainSegs (p :: l :: r) = true ->
  plainSeg p = true /\ plainSegs (l :: r) = true.
Proof.
  intros H Hp. destruct r as [|m r].
  - destruct (H eq_refl) as [H1 H2]. cbn [plainSegs] in *.
    rewrite H2, Bool.orb_false_r in Hp. apply andb_prop in Hp. exact Hp.
  - cbn [plainSegs] in Hp |- *. apply andb_prop in Hp. exact Hp.
Qed.

End CompileFacts.

Section CompileSegments.

Import JsString RegExp RouterContext PathSpec.
Local Open Scope string_scope.

Lemma rev_acc_segItems (p : string) (acc its : list item) :
  (rev (slash :: rev (segItems p) ++ acc) ++ its
   = rev acc ++ segItems p ++ slash :: its)%list.
Proof.
  cbn [rev]. rewrite rev_app_distr, rev_involutive, <- !app_assoc. reflexivity.
Qed.

(** The source text of plain segments is read as the items the segments
    compile to. *)
Lemma parse_sourceOf (segs : list string) :
  forall acc,
    segs <> [] ->
    plainSegs segs = true ->
    distinct (paramNames segs) = true ->
    (forall n, In n (paramNames segs) -> has_group n acc = false) ->
    parse_body (sourceOf segs) 0 acc
    = Compiled (Regex (rev acc ++ fst (compileSegs segs)) (snd (compileSegs segs))).
Proof.
  induction segs as [|p ps IH]; intros acc Hne Hpl Hd Hf; [contradiction|].
  assert (Hstep : forall l r,
             ps = l :: r ->
             (r = [] -> String.eqb l "" = false /\ String.eqb l "*" = false) ->
             parse_body (sourceOf (p :: ps)) 0 acc
             = Compiled (Regex (rev acc ++ fst (compileSegs (p :: ps)))
                               (snd (compileSegs (p :: ps))))).
  { intros l r -> Hr.
    rewrite (sourceOf_step _ _ _ Hr), (compileSegs_step _ _ _ Hr). cbn [fst snd].
    destruct (plainSegs_step _ _ _ Hr Hpl) as [Hp Hrest].
    destruct (fresh_step _ _ _ Hd Hf) as (Hfp & Hd' & Hf').
    rewrite (parse_segment_slash _ _ _ Hp Hfp).
    rewrite (IH _ ltac:(discriminate) Hrest Hd' Hf').
    rewrite rev_acc_segItems. reflexivity. }
  destruct ps as [|l r].
  - cbn [sourceOf compileSegs fst snd]. cbn [plainSegs] in Hpl.
    destruct (fresh_step _ _ _ Hd Hf) as (Hfp & _ & _).
    rewrite (parse_segment _ _ _ Hpl Hfp). cbn [parse_body].
    cbn. rewrite rev_app_distr, rev_involutive. reflexivity.
  - destruct r as [|m r]; [|apply (Hstep l (m :: r) eq_refl); discriminate].
    destruct (String.eqb l "") eqn:E1; [|destruct (String.eqb l "*") eqn:E2].
    + cbn [sourceOf compileSegs]. rewrite E1. cbn [fst snd].
      cbn [plainSegs] in Hpl. apply andb_prop in Hpl as [Hp _].
      destruct (fresh_step _ _ _ Hd Hf) as (Hfp & _ & _).
      rewrite (parse_segment _ _ _ Hp Hfp). cbn.
      rewrite rev_app_distr, rev_involutive, <- app_assoc. reflexivity.
    + cbn [sourceOf compileSegs]. rewrite E1, E2. cbn [fst snd].
      cbn [plainSegs] in Hpl. apply andb_prop in Hpl as [Hp _].
      destruct (fresh_step _ _ _ Hd Hf) as (Hfp & _ & _).
      rewrite (parse_segment _ _ _ Hp Hfp). cbn.
      rewrite rev_app_distr, rev_involutive, <- !app_assoc. reflexivity.
    + apply (Hstep l [] eq_refl). auto.
Qed.

Lemma prefixPath_slash (prefix : string) :
  exists t, prefixPath prefix = String "/" t.
Proof.
  unfold prefixPath. destruct (Nat.eqb (String.length prefix) 1).
  - destruct (String.eqb prefix "/"); eexists; reflexivity.
  - destruct (startsWith prefix "/") eqn:E.
    + assert (Hp : exists t, prefix = String "/" t).
      { unfold startsWith in E. destruct prefix as [|a t]; [discriminate|].
        cbn [String.prefix] in E. destruct (ascii_dec "/" a) as [<-|]; [|discriminate].
        eexists. reflexivity. }
      destruct Hp as [t ->]. destruct (endsWith (String "/" t) "/"); eexists; reflexivity.
    + destruct (endsWith prefix "/"); eexists; reflexivity.
Qed.

(** The full path starts with a slash: it has at least two segments, the
    first of which is empty. *)
Lemma segments_shape (prefix p : string) :
  exists l r, segments prefix p = "" :: l :: r.
Proof.
  unfold segments, fullPath. destruct (prefixPath_slash prefix) as [t ->].
  rewrite append_cons. cbn [split Ascii.eqb Bool.eqb].
  pose proof (split_nonempty "/" (t ++ (if startsWith p "/" then slice1 p else p))) as H.
  destruct (split "/" _) as [|l r]; [congruence|]. exists l, r. reflexivity.
Qed.

Lemma create_caret (body : string) (decided : result) :
  parse_body body 0 [] = decided -> decided <> OutsideFragment ->
  create (String "^" body) = decided.
Proof. unfold create. intros -> H. destruct decided; congruence. Qed.

(** The pattern of a route whose segments are plain. *)
Lemma getPathRegExp_plain (prefix p : string) :
  plainPath (segments prefix p) = true ->
  getPathRegExp prefix p
  = Compiled (Regex (fst (compileSegs (segments prefix p)))
                    (snd (compileSegs (segments prefix p)))).
Proof.
  intros H. unfold plainPath in H. apply andb_prop in H as [Hpl Hd].
  unfold getPathRegExp. rewrite regExpSource_finish.
  destruct (segments_shape prefix p) as (l & r & E).
  rewrite <- (append_nil_l (join "/" _)), finish_segments; [|exact Hpl|rewrite E; exact I].
  rewrite append_nil_l. change ("^" ++ ?x) with (String "^" x).
  apply create_caret; [|discriminate].
  rewrite parse_sourceOf; [reflexivity| |exact Hpl|exact Hd|reflexivity].
  rewrite E. discriminate.
Qed.

Lemma names_segItems (p : string) :
  omap gname (segItems p) = if isParam p then [slice1 p] else [].
Proof.
  unfold segItems. destruct (isParam p); [reflexivity|].
  induction (chars p) as [|c cs IH]; [reflexivity|exact IH].
Qed.

(** The groups of the compiled items are the parameters of the path. *)
Lemma compileSegs_names (segs : list string) :
  omap gname (fst (compileSegs segs)) = paramNames segs.
Proof.
  induction segs as [|p ps IH]; [reflexivity|].
  assert (Hstep : forall l r,
             ps = l :: r ->
             (r = [] -> String.eqb l "" = false /\ String.eqb l "*" = false) ->
             omap gname (fst (compileSegs (p :: ps))) = paramNames (p :: ps)).
  { intros l r -> Hr. rewrite (compileSegs_step _ _ _ Hr). cbn [fst].
    rewrite omap_app, names_segItems, paramNames_cons. f_equal. exact IH. }
  destruct ps as [|l r].
  - cbn [compileSegs fst]. rewrite names_segItems, paramNames_cons.
    cbn [paramNames omap list_omap]. rewrite app_nil_r. reflexivity.
  - destruct r as [|m r]; [|apply (Hstep l (m :: r) eq_refl); discriminate].
    destruct (String.eqb l "") eqn:E1; [|destruct (String.eqb l "*") eqn:E2].
    + apply String.eqb_eq in E1. subst l. cbn [compileSegs String.eqb fst].
      rewrite omap_app, names_segItems, paramNames_cons. reflexivity.
    + apply String.eqb_eq in E2. subst l. cbn [compileSegs fst].
      change (String.eqb "*" "") with false. change (String.eqb "*" "*") with true.
      cbn iota. cbn [fst].
      rewrite omap_app, names_segItems, paramNames_cons. reflexivity.
    + apply (Hstep l [] eq_refl). auto.
Qed.

End CompileSegments.

(** ** Matching a request path against the pattern of a plain path *)

Section MatchFacts.

Import JsString RegExp PathSpec MatchSpec.

Lemma run_lit (c : ascii) (its : list item) (anch : bool) (s : list ascii) :
  run (lit c :: its) anch s
  = match s with
    | a :: r => if Ascii.eqb a c then run its anch r else None
    | [] => None
    end.
Proof.
  cbn [run lit qt cs gname]. unfold one, bind_group. destruct s as [|a r]; [reflexivity|].
  cbn [cs_match]. destruct (Ascii.eqb a c); [|reflexivity].
  destruct (run its anch r); reflexivity.
Qed.

Lemma rejects_slash (its : list item) (anch : bool) :
  rejectsNonSlash (run (slash :: its) anch).
Proof.
  intros a s Ha. unfold slash. rewrite run_lit.
  destruct (Ascii.eqb a "/") eqn:E; [|reflexivity].
  apply Ascii.eqb_eq in E. contradiction.
Qed.

Lemma rejects_end : rejectsNonSlash (run [] true).
Proof. intros a s _. reflexivity. Qed.

Lemma rejects_opt_end : rejectsNonSlash (run [Item (CLit "/") QOpt None] true).
Proof.
  intros a s Ha. cbn [run qt cs gname]. unfold opt, one. cbn [cs_match].
  destruct (Ascii.eqb a "/") eqn:E; [apply Ascii.eqb_eq in E; contradiction|].
  reflexivity.
Qed.

Lemma run_literal (p : string) (its : list item) (anch : bool) :
  forallb ordinary (chars p) = true ->
  rejectsNonSlash (run its anch) ->
  forall (r : string) (tail : list ascii),
    slashFree r -> boundary tail ->
    run (map lit (chars p) ++ its) anch (chars r ++ tail)
    = if String.eqb p r then run its anch tail else None.
Proof.
  intros Hp Hk. induction p as [|c p IH]; intros r tail Hr Ht.
  - cbn [chars list_ascii_of_string map app]. destruct r as [|a r]; [reflexivity|].
    cbn [chars list_ascii_of_string app String.eqb]. apply Hk.
    unfold slashFree in Hr. cbn in Hr. apply andb_prop in Hr as [Ha _].
    intros ->. discriminate.
  - cbn [chars list_ascii_of_string forallb] in Hp. apply andb_prop in Hp as [Hc Hp].
    cbn [chars list_ascii_of_string map app]. rewrite run_lit.
    destruct r as [|a r].
    + cbn [chars list_ascii_of_string app String.eqb]. destruct tail as [|b tail]; [reflexivity|].
      cbn in Ht. subst b. unfold ordinary in Hc. apply andb_prop in Hc as [_ Hc].
      rewrite Ascii.eqb_sym. destruct (Ascii.eqb c "/"); [discriminate|reflexivity].
    + cbn [chars list_ascii_of_string app String.eqb].
      unfold slashFree in Hr. cbn in Hr. apply andb_prop in Hr as [_ Hr].
      rewrite (Ascii.eqb_sym c a). destruct (Ascii.eqb a c); [|reflexivity].
      apply (IH Hp r tail Hr Ht).
Qed.

Lemma star_notslash (k : list ascii -> option captures) :
  rejectsNonSlash k ->
  forall (w tail : list ascii),
    forallb (fun a => negb (Ascii.eqb a "/")) w = true -> boundary tail ->
    star CNotSlash k (w ++ tail) = option_map (pair w) (k tail).
Proof.
  intros Hk w tail Hw Ht. induction w as [|a w IH].
  - cbn [app]. destruct tail as [|b tail]; [reflexivity|].
    cbn in Ht. subst b. reflexivity.
  - cbn [forallb] in Hw. apply andb_prop in Hw as [Ha Hw].
    cbn [app star cs_match]. rewrite Ha, (IH Hw).
    destruct (k tail) as [res|]; [reflexivity|]. cbn [option_map].
    rewrite Hk; [reflexivity|]. intros ->. discriminate.
Qed.

Lemma run_param (n : string) (its : list item) (anch : bool) :
  rejectsNonSlash (run its anch) ->
  forall (r : string) (tail : list ascii),
    slashFree r -> boundary tail ->
    run (Item CNotSlash QPlus (Some n) :: its) anch (chars r ++ tail)
    = if String.eqb r "" then None
      else option_map (cons (n, r)) (run its anch tail).
Proof.
  intros Hk r tail Hr Ht. cbn [run qt cs gname]. unfold plus, chars.
  destruct r as [|a r]; cbn [list_ascii_of_string app String.eqb].
  - destruct tail as [|b tail]; [reflexivity|]. cbn in Ht. subst b. reflexivity.
  - unfold slashFree in Hr. cbn in Hr. apply andb_prop in Hr as [Ha Hr].
    cbn [cs_match]. rewrite Ha, (star_notslash _ Hk _ _ Hr Ht).
    destruct (run its anch tail) as [res|]; [|reflexivity].
    cbn [option_map bind_group string_of_list_ascii].
    rewrite string_of_list_ascii_of_string. reflexivity.
Qed.

Lemma run_segment (p : string) (its : list item) (anch : bool) :
  plainSeg p = true ->
  rejectsNonSlash (run its anch) ->
  forall (r : string) (tail : list ascii),
    slashFree r -> boundary tail ->
    run (segItems p ++ its) anch (chars r ++ tail)
    = andThen (segMatch p r) (run its anch tail).
Proof.
  unfold plainSeg, segItems, segMatch. intros Hp Hk r tail Hr Ht.
  destruct (isParam p).
  - cbn [app]. rewrite (run_param _ _ _ Hk _ _ Hr Ht).
    destruct (String.eqb r ""); [reflexivity|].
    destruct (run its anch tail); reflexivity.
  - rewrite (run_literal _ _ _ Hp Hk _ _ Hr Ht).
    destruct (String.eqb p r); [|reflexivity].
    destruct (run its anch tail); reflexivity.
Qed.

End MatchFacts.

Section MatchSegments.

Import JsString RegExp PathSpec MatchSpec.

Lemma chars_join_cons (r : string) (rs : list string) :
  chars (join "/" (r :: rs)) = chars r ++ tailOf rs.
Proof.
  destruct rs as [|x xs].
  - cbn [tailOf]. rewrite app_nil_r. reflexivity.
  - rewrite join_cons by discriminate. unfold chars. rewrite chars_app. reflexivity.
Qed.

Lemma boundary_tailOf (rs : list string) : boundary (tailOf rs).
Proof. destruct rs; [exact I|reflexivity]. Qed.

Lemma star_total (c : charset) (k : list ascii -> option captures) (res : captures)
      (s : list ascii) :
  (forall x, k x = Some res) -> exists w, star c k s = Some (w, res).
Proof.
  intros Hk. induction s as [|a s [w IH]]; cbn [star].
  - rewrite Hk. eexists. reflexivity.
  - destruct (cs_match c a); [rewrite IH|rewrite Hk]; eexists; reflexivity.
Qed.

Lemma specMatch_nil (p : string) (ps : list string) : specMatch (p :: ps) [] = None.
Proof.
  destruct ps as [|l [|m r]]; cbn [specMatch]; [reflexivity| |reflexivity].
  destruct (String.eqb l ""); [reflexivity|]. destruct (String.eqb l "*"); reflexivity.
Qed.

Lemma specMatch_step (p l : string) (r : list string) (r0 : string) (rs : list string) :
  (r = [] -> String.eqb l "" = false /\ String.eqb l "*" = false) ->
  specMatch (p :: l :: r) (r0 :: rs) = andThen (segMatch p r0) (specMatch (l :: r) rs).
Proof.
  intros H. destruct r as [|m r].
  - destruct (H eq_refl) as [H1 H2]. cbn [specMatch]. rewrite H1, H2. reflexivity.
  - reflexivity.
Qed.

Lemma andThen_nil (a : option captures) : andThen a (Some []) = a.
Proof. destruct a as [x|]; [|reflexivity]. cbn. rewrite app_nil_r. reflexivity. Qed.

Lemma andThen_None (a : option captures) : andThen a None = None.
Proof. destruct a; reflexivity. Qed.

Lemma run_any_star (t : list ascii) : run [Item CAny QStar None] false t = Some [].
Proof.
  change (run [Item CAny QStar None] false t)
    with (bind_group None (star CAny (run [] false) t)).
  destruct (star_total CAny (run [] false) [] t (fun _ => eq_refl)) as [w Hw].
  rewrite Hw. reflexivity.
Qed.

Lemma run_opt_end (t : list ascii) :
  run [Item (CLit "/") QOpt None] true t
  = match t with
    | [] => Some []
    | [a] => if Ascii.eqb a "/" then Some [] else None
    | _ :: _ :: _ => None
    end.
Proof.
  cbn [run qt cs gname]. unfold opt, one. cbn [cs_match].
  destruct t as [|a [|b t]]; [reflexivity| |];
    destruct (Ascii.eqb a "/"); reflexivity.
Qed.

Lemma run_opt_end_long (a : ascii) (x : list ascii) (b : ascii) (y : list ascii) :
  run [Item (CLit "/") QOpt None] true (a :: x ++ b :: y) = None.
Proof. rewrite run_opt_end. destruct x; reflexivity. Qed.

(** The items of plain segments match the request path exactly as the
    segments are read. *)
Lemma run_compileSegs (segs : list string) :
  forall rs,
    segs <> [] -> plainSegs segs = true ->
    rs <> [] -> Forall slashFree rs ->
    run (fst (compileSegs segs)) (snd (compileSegs segs)) (chars (join "/" rs))
    = specMatch segs rs.
Proof.
  induction segs as [|p ps IH]; intros rs Hne Hpl Hrs Hfree; [contradiction|].
  destruct rs as [|r0 rs]; [contradiction|]. clear Hne Hrs.
  apply Forall_cons_iff in Hfree as [Hr0 Hfree].
  rewrite chars_join_cons.
  assert (Hstep : forall l r,
             ps = l :: r ->
             (r = [] -> String.eqb l "" = false /\ String.eqb l "*" = false) ->
             run (fst (compileSegs (p :: ps))) (snd (compileSegs (p :: ps)))
                 (chars r0 ++ tailOf rs)
             = specMatch (p :: ps) (r0 :: rs)).
  { intros l r -> Hr.
    rewrite (compileSegs_step _ _ _ Hr), (specMatch_step _ _ _ _ _ Hr). cbn [fst snd].
    destruct (plainSegs_step _ _ _ Hr Hpl) as [Hp Hrest].
    rewrite (run_segment _ _ _ Hp (rejects_slash _ _) _ _ Hr0 (boundary_tailOf rs)).
    f_equal. destruct rs as [|r1 rs].
    - cbn [tailOf]. unfold slash. rewrite run_lit, specMatch_nil. reflexivity.
    - cbn [tailOf]. unfold slash. rewrite run_lit. cbn [Ascii.eqb Bool.eqb].
      apply IH; [discriminate|exact Hrest|discriminate|exact Hfree]. }
  destruct ps as [|l r].
  - cbn [compileSegs specMatch fst snd]. cbn [plainSegs] in Hpl.
    rewrite <- (app_nil_r (segItems p)).
    rewrite (run_segment _ _ _ Hpl rejects_end _ _ Hr0 (boundary_tailOf rs)).
    destruct rs as [|r1 rs]; cbn [tailOf].
    + apply andThen_nil.
    + apply andThen_None.
  - destruct r as [|m r]; [|apply (Hstep l (m :: r) eq_refl); discriminate].
    destruct (String.eqb l "") eqn:E1; [|destruct (String.eqb l "*") eqn:E2].
    + cbn [compileSegs specMatch]. rewrite E1. cbn [fst snd].
      cbn [plainSegs] in Hpl. apply andb_prop in Hpl as [Hp _].
      rewrite (run_segment _ _ _ Hp rejects_opt_end _ _ Hr0 (boundary_tailOf rs)).
      destruct rs as [|e [|f rs]]; cbn [tailOf].
      * rewrite run_opt_end. apply andThen_nil.
      * unfold join. cbn [String.concat]. rewrite run_opt_end.
        destruct e as [|a e]; cbn [chars list_ascii_of_string String.eqb Ascii.eqb Bool.eqb].
        -- apply andThen_nil.
        -- apply andThen_None.
      * rewrite join_cons by discriminate. unfold chars. rewrite chars_app.
        change (list_ascii_of_string ("/" +:+ join "/" (f :: rs)))
          with ("/"%char :: list_ascii_of_string (join "/" (f :: rs))).
        rewrite run_opt_end_long. apply andThen_None.
    + cbn [compileSegs specMatch]. rewrite E1, E2. cbn [fst snd].
      cbn [plainSegs] in Hpl. apply andb_prop in Hpl as [Hp _].
      rewrite (run_segment _ _ _ Hp (rejects_slash _ _) _ _ Hr0 (boundary_tailOf rs)).
      destruct rs as [|e rs]; cbn [tailOf].
      * unfold slash. rewrite run_lit. apply andThen_None.
      * unfold slash. rewrite run_lit. cbn [Ascii.eqb Bool.eqb].
        rewrite run_any_star. apply andThen_nil.
    + apply (Hstep l [] eq_refl). auto.
Qed.

End MatchSegments.

(** The pattern of a plain path and its matches, for later use. *)
Lemma plain_path_helper (pfx p : string) :
  PathSpec.plainPath (PathSpec.segments pfx p) = true ->
  exists re,
    RouterContext.getPathRegExp pfx p = RegExp.Compiled re
    /\ forall req,
      RegExp.run (RegExp.items re) (RegExp.anchoredEnd re) (list_ascii_of_string req)
      = PathSpec.specMatch (PathSpec.segments pfx p) (JsString.split "/" req)
      /\ RegExp.groupNames re = PathSpec.paramNames (PathSpec.segments pfx p).
Proof.
  intros Hp. rewrite (getPathRegExp_plain _ _ Hp). eexists. split; [reflexivity|].
  intros req. cbn [RegExp.items RegExp.anchoredEnd]. split; [|apply compileSegs_names].
  rewrite <- (join_split "/" req) at 1.
  destruct (segments_shape pfx p) as (l & r & E).
  unfold PathSpec.plainPath in Hp. apply andb_prop in Hp as [Hpl _].
  apply run_compileSegs.
  - rewrite E. discriminate.
  - exact Hpl.
  - apply split_nonempty.
  - apply split_free.
Qed.

(** C4 fails as stated: the text of a literal segment is part of the
    pattern, so its characters are not compared one by one. The route
    [/a.b] matches the request path [/axb]. *)
Lemma literal_segment_is_read_as_pattern :
  MatchSpec.execRoute "/" "/a.b" "/axb" = Some (Some None)
  /\ PathSpec.specMatch (PathSpec.segments "/" "/a.b") (JsString.split "/" "/axb") = None.
Proof. split; vm_compute; reflexivity. Qed.

(** C4, amended. For a route whose segments are plain (literal segments
    free of the characters that have a meaning in a pattern, parameters
    with distinct well-formed names, [*] only as the last segment), the
    pattern is compiled, and it matches a request path exactly when the
    request segments match the pattern segments one by one over the whole
    path: literal segments are equal, a parameter segment takes a
    non-empty request segment and binds it to its name; after a final [*]
    segment anything may follow the slash, further slashes included; a
    final empty segment (a path ending in [/]) may be absent from the
    request. The groups of the match are the bindings. So [/users/:id]
    matches [/users/42] with [id] bound to [42] and rejects [/users], and
    [/files/*] matches [/files/a/b/c]. *)
Theorem plain_path_matches_by_segments (prefix p : string) :
  PathSpec.plainPath (PathSpec.segments prefix p) = true ->
  (exists re,
      RouterContext.getPathRegExp prefix p = RegExp.Compiled re
      /\ forall req,
        RegExp.run (RegExp.items re) (RegExp.anchoredEnd re) (list_ascii_of_string req)
        = PathSpec.specMatch (PathSpec.segments prefix p) (JsString.split "/" req)
        /\ RegExp.test re req
           = match PathSpec.specMatch (PathSpec.segments prefix p) (JsString.split "/" req) with
             | Some _ => true
             | None => false
             end
        /\ RegExp.exec re req
           = option_map (fun caps => if RegExp.has_named_groups re then Some caps else None)
               (PathSpec.specMatch (PathSpec.segments prefix p) (JsString.split "/" req))
        /\ RegExp.groupNames re = PathSpec.paramNames (PathSpec.segments prefix p))
  /\ MatchSpec.execRoute "/" "/users/:id" "/users/42" = Some (Some (Some [("id", "42")]))
  /\ MatchSpec.execRoute "/" "/users/:id" "/users" = Some None
  /\ MatchSpec.execRoute "/" "/files/*" "/files/a/b/c" = Some (Some None)
  /\ MatchSpec.execRoute "/" "/files/" "/files" = Some (Some None).
Proof.
  intros Hp. split; [|repeat split; vm_compute; reflexivity].
  rewrite (getPathRegExp_plain _ _ Hp). eexists. split; [reflexivity|].
  intros req. cbn [RegExp.items RegExp.anchoredEnd].
  assert (Hrun : RegExp.run (fst (PathSpec.compileSegs (PathSpec.segments prefix p)))
                   (snd (PathSpec.compileSegs (PathSpec.segments prefix p)))
                   (list_ascii_of_string req)
                 = PathSpec.specMatch (PathSpec.segments prefix p) (JsString.split "/" req)).
  { rewrite <- (join_split "/" req) at 1.
    destruct (segments_shape prefix p) as (l & r & E).
    unfold PathSpec.plainPath in Hp. apply andb_prop in Hp as [Hpl _].
    apply run_compileSegs.
    - rewrite E. discriminate.
    - exact Hpl.
    - apply split_nonempty.
    - apply split_free. }
  split; [exact Hrun|].
  unfold RegExp.test, RegExp.exec. cbn [RegExp.items RegExp.anchoredEnd].
  rewrite Hrun. split; [destruct (PathSpec.specMatch _ _); reflexivity|].
  split; [destruct (PathSpec.specMatch _ _); reflexivity|].
  apply compileSegs_names.
Qed.

Lemma plain_path_matches_by_segments_witness :
  (exists re,
      RouterContext.getPathRegExp "/api" "/users/:id/" = RegExp.Compiled re
      /\ forall req,
        RegExp.run (RegExp.items re) (RegExp.anchoredEnd re) (list_ascii_of_string req)
        = PathSpec.specMatch (PathSpec.segments "/api" "/users/:id/") (JsString.split "/" req)
        /\ RegExp.test re req
           = match PathSpec.specMatch (PathSpec.segments "/api" "/users/:id/")
                     (JsString.split "/" req) with
             | Some _ => true
             | None => false
             end
        /\ RegExp.exec re req
           = option_map (fun caps => if RegExp.has_named_groups re then Some caps else None)
               (PathSpec.specMatch (PathSpec.segments "/api" "/users/:id/")
                  (JsString.split "/" req))
        /\ RegExp.groupNames re = PathSpec.paramNames (PathSpec.segments "/api" "/users/:id/"))
  /\ MatchSpec.execRoute "/" "/users/:id" "/users/42" = Some (Some (Some [("id", "42")]))
  /\ MatchSpec.execRoute "/" "/users/:id" "/users" = Some None
  /\ MatchSpec.execRoute "/" "/files/*" "/files/a/b/c" = Some (Some None)
  /\ MatchSpec.execRoute "/" "/files/" "/files" = Some (Some None).
Proof.
  apply (plain_path_matches_by_segments "/api" "/users/:id/").
  vm_compute. reflexivity.
Defined.

(** ** Registration of a path with an empty parameter name *)

Section RegistrationFacts.

Import JsString RegExp RouterContext PathSpec RegistrationSpec.
Local Open Scope string_scope.

Lemma join_middle (xs : list string) (y : string) (zs : list string) :
  join "/" (xs ++ y :: zs)%list = textBefore xs ++ y ++ textAfter zs.
Proof.
  induction xs as [|x xs IH].
  - cbn [app textBefore]. rewrite append_nil_l. revert y.
    induction zs as [|z zs IHz]; intros y.
    + cbn [textAfter]. rewrite append_nil_r. reflexivity.
    + rewrite join_cons by discriminate. rewrite IHz. reflexivity.
  - cbn [app textBefore]. rewrite join_cons by (destruct xs; discriminate).
    rewrite IH, !append_assoc. reflexivity.
Qed.

Lemma length_removeLast (s : string) :
  String.length (removeLast s) = (String.length s - 1)%nat.
Proof.
  induction s as [|a s IH]; [reflexivity|].
  cbn [removeLast]. destruct s as [|b s]; [reflexivity|].
  cbn [String.length] in *. rewrite IH. lia.
Qed.

Lemma removeLast_prefix (A s : string) :
  s <> "" -> removeLast (A ++ s) = A ++ removeLast s.
Proof.
  intros Hs. induction A as [|a A IH]; [reflexivity|].
  rewrite !append_cons. cbn [removeLast]. rewrite IH.
  destruct (A ++ s) eqn:E; [|reflexivity].
  destruct A; [rewrite append_nil_l in E; contradiction|discriminate].
Qed.

Lemma eqb_length (s t : string) :
  String.length s <> String.length t -> String.eqb s t = false.
Proof. intros H. apply String.eqb_neq. intros ->. contradiction. Qed.

Lemma endsWith_prefix (A s suf : string) :
  (String.length suf <= String.length s)%nat ->
  endsWith (A ++ s) suf = endsWith s suf.
Proof.
  intros H. induction A as [|a A IH]; [reflexivity|].
  rewrite append_cons. cbn [endsWith]. rewrite IH, eqb_length; [reflexivity|].
  cbn [String.length]. rewrite length_append. lia.
Qed.

(** [finish] only looks at, and changes, the last two characters. *)
Lemma finish_prefix (A s : string) :
  (2 <= String.length s)%nat -> finish (A ++ s) = A ++ finish s.
Proof.
  intros H. unfold finish, optionalTrailingSlash.
  rewrite (endsWith_prefix A s "/") by (cbn; lia).
  assert (Hne : s <> "") by (intros ->; cbn in H; lia).
  assert (Hopt : forall t, (2 <= String.length t)%nat ->
                   (if endsWith (A ++ t) "/*"
                    then dropEnd 2 (A ++ t) ++ "/.*" else (A ++ t) ++ "$")
                   = A ++ (if endsWith t "/*" then dropEnd 2 t ++ "/.*" else t ++ "$")).
  { intros t Ht. rewrite (endsWith_prefix A t "/*") by (cbn; lia).
    destruct (endsWith t "/*"); [|apply append_assoc].
    cbn [dropEnd].
    assert (t <> "") by (intros ->; cbn in Ht; lia).
    rewrite removeLast_prefix by assumption.
    rewrite removeLast_prefix, append_assoc; [reflexivity|].
    intros E. pose proof (length_removeLast t) as Hl. rewrite E in Hl. cbn in Hl. lia. }
  destruct (endsWith s "/").
  - cbn [dropEnd]. rewrite removeLast_prefix by assumption.
    rewrite append_assoc. apply Hopt.
    rewrite length_append, length_removeLast. cbn. lia.
  - apply Hopt. exact H.
Qed.

Lemma parse_group_dup (n rest : string) (acc : list item) :
  validName n = true -> has_group n acc = true ->
  parse_body ("(?<" ++ n ++ ">[^/]+)" ++ rest) 0 acc = SyntaxError.
Proof.
  intros Hn Hacc.
  change ("(?<" ++ n ++ ">[^/]+)" ++ rest)
    with (String "(" ("?<" ++ (n ++ String ">" ("[^/]+)" ++ rest)))).
  rewrite parse_open by apply startsWith_app.
  change (slice1 (slice1 ("?<" ++ (n ++ String ">" ("[^/]+)" ++ rest)))))
    with (n ++ String ">" ("[^/]+)" ++ rest)).
  rewrite (read_group_valid n _ Hn), startsWith_app, Hacc. reflexivity.
Qed.

(** The group of a parameter without a name is a syntax error. *)
Lemma parse_group_unnamed (x : string) (acc : list item) :
  parse_body ("(?<>" ++ x) 0 acc = SyntaxError.
Proof.
  change ("(?<>" ++ x) with (String "(" ("?<" ++ String ">" x)).
  rewrite parse_open by apply startsWith_app. reflexivity.
Qed.

(** Plain segments in front of a syntax error do not hide it. *)
Lemma parse_textBefore (pre : list string) (rest : string) :
  forallb plainSeg pre = true ->
  (forall acc, parse_body rest 0 acc = SyntaxError) ->
  forall acc, parse_body (textBefore (map paramCutout pre) ++ rest) 0 acc = SyntaxError.
Proof.
  intros Hpre Hrest. induction pre as [|x pre IH]; intros acc.
  - apply Hrest.
  - cbn [forallb] in Hpre. apply andb_prop in Hpre as [Hx Hpre].
    cbn [map textBefore]. rewrite !append_assoc.
    destruct (isParam x && has_group (slice1 x) acc)%bool eqn:E.
    + apply andb_prop in E as [Ep Eg].
      unfold plainSeg in Hx. rewrite Ep in Hx.
      unfold paramCutout. unfold isParam in Ep. rewrite Ep.
      rewrite !append_assoc. apply parse_group_dup; assumption.
    + rewrite parse_segment_slash.
      * apply (IH Hpre).
      * exact Hx.
      * intros Ep. rewrite Ep in E. cbn [andb] in E. exact E.
Qed.

(** The source text of a path with a segment [:] after plain segments. *)
Lemma regExpSource_unnamed (prefix p : string) (pre post : list string) :
  segments prefix p = (pre ++ ":" :: post)%list ->
  exists x,
    regExpSource prefix p
    = String "^" (textBefore (map paramCutout pre) ++ "(?<>" ++ x).
Proof.
  intros E. rewrite regExpSource_finish, E, map_app. cbn [map].
  rewrite join_middle. change (paramCutout ":") with ("(?<>[^/]" ++ "+)").
  rewrite append_assoc, <- (append_assoc (textBefore _)).
  rewrite finish_prefix by (rewrite length_append; cbn; lia).
  rewrite append_assoc.
  exists ("[^/]" ++ finish ("+)" ++ textAfter (map paramCutout post))). reflexivity.
Qed.

Lemma getPathRegExp_unnamed (prefix p : string) (pre post : list string) :
  segments prefix p = (pre ++ ":" :: post)%list ->
  forallb plainSeg pre = true ->
  getPathRegExp prefix p = SyntaxError.
Proof.
  intros E Hpre. destruct (regExpSource_unnamed _ _ _ _ E) as [x Hx].
  unfold getPathRegExp. rewrite Hx. apply create_caret; [|discriminate].
  apply parse_textBefore; [exact Hpre|]. intros acc. apply parse_group_unnamed.
Qed.

Lemma checkPreConditions_neverThrow (cb : Callbacks) (req : Request)
      (ps : list preCondition) (w : World) (m : string) :
  neverThrow cb ->
  snd (RouteListener.checkPreConditions cb req ps w) <> Throw m.
Proof.
  intros Hcb. revert w. induction ps as [|pc ps IH]; intros w; cbn; [discriminate|].
  destruct (RouteListener.evalPreCondition cb req pc w) as [w' [[|]|m']] eqn:E.
  - apply IH.
  - discriminate.
  - destruct pc as [M|i]; cbn in E; [discriminate|].
    destruct (Hcb i req w) as [Hpre _]. specialize (Hpre m'). rewrite E in Hpre.
    contradiction.
Qed.

(** Matching a registered pattern does not throw: a listener throws only
    when a callback of the application does. *)
Lemma wrappedRouteHandler_neverThrow (cb : Callbacks) (req : Request)
      (lst : Listener) (w : World) (m : string) :
  neverThrow cb ->
  snd (RouteListener.wrappedRouteHandler cb req lst w) <> Throw m.
Proof.
  intros Hcb. unfold RouteListener.wrappedRouteHandler.
  destruct (RegExp.test (pathAsRegExp lst) (path req)) eqn:Et; cbn [negb]; [|discriminate].
  pose proof (checkPreConditions_neverThrow cb req (preConditions lst) w) as Hp.
  destruct (RouteListener.checkPreConditions cb req (preConditions lst) w)
    as [w1 [[|]|m']].
  - destruct (test_exec _ _ Et) as (caps & _ & ->).
    unfold RouteListener.toResponse.
    destruct (Hcb (routeHandler lst) req
                (set_params (if RegExp.has_named_groups (pathAsRegExp lst)
                             then Some caps else None) w1)) as [_ Hh].
    destruct (userHandler cb _ req _) as [w3 [[r|]|m3]]; cbn; try discriminate.
    specialize (Hh m3). cbn in Hh. congruence.
  - discriminate.
  - specialize (Hp m' Hcb). cbn in Hp. congruence.
Qed.

End RegistrationFacts.

(** C7 fails as stated: the text of a segment is pasted into the
    pattern as it is, so a bracket in an earlier segment can open a
    character class that swallows the group of the parameter. The path
    [/([/:] has a parameter segment with the empty name, its pattern is
    [^/([/(?<>[^/]+)$], in which [[/(?<>[^/]] is one class, and the
    route is registered: no error is raised. *)
Lemma empty_parameter_name_registers_inside_a_class :
  In ":"%string (PathSpec.segments "/" "/([/:")
  /\ RouterContext.regExpSource "/" "/([/:" = "^/([/(?<>[^/]+)$"%string
  /\ (exists re, RouterContext.getPathRegExp "/" "/([/:" = RegExp.Compiled re)
  /\ (exists rt w l,
         RouterContext.any "/([/:" 0 ThreeListeners.emptyRouter ThreeListeners.emptyWorld
         = RouterContext.Registered rt w l)
  /\ RouterContext.any "/([/:" 0 ThreeListeners.emptyRouter ThreeListeners.emptyWorld
     <> RouterContext.RegistrationThrows.
Proof.
  split; [vm_compute; tauto|]. split; [vm_compute; reflexivity|].
  split; [eexists; vm_compute; reflexivity|].
  split; [eexists _, _, _; vm_compute; reflexivity|].
  vm_compute. discriminate.
Qed.

(** C7, amended. A route path with a parameter segment whose name is
    empty (the segment [:]), the segments before it being literal text
    without pattern syntax or parameters with a well-formed name, is
    rejected when it is registered: building the pattern is a syntax
    error, so [any] and [add] (and with it [get], [post], ...) throw at
    the registration call. Nothing of the kind is left for match time: a
    listener that was registered throws on a request only when one of
    its callbacks does; testing the pattern and reading the groups of
    the match do not. *)
Theorem empty_parameter_name_fails_at_registration
        (pfx p : string) (pre post : list string) :
  PathSpec.segments pfx p = pre ++ ":" :: post ->
  forallb PathSpec.plainSeg pre = true ->
  RouterContext.getPathRegExp pfx p = RegExp.SyntaxError
  /\ (forall (h : nat) (rt : Router) (w : World),
         prefix rt = pfx ->
         RouterContext.any p h rt w = RouterContext.RegistrationThrows
         /\ forall m, RouterContext.add m p h rt w = RouterContext.RegistrationThrows)
  /\ (forall (cb : Callbacks) (req : Request) (lst : Listener) (w : World) (m : string),
         RegistrationSpec.neverThrow cb ->
         snd (RouteListener.wrappedRouteHandler cb req lst w) <> Throw m).
Proof.
  intros E Hpre. pose proof (getPathRegExp_unnamed _ _ _ _ E Hpre) as Hre.
  split; [exact Hre|]. split.
  - intros h rt w Hrt.
    assert (Hany : RouterContext.any p h rt w = RouterContext.RegistrationThrows).
    { unfold RouterContext.any. rewrite Hrt, Hre. reflexivity. }
    split; [exact Hany|]. intros m. unfold RouterContext.add. rewrite Hany. reflexivity.
  - intros cb req lst w m Hcb. apply wrappedRouteHandler_neverThrow. exact Hcb.
Qed.

Lemma empty_parameter_name_fails_at_registration_witness :
  RouterContext.getPathRegExp "/" "/users/:/posts" = RegExp.SyntaxError
  /\ (forall (h : nat) (rt : Router) (w : World),
         prefix rt = "/" ->
         RouterContext.any "/users/:/posts" h rt w = RouterContext.RegistrationThrows
         /\ forall m, RouterContext.add m "/users/:/posts" h rt w
                      = RouterContext.RegistrationThrows)
  /\ (forall (cb : Callbacks) (req : Request) (lst : Listener) (w : World) (m : string),
         RegistrationSpec.neverThrow cb ->
         snd (RouteListener.wrappedRouteHandler cb req lst w) <> Throw m).
Proof.
  apply (empty_parameter_name_fails_at_registration "/" "/users/:/posts"
           [""; "users"] ["posts"]).
  - vm_compute. reflexivity.
  - vm_compute. reflexivity.
Defined.

(** * Further properties of the router *)

Section PrefixFacts.

Import JsString RouterContext.
Local Open Scope string_scope.

Lemma startsWith_slash (s : string) :
  startsWith s "/" = true -> exists t, s = String "/" t.
Proof.
  unfold startsWith. destruct s as [|a t]; [discriminate|].
  cbn [String.prefix]. destruct (ascii_dec "/" a) as [<-|]; [|discriminate].
  intros _. eexists. reflexivity.
Qed.

Lemma endsWith_cons (a : ascii) (s suf : string) :
  endsWith s suf = true -> endsWith (String a s) suf = true.
Proof. intros H. cbn [endsWith]. rewrite H. apply Bool.orb_true_r. Qed.

Lemma prefixPath_fixed (r : string) :
  startsWith r "/" = true -> endsWith r "/" = true -> prefixPath r = r.
Proof.
  intros Hs He. unfold prefixPath. rewrite Hs, He.
  destruct (Nat.eqb (String.length r) 1) eqn:El; [|reflexivity].
  destruct (startsWith_slash r Hs) as [t ->].
  destruct t; [reflexivity|discriminate].
Qed.

End PrefixFacts.

(** X1. The normalised prefix of a router starts with a slash and ends
    with a slash, whatever prefix the router was created with, and
    normalising it again changes nothing. *)
Theorem prefixPath_normal_form (pfx : string) :
  JsString.startsWith (RouterContext.prefixPath pfx) "/" = true
  /\ JsString.endsWith (RouterContext.prefixPath pfx) "/" = true
  /\ RouterContext.prefixPath (RouterContext.prefixPath pfx) = RouterContext.prefixPath pfx.
Proof.
  assert (H : JsString.startsWith (RouterContext.prefixPath pfx) "/" = true
              /\ JsString.endsWith (RouterContext.prefixPath pfx) "/" = true).
  { unfold RouterContext.prefixPath.
    destruct (Nat.eqb (String.length pfx) 1).
    - destruct (String.eqb pfx "/"); [split; reflexivity|].
      split; [apply (startsWith_app "/")|].
      rewrite <- append_assoc. apply endsWith_app.
    - destruct (JsString.startsWith pfx "/") eqn:Es.
      + destruct (JsString.endsWith pfx "/") eqn:Ee; [auto|].
        destruct (startsWith_slash pfx Es) as [t ->].
        split; [apply (startsWith_app "/")|apply endsWith_app].
      + destruct (JsString.endsWith pfx "/") eqn:Ee.
        * split; [apply (startsWith_app "/")|]. apply endsWith_cons. exact Ee.
        * split; [apply (startsWith_app "/")|].
          rewrite <- append_assoc. apply endsWith_app. }
  destruct H as [Hs He]. repeat split; try assumption.
  apply prefixPath_fixed; assumption.
Qed.

Section DetachRouterFacts.

Import JsArray RouterContext SubRouter.

Lemma splice_one_withoutFirst (r : nat) (hs : list nat) (i : nat) :
  indexOf r hs = Some i -> splice_one (Idx i) hs = withoutFirst r hs.
Proof.
  revert i. induction hs as [|y hs IH]; intros i; cbn [indexOf withoutFirst]; [discriminate|].
  destruct (Nat.eqb y r).
  - intros [= <-]. reflexivity.
  - destruct (indexOf r hs) as [j|] eqn:E; cbn [option_map]; [|discriminate].
    intros [= <-]. specialize (IH j eq_refl).
    pose proof (indexOf_Some_lt _ _ _ E) as Hlt.
    unfold splice_one, actualStart in *. cbn [length].
    rewrite Nat.min_l in IH by lia. rewrite Nat.min_l by lia.
    cbn [firstn skipn app]. rewrite IH. reflexivity.
Qed.

Lemma indexOf_None_withoutFirst (r : nat) (hs : list nat) :
  indexOf r hs = None -> withoutFirst r hs = hs.
Proof.
  induction hs as [|y hs IH]; cbn [indexOf withoutFirst]; [reflexivity|].
  destruct (Nat.eqb y r); [discriminate|].
  destruct (indexOf r hs); cbn [option_map]; [discriminate|].
  intros _. rewrite IH; reflexivity.
Qed.

Lemma handlers_detachRouter (r : nat) (w : World) :
  handlers (detachRouter r w) = withoutFirst r (handlers w).
Proof.
  unfold detachRouter. destruct (indexOf r (handlers w)) as [i|] eqn:E.
  - cbn [set_handlers handlers]. apply splice_one_withoutFirst. exact E.
  - symmetry. apply indexOf_None_withoutFirst. exact E.
Qed.

Lemma withoutFirst_others (r x : nat) (hs : list nat) :
  x <> r -> count_occ Nat.eq_dec (withoutFirst r hs) x = count_occ Nat.eq_dec hs x.
Proof.
  intros Hx. induction hs as [|y hs IH]; [reflexivity|].
  cbn [withoutFirst]. destruct (Nat.eqb y r) eqn:E.
  - apply Nat.eqb_eq in E. subst y. cbn [count_occ].
    destruct (Nat.eq_dec r x); [congruence|reflexivity].
  - cbn [count_occ]. rewrite IH. reflexivity.
Qed.

Lemma withoutFirst_self (r : nat) (hs : list nat) :
  count_occ Nat.eq_dec (withoutFirst r hs) r = Nat.pred (count_occ Nat.eq_dec hs r).
Proof.
  induction hs as [|y hs IH]; [reflexivity|].
  cbn [withoutFirst]. destruct (Nat.eqb y r) eqn:E.
  - apply Nat.eqb_eq in E. subst y. cbn [count_occ].
    destruct (Nat.eq_dec r r); [reflexivity|congruence].
  - apply Nat.eqb_neq in E. cbn [count_occ].
    destruct (Nat.eq_dec y r); [congruence|exact IH].
Qed.

Lemma withoutFirst_filter (r : nat) (hs : list nat) :
  List.filter (fun x => negb (Nat.eqb x r)) (withoutFirst r hs)
  = List.filter (fun x => negb (Nat.eqb x r)) hs.
Proof.
  induction hs as [|y hs IH]; [reflexivity|].
  cbn [withoutFirst]. destruct (Nat.eqb y r) eqn:E.
  - cbn [List.filter]. rewrite E. reflexivity.
  - cbn [List.filter]. rewrite E, IH. reflexivity.
Qed.

End DetachRouterFacts.

(** X2. The detach function of a sub-router removes the one entry of
    its [handle] from the parent's target list and nothing else: every
    other target is kept, as often and in the order it was there; only
    the [handlers] field of the world changes; and when the entry is not
    in the list, as after a first detach of a once-registered router,
    the call changes nothing. *)
Theorem detachRouter_removes_only_its_entry (r : nat) (w : World) :
  List.filter (fun x => negb (Nat.eqb x r)) (handlers (RouterContext.detachRouter r w))
  = List.filter (fun x => negb (Nat.eqb x r)) (handlers w)
  /\ count_occ Nat.eq_dec (handlers (RouterContext.detachRouter r w)) r
     = Nat.pred (count_occ Nat.eq_dec (handlers w) r)
  /\ RouterContext.detachRouter r w
     = set_handlers (handlers (RouterContext.detachRouter r w)) w
  /\ (count_occ Nat.eq_dec (handlers w) r <= 1 ->
      RouterContext.detachRouter r (RouterContext.detachRouter r w)
      = RouterContext.detachRouter r w).
Proof.
  rewrite handlers_detachRouter.
  split; [apply withoutFirst_filter|]. split; [apply withoutFirst_self|]. split.
  - unfold RouterContext.detachRouter.
    destruct (JsArray.indexOf r (handlers w)) as [i|] eqn:E.
    + rewrite (splice_one_withoutFirst _ _ _ E). reflexivity.
    + rewrite (indexOf_None_withoutFirst _ _ E). destruct w; reflexivity.
  - intros Hc.
    assert (Hnone : JsArray.indexOf r (handlers (RouterContext.detachRouter r w)) = None).
    { destruct (JsArray.indexOf r (handlers (RouterContext.detachRouter r w))) as [j|] eqn:E;
        [|reflexivity].
      exfalso. pose proof (withoutFirst_self r (handlers w)) as Hs.
      rewrite <- handlers_detachRouter in Hs.
      assert (Hin : In r (handlers (RouterContext.detachRouter r w))).
      { clear - E. revert j E.
        induction (handlers (RouterContext.detachRouter r w)) as [|y l IH]; intros j;
          cbn [JsArray.indexOf]; [discriminate|].
        destruct (Nat.eqb y r) eqn:Ey.
        - apply Nat.eqb_eq in Ey. intros _. left. exact Ey.
        - destruct (JsArray.indexOf r l) as [k|]; cbn; [|discriminate].
          intros _. right. apply (IH k eq_refl). }
      apply (count_occ_In Nat.eq_dec) in Hin. lia. }
    apply detachRouter_absent. exact Hnone.
Qed.

Section DispatchComposition.

Context {St : Type} (invoke : nat -> St -> St * completion AnyType).

Lemma handle_loop_cons (h : nat) (rest : list nat) (st : St) :
  handle_loop St invoke (h :: rest) st
  = match invoke h st with
    | (st', Normal r) =>
        if is_UNHANDLED r then
          let '(st'', res, tr) := handle_loop St invoke rest st' in (st'', res, h :: tr)
        else (st', Normal r, [h])
    | (st', Throw m) => (st', Throw m, [h])
    end.
Proof. reflexivity. Qed.

Lemma handle_loop_app (xs ys : list nat) (st : St) :
  handle_loop St invoke (xs ++ ys) st
  = let '(st1, r1, t1) := handle_loop St invoke xs st in
    match r1 with
    | Normal UNHANDLED =>
        let '(st2, r2, t2) := handle_loop St invoke ys st1 in (st2, r2, t1 ++ t2)
    | _ => (st1, r1, t1)
    end.
Proof.
  revert st. induction xs as [|h xs IH]; intros st.
  - cbn [app handle_loop]. destruct (handle_loop St invoke ys st) as [[st2 r2] t2].
    reflexivity.
  - cbn [app]. rewrite !handle_loop_cons.
    destruct (invoke h st) as [st' [r|m]]; [|reflexivity].
    destruct r as [p| |]; cbn [is_UNHANDLED]; try reflexivity.
    rewrite IH. destruct (handle_loop St invoke xs st') as [[st1 r1] t1].
    destruct r1 as [[p| |]|m]; try reflexivity.
    destruct (handle_loop St invoke ys st1) as [[st2 r2] t2]. reflexivity.
Qed.

End DispatchComposition.

(** X3. Dispatch composes over the target list: dispatching over a list
    made of two parts is dispatching over the first part and, only when
    that answers UNHANDLED, dispatching over the second part from the
    state the first part left; the targets invoked are those of the
    first part followed by those of the second. *)
Theorem dispatch_over_concatenated_targets
        (St : Type) (invoke : nat -> St -> St * completion AnyType)
        (xs ys : list nat) (st : St) :
  handle_loop St invoke (xs ++ ys) st
  = let '(st1, r1, t1) := handle_loop St invoke xs st in
    match r1 with
    | Normal UNHANDLED =>
        let '(st2, r2, t2) := handle_loop St invoke ys st1 in (st2, r2, t1 ++ t2)
    | _ => (st1, r1, t1)
    end.
Proof. apply handle_loop_app. Qed.

(** X4. Nesting is transparent to dispatch. When a target of a router is
    the [handle] of a sub-router, dispatching over that target followed
    by the later siblings gives the state and the result of dispatching
    over the sub-router's own targets, as they are when the target is
    reached, followed by the siblings: depth first, left to right, first
    match wins, and a sub-router registered before a sibling is asked
    before it. *)
Theorem subrouter_is_spliced_into_dispatch
        (St : Type) (invoke : nat -> St -> St * completion AnyType)
        (subHandlers : St -> list nat) (h : nat) (post : list nat) (st : St) :
  invoke h st = SubRouter.routerTarget St invoke subHandlers st ->
  SubRouter.outcome (handle_loop St invoke (h :: post) st)
  = SubRouter.outcome (handle_loop St invoke (subHandlers st ++ post) st).
Proof.
  intros Hh. rewrite handle_loop_cons, handle_loop_app, Hh.
  unfold SubRouter.routerTarget, handle.
  destruct (handle_loop St invoke (subHandlers st) st) as [[st1 r1] t1].
  destruct r1 as [[p| |]|m]; cbn [is_UNHANDLED]; try reflexivity.
  destruct (handle_loop St invoke post st1) as [[st2 r2] t2]. reflexivity.
Qed.

Lemma subrouter_is_spliced_into_dispatch_witness :
  SubRouter.outcome (handle_loop nat NestedRouters.invoke (0 :: [3]) 5)
  = SubRouter.outcome (handle_loop nat NestedRouters.invoke ((fun _ => [1; 2]) 5 ++ [3]) 5).
Proof.
  apply (subrouter_is_spliced_into_dispatch nat NestedRouters.invoke (fun _ => [1; 2]) 0 [3] 5).
  vm_compute. reflexivity.
Defined.

Section PreconditionFacts.

Import RouteListener PreconditionSpec.
Variable cb : Callbacks.
Variable req : Request.

Lemma checkPreConditions_app (ps1 ps2 : list preCondition) (w : World) :
  checkPreConditions cb req (ps1 ++ ps2) w
  = match checkPreConditions cb req ps1 w with
    | (w1, Normal true) => checkPreConditions cb req ps2 w1
    | other => other
    end.
Proof.
  revert w. induction ps1 as [|p ps1 IH]; intros w; [reflexivity|].
  cbn [app checkPreConditions].
  destruct (evalPreCondition cb req p w) as [w' [[|]|m]]; try reflexivity.
  apply IH.
Qed.

Lemma checkPreConditions_allHold (ps : list preCondition) (w : World) :
  allHold cb req ps w ->
  checkPreConditions cb req ps w = (worldAfter cb req ps w, Normal true).
Proof.
  revert w. induction ps as [|p ps IH]; intros w; [reflexivity|].
  cbn [allHold worldAfter checkPreConditions]. intros [Hp Hps].
  destruct (evalPreCondition cb req p w) as [w' c]. cbn [fst snd] in *. subst c.
  apply IH. exact Hps.
Qed.

(** The first precondition that does not answer true decides. *)
Lemma checkPreConditions_stop (pre : list preCondition) (p : preCondition)
      (post : list preCondition) (w : World) :
  allHold cb req pre w ->
  snd (evalPreCondition cb req p (worldAfter cb req pre w)) <> Normal true ->
  checkPreConditions cb req (pre ++ p :: post) w
  = evalPreCondition cb req p (worldAfter cb req pre w).
Proof.
  intros Hpre Hp. rewrite checkPreConditions_app, (checkPreConditions_allHold pre w Hpre).
  cbn [checkPreConditions].
  destruct (evalPreCondition cb req p (worldAfter cb req pre w)) as [w' [[|]|m]];
    cbn [snd] in Hp; [congruence|reflexivity|reflexivity].
Qed.



(** A listener whose pattern matches, by the first precondition that
    does not answer true. *)
Lemma wrappedRouteHandler_stop (lst : Listener) (pre : list preCondition)
      (p : preCondition) (post : list preCondition) (w : World) :
  RegExp.test (pathAsRegExp lst) (path req) = true ->
  preConditions lst = pre ++ p :: post ->
  allHold cb req pre w ->
  snd (evalPreCondition cb req p (worldAfter cb req pre w)) <> Normal true ->
  wrappedRouteHandler cb req lst w
  = (fst (evalPreCondition cb req p (worldAfter cb req pre w)),
     match snd (evalPreCondition cb req p (worldAfter cb req pre w)) with
     | Normal _ => Normal UNHANDLED
     | Throw m => Throw m
     end).
Proof.
  intros Et Eps Hpre Hp. unfold wrappedRouteHandler. rewrite Et. cbn [negb].
  rewrite Eps, (checkPreConditions_stop pre p post w Hpre Hp).
  destruct (evalPreCondition cb req p (worldAfter cb req pre w)) as [w' [[|]|m]];
    cbn [fst snd] in *; [congruence|reflexivity|reflexivity].
Qed.


End PreconditionFacts.

(** X5. The preconditions of a listener are evaluated in the order of
    the list, to which [addPreCondition] appends, and evaluation stops
    at the first that does not answer true. When the pattern matches,
    the preconditions before [p] answer true and [p] answers false, the
    listener answers UNHANDLED and the world is as [p] left it, whatever
    preconditions come after [p] and whatever the route handler is:
    they are not reached. When [p] throws, the listener throws. *)
Theorem preconditions_stop_at_first_failure
        (cb : Callbacks) (req : Request) (lst : Listener)
        (pre : list preCondition) (p : preCondition) (post : list preCondition)
        (w : World) :
  RegExp.test (pathAsRegExp lst) (path req) = true ->
  preConditions lst = pre ++ p :: post ->
  PreconditionSpec.allHold cb req pre w ->
  snd (RouteListener.evalPreCondition cb req p (PreconditionSpec.worldAfter cb req pre w))
  <> Normal true ->
  let stopped :=
    RouteListener.evalPreCondition cb req p (PreconditionSpec.worldAfter cb req pre w) in
  let answer :=
    (fst stopped, match snd stopped with
                  | Normal _ => Normal UNHANDLED
                  | Throw m => Throw m
                  end) in
  RouteListener.checkPreConditions cb req (preConditions lst) w = stopped
  /\ RouteListener.wrappedRouteHandler cb req lst w = answer
  /\ (forall (post' : list preCondition) (h' : nat),
         RouteListener.wrappedRouteHandler cb req
           {| pathAsRegExp := pathAsRegExp lst;
              preConditions := pre ++ p :: post';
              routeHandler := h' |} w
         = answer)
  /\ (forall (l : nat) (q : preCondition) (rt : Router),
         table rt !! l = Some lst ->
         preConditions <$> table (RouterContext.addPreCondition l q rt) !! l
         = Some (pre ++ p :: post ++ [q])).
Proof.
  intros Et Eps Hpre Hp stopped answer. subst stopped answer.
  split; [rewrite Eps; apply checkPreConditions_stop; assumption|].
  split; [apply (wrappedRouteHandler_stop cb req lst pre p post); assumption|].
  split.
  - intros post' h'.
    apply (wrappedRouteHandler_stop cb req _ pre p post'); [exact Et|reflexivity| |];
      assumption.
  - intros l q rt Hl. unfold RouterContext.addPreCondition. cbn [table].
    rewrite lookup_alter_eq, Hl. cbn. rewrite Eps, <- app_assoc. reflexivity.
Qed.

Lemma preconditions_stop_at_first_failure_witness :
  RouteListener.wrappedRouteHandler MethodRoutes.callbacks
    {| method := "POST"; path := "/a"; accept := None |}
    PreconditionSpec.getOnly RoutedApplication.world
  = (RoutedApplication.world, Normal UNHANDLED).
Proof.
  apply (preconditions_stop_at_first_failure MethodRoutes.callbacks
           {| method := "POST"; path := "/a"; accept := None |}
           PreconditionSpec.getOnly [] (MethodIs "GET") [UserPreCondition 0]
           RoutedApplication.world).
  - vm_compute. reflexivity.
  - reflexivity.
  - exact I.
  - vm_compute. discriminate.
Defined.


(** X7. Updates of a listener are local and preconditions only
    accumulate. [replaceHandler] changes the handler of its listener and
    keeps its pattern and preconditions; [addPreCondition] appends one
    precondition and keeps the pattern and the handler; neither touches
    another listener, the prefix or the identities in use; and the two
    commute. *)
Theorem listener_updates_are_local (l h : nat) (p : preCondition) (rt : Router) :
  table (SubRouter.replaceHandler l h rt) !! l
  = (fun lst => {| pathAsRegExp := pathAsRegExp lst;
                   preConditions := preConditions lst;
                   routeHandler := h |}) <$> table rt !! l
  /\ table (RouterContext.addPreCondition l p rt) !! l
     = (fun lst => {| pathAsRegExp := pathAsRegExp lst;
                      preConditions := preConditions lst ++ [p];
                      routeHandler := routeHandler lst |}) <$> table rt !! l
  /\ (forall l', l' <> l ->
        table (SubRouter.replaceHandler l h rt) !! l' = table rt !! l'
        /\ table (RouterContext.addPreCondition l p rt) !! l' = table rt !! l')
  /\ SubRouter.replaceHandler l h (RouterContext.addPreCondition l p rt)
     = RouterContext.addPreCondition l p (SubRouter.replaceHandler l h rt)
  /\ prefix (SubRouter.replaceHandler l h rt) = prefix rt
  /\ fresh (SubRouter.replaceHandler l h rt) = fresh rt.
Proof.
  unfold SubRouter.replaceHandler, RouterContext.addPreCondition. cbn [table prefix fresh].
  split; [apply lookup_alter_eq|]. split; [apply lookup_alter_eq|]. split.
  - intros l' Hne. split; apply lookup_alter_ne; congruence.
  - split; [|split; reflexivity]. f_equal.
    apply map_eq. intros k. destruct (decide (k = l)) as [->|Hne].
    + rewrite !lookup_alter_eq. destruct (table rt !! l); reflexivity.
    + rewrite !lookup_alter_ne by congruence. reflexivity.
Qed.

Section DuplicateFacts.

Import JsString RegExp RouterContext PathSpec RegistrationSpec.
Local Open Scope string_scope.

Lemma finish_after_paren (s : string) :
  exists x, finish (String ")" s) = String ")" x.
Proof.
  destruct s as [|c [|d s]].
  - eexists. reflexivity.
  - destruct c as [[] [] [] [] [] [] [] []]; eexists; reflexivity.
  - change (String ")" (String c (String d s))) with (")" ++ String c (String d s)).
    rewrite finish_prefix by (cbn; lia). eexists. reflexivity.
Qed.

(** The source text of a path in front of a parameter segment. *)
Lemma regExpSource_param (pfx p : string) (pre post : list string) (n : string) :
  segments pfx p = (pre ++ String ":" n :: post)%list ->
  exists x,
    regExpSource pfx p
    = String "^" (textBefore (map paramCutout pre) ++ "(?<" ++ n ++ ">[^/]+)" ++ x).
Proof.
  intros E. rewrite regExpSource_finish, E, map_app. cbn [map].
  rewrite join_middle.
  assert (Hc : paramCutout (String ":" n) = "(?<" ++ n ++ ">[^/]+)").
  { unfold paramCutout. change (String ":" n) with (":" ++ n) at 1.
    rewrite startsWith_app. reflexivity. }
  rewrite Hc. clear Hc.
  replace ("(?<" ++ n ++ ">[^/]+)") with (("(?<" ++ n ++ ">[^/]") ++ "+)")
    by (rewrite !append_assoc; reflexivity).
  rewrite (append_assoc _ "+)"), <- (append_assoc (textBefore _)).
  rewrite finish_prefix by (rewrite length_append; cbn; lia).
  change ("+)" ++ ?t) with (String "+" (String ")" t)).
  change (String "+" (String ")" ?t)) with ("+" ++ String ")" t).
  destruct (textAfter (map paramCutout post)) as [|c t] eqn:Et.
  - exists "$". rewrite !append_assoc. reflexivity.
  - rewrite finish_prefix by (cbn; lia).
    destruct (finish_after_paren (String c t)) as [x Hx]. rewrite Hx.
    exists x. rewrite !append_assoc. reflexivity.
Qed.

Lemma parse_duplicate (n x : string) (pre : list string) :
  validName n = true ->
  forallb plainSeg pre = true ->
  forall acc,
    has_group n acc = true \/ In n (paramNames pre) ->
    parse_body (textBefore (map paramCutout pre) ++ "(?<" ++ n ++ ">[^/]+)" ++ x) 0 acc
    = SyntaxError.
Proof.
  intros Hn Hpre. induction pre as [|y pre IH]; intros acc Hor.
  - destruct Hor as [Hg|[]]. cbn [map textBefore]. rewrite append_nil_l.
    apply parse_group_dup; assumption.
  - cbn [forallb] in Hpre. apply andb_prop in Hpre as [Hy Hpre].
    cbn [map textBefore]. rewrite !append_assoc.
    destruct (isParam y && has_group (slice1 y) acc)%bool eqn:E.
    + apply andb_prop in E as [Ep Eg].
      unfold plainSeg in Hy. rewrite Ep in Hy.
      unfold paramCutout. unfold isParam in Ep. rewrite Ep.
      rewrite !append_assoc. apply parse_group_dup; assumption.
    + rewrite parse_segment_slash.
      * apply (IH Hpre).
        change (has_group n (slash :: ?l)) with (has_group n l).
        rewrite has_group_segItems.
        destruct Hor as [Hg|Hin]; [left; rewrite Hg; apply Bool.orb_true_r|].
        rewrite paramNames_cons in Hin. apply in_app_or in Hin as [Hin|Hin]; [|right; exact Hin].
        left. destruct (isParam y); [|contradiction].
        destruct Hin as [<-|[]]. rewrite String.eqb_refl. reflexivity.
      * exact Hy.
      * intros Ep. rewrite Ep in E. cbn [andb] in E. exact E.
Qed.

End DuplicateFacts.

(** X8. A route path that uses the same parameter name twice is
    rejected when it is registered: with plain segments in front of the
    second use, building the pattern is a syntax error, and [any] and
    [add] throw. *)
Theorem duplicate_parameter_name_fails_at_registration
        (pfx p : string) (pre post : list string) (n : string) :
  PathSpec.segments pfx p = pre ++ String ":" n :: post ->
  forallb PathSpec.plainSeg pre = true ->
  In n (PathSpec.paramNames pre) ->
  RouterContext.getPathRegExp pfx p = RegExp.SyntaxError
  /\ (forall (h : nat) (rt : Router) (w : World),
         prefix rt = pfx ->
         RouterContext.any p h rt w = RouterContext.RegistrationThrows
         /\ forall m, RouterContext.add m p h rt w = RouterContext.RegistrationThrows).
Proof.
  intros E Hpre Hin.
  assert (Hn : PathSpec.validName n = true).
  { clear - Hpre Hin. induction pre as [|y pre IH]; [contradiction|].
    cbn [forallb] in Hpre. apply andb_prop in Hpre as [Hy Hpre].
    rewrite paramNames_cons in Hin. apply in_app_or in Hin as [Hin|Hin]; [|auto].
    unfold PathSpec.plainSeg in Hy. destruct (PathSpec.isParam y); [|contradiction].
    destruct Hin as [<-|[]]. exact Hy. }
  assert (Hre : RouterContext.getPathRegExp pfx p = RegExp.SyntaxError).
  { destruct (regExpSource_param _ _ _ _ _ E) as [x Hx].
    unfold RouterContext.getPathRegExp. rewrite Hx. apply create_caret; [|discriminate].
    apply parse_duplicate; auto. }
  split; [exact Hre|]. intros h rt w Hrt.
  assert (Hany : RouterContext.any p h rt w = RouterContext.RegistrationThrows).
  { unfold RouterContext.any. rewrite Hrt, Hre. reflexivity. }
  split; [exact Hany|]. intros m. unfold RouterContext.add. rewrite Hany. reflexivity.
Qed.

Lemma duplicate_parameter_name_fails_at_registration_witness :
  RouterContext.getPathRegExp "/" "/users/:id/posts/:id" = RegExp.SyntaxError
  /\ (forall (h : nat) (rt : Router) (w : World),
         prefix rt = "/" ->
         RouterContext.any "/users/:id/posts/:id" h rt w = RouterContext.RegistrationThrows
         /\ forall m, RouterContext.add m "/users/:id/posts/:id" h rt w
                      = RouterContext.RegistrationThrows).
Proof.
  apply (duplicate_parameter_name_fails_at_registration "/" "/users/:id/posts/:id"
           [""; "users"; ":id"; "posts"] [] "id").
  - vm_compute. reflexivity.
  - vm_compute. reflexivity.
  - left. reflexivity.
Defined.

Section CaptureFacts.

Import JsString RegExp PathSpec MatchSpec.

Lemma segMatch_values (p r : string) (c : captures) :
  segMatch p r = Some c ->
  forall n v, In (n, v) c -> v = r /\ v <> EmptyString.
Proof.
  unfold segMatch. destruct (isParam p).
  - destruct (String.eqb r "") eqn:E; [discriminate|].
    intros [= <-] n v [[= <- <-]|[]]. split; [reflexivity|].
    apply String.eqb_neq. exact E.
  - destruct (String.eqb p r); [|discriminate]. intros [= <-] n v [].
Qed.

Lemma andThen_Some (a b : option captures) (c : captures) :
  andThen a b = Some c -> exists x y, a = Some x /\ b = Some y /\ c = (x ++ y)%list.
Proof.
  destruct a as [x|], b as [y|]; cbn; try discriminate.
  intros [= <-]. eauto.
Qed.

Lemma specMatch_values (segs : list string) :
  forall rs caps,
    specMatch segs rs = Some caps ->
    forall n v, In (n, v) caps -> In v rs /\ v <> EmptyString.
Proof.
  induction segs as [|p ps IH]; intros rs caps H n v Hin.
  - destruct rs; [|discriminate]. injection H as <-. contradiction.
  - assert (Hstep : forall l r,
               ps = l :: r ->
               (r = [] -> String.eqb l "" = false /\ String.eqb l "*" = false) ->
               In v rs /\ v <> EmptyString).
    { intros l r -> Hr. destruct rs as [|r0 rs]; [rewrite specMatch_nil in H; discriminate|].
      rewrite (specMatch_step _ _ _ _ _ Hr) in H.
      apply andThen_Some in H as (x & y & Hx & Hy & ->).
      apply in_app_or in Hin as [Hin|Hin].
      - destruct (segMatch_values _ _ _ Hx _ _ Hin) as [-> Hne]. split; [left; reflexivity|exact Hne].
      - destruct (IH _ _ Hy _ _ Hin) as [Hv Hne]. split; [right; exact Hv|exact Hne]. }
    assert (Hfirst : forall r0 rest, rs = r0 :: rest -> segMatch p r0 = Some caps ->
                                     In v rs /\ v <> EmptyString).
    { intros r0 rest -> Hm. destruct (segMatch_values _ _ _ Hm _ _ Hin) as [-> Hne].
      split; [left; reflexivity|exact Hne]. }
    destruct ps as [|l r].
    + cbn [specMatch] in H. destruct rs as [|r0 [|r1 rs]]; try discriminate.
      apply (Hfirst r0 [] eq_refl H).
    + destruct r as [|m r]; [|apply (Hstep l (m :: r) eq_refl); discriminate].
      destruct (String.eqb l "") eqn:E1; [|destruct (String.eqb l "*") eqn:E2].
      * cbn [specMatch] in H. rewrite E1 in H.
        destruct rs as [|r0 [|e [|f rs]]]; try discriminate.
        -- apply (Hfirst r0 [] eq_refl H).
        -- destruct (String.eqb e ""); [|discriminate]. apply (Hfirst r0 [e] eq_refl H).
      * cbn [specMatch] in H. rewrite E1, E2 in H.
        destruct rs as [|r0 [|e rs]]; try discriminate.
        apply (Hfirst r0 (e :: rs) eq_refl H).
      * apply (Hstep l [] eq_refl). auto.
Qed.

End CaptureFacts.

(** X9. The parameters of a route with plain segments are bound to whole
    segments of the request path: when the pattern matches, [groups] has
    exactly the parameter names of the path, in path order, and every
    value is one of the segments of the request path, so it is not empty
    and contains no slash. *)
Theorem parameters_are_bound_to_request_segments
        (pfx p req : string) (re : RegExp.regex) (caps : RegExp.captures) :
  PathSpec.plainPath (PathSpec.segments pfx p) = true ->
  RouterContext.getPathRegExp pfx p = RegExp.Compiled re ->
  RegExp.exec re req = Some (Some caps) ->
  map fst caps = PathSpec.paramNames (PathSpec.segments pfx p)
  /\ forall n v, In (n, v) caps ->
       In v (JsString.split "/" req) /\ v <> EmptyString /\ MatchSpec.slashFree v.
Proof.
  intros Hp Hre Hex.
  destruct (plain_path_helper pfx p Hp) as (re' & Hre' & Hall).
  rewrite Hre in Hre'. injection Hre' as <-.
  destruct (Hall req) as (Hrun & Hnames).
  unfold RegExp.exec in Hex. rewrite Hrun in Hex.
  destruct (PathSpec.specMatch (PathSpec.segments pfx p) (JsString.split "/" req))
    as [c|] eqn:Es; [|discriminate].
  destruct (RegExp.has_named_groups re); [|discriminate].
  injection Hex as <-. split.
  - rewrite <- Hnames. unfold RegExp.groupNames. eapply run_names. exact Hrun.
  - intros n v Hin. destruct (specMatch_values _ _ _ Es _ _ Hin) as [Hv Hne].
    split; [exact Hv|]. split; [exact Hne|].
    pose proof (split_free "/" req) as Hfree. rewrite Forall_forall in Hfree.
    apply Hfree. apply list_elem_of_In. exact Hv.
Qed.

Lemma parameters_are_bound_to_request_segments_witness :
  map fst [("id", "42"); ("post", "7")]
  = PathSpec.paramNames (PathSpec.segments "/api" "/users/:id/posts/:post")
  /\ forall n v, In (n, v) [("id", "42"); ("post", "7")] ->
       In v (JsString.split "/" "/api/users/42/posts/7")
       /\ v <> EmptyString /\ MatchSpec.slashFree v.
Proof.
  eapply (parameters_are_bound_to_request_segments "/api" "/users/:id/posts/:post"
            "/api/users/42/posts/7").
  - vm_compute. reflexivity.
  - vm_compute. reflexivity.
  - vm_compute. reflexivity.
Defined.

(** * Further properties of the message context *)

Section UrlFacts.

Import Url.
Local Open Scope string_scope.

Lemma take_drop (c : ascii) (s : string) (i : nat) :
  indexOf c s = Some i ->
  s = take i s ++ String c (drop (i + 1) s) /\ indexOf c (take i s) = None.
Proof.
  revert i. induction s as [|a r IH]; intros i; cbn [indexOf]; [discriminate|].
  destruct (Ascii.eqb a c) eqn:E.
  - intros [= <-]. apply Ascii.eqb_eq in E. subst a. split; reflexivity.
  - destruct (indexOf c r) as [j|]; cbn [option_map]; [|discriminate].
    intros [= <-]. destruct (IH j eq_refl) as [H1 H2].
    cbn [take drop Nat.add]. rewrite append_cons. split.
    + f_equal. exact H1.
    + cbn [indexOf]. rewrite E, H2. reflexivity.
Qed.

End UrlFacts.

(** X10. The URL of a request is cut at its first question mark: the
    path of the message context has no question mark, the text given to
    the query parser is everything after the first one (later question
    marks stay in it), and path, question mark and query text put
    together are the URL again. A URL without a question mark is the
    path, and no query text is parsed. *)
Theorem url_is_path_then_query (url : string) :
  Url.indexOf "?" (fst (Url.pathAndQuery url)) = None
  /\ url = String.append (fst (Url.pathAndQuery url))
             (match snd (Url.pathAndQuery url) with
              | Some q => String "?" q
              | None => EmptyString
              end)
  /\ (snd (Url.pathAndQuery url) = None <-> Url.indexOf "?" url = None)
  /\ (snd (Url.pathAndQuery url) = None -> fst (Url.pathAndQuery url) = url).
Proof.
  unfold Url.pathAndQuery. destruct (Url.indexOf "?" url) as [i|] eqn:E; cbn [fst snd].
  - destruct (take_drop _ _ _ E) as [H1 H2].
    split; [exact H2|]. split; [exact H1|]. split; [split; discriminate|discriminate].
  - split; [exact E|]. split; [symmetry; apply append_nil_r|]. split; [tauto|reflexivity].
Qed.

(** X11. [accepts] never makes up a type: when it does not return
    [false], what it returns is one of the candidates as the caller wrote
    it (a shorthand is returned as the shorthand, not as its expansion). *)
Theorem accepts_returns_one_of_the_candidates
        (toNumber : string -> num)
        (engineOrder : list MessageContext.acceptEntry -> list MessageContext.acceptEntry) (req : Request) (types : list string) (v : string) :
  MessageContext.accepts toNumber engineOrder req types = Normal (Some v) -> In v types.
Proof. apply accepts_In. Qed.

Lemma accepts_returns_one_of_the_candidates_witness :
  In "json" ["html"; "json"].
Proof.
  apply (accepts_returns_one_of_the_candidates Decimal.toNumber MessageContext.unsorted
           (Negotiation.withAccept "application/*") ["html"; "json"] "json").
  vm_compute. reflexivity.
Defined.

Section NoAcceptFacts.

Import MessageContext.

Lemma scanTypes_other_major (resolved : list (string * option string * string)) :
  Forall (fun x => fst (fst x) <> EmptyString) resolved ->
  scanTypes EmptyString None resolved = None.
Proof.
  induction 1 as [|[[tf ts] v] r Hx Hr IH]; [reflexivity|].
  cbn [scanTypes]. cbn in Hx. destruct tf; [contradiction|]. cbn. exact IH.
Qed.

End NoAcceptFacts.

(** X12. A request without an accept header (or with an empty one) is
    not treated as accepting everything: [accepts] returns [false] for
    every list of candidates none of which is the name of a member of
    [Object.prototype] and each of which, after the expansion of
    shorthands, has a non-empty major type (the text before the slash). *)
Theorem no_accept_header_accepts_nothing
        (toNumber : string -> num)
        (engineOrder : list MessageContext.acceptEntry -> list MessageContext.acceptEntry) (req : Request) (types : list string) :
  accept req = None \/ accept req = Some EmptyString ->
  Forall (fun t => JsString.mem t MessageContext.objectPrototypeKeys = false
                   /\ fst (MessageContext.typePair (AcceptsSpec.expand t)) <> EmptyString)
         types ->
  MessageContext.accepts toNumber engineOrder req types = Normal None.
Proof.
  intros Hacc Hty. unfold MessageContext.accepts.
  destruct types as [|first rest]; [reflexivity|].
  rewrite resolveTypes_expand by (eapply Forall_impl; [exact Hty|]; cbn; tauto).
  cbn [cbind].
  assert (Hcalc : MessageContext.calc toNumber engineOrder req
                  = [{| MessageContext.mimeType := VString EmptyString;
                        MessageContext.q := VNumber (Fin 1) |}]).
  { unfold MessageContext.calc. destruct Hacc as [-> | ->]; reflexivity. }
  rewrite Hcalc. cbn [MessageContext.walk MessageContext.mimeType].
  change (String.eqb EmptyString "*/*") with false. cbv iota.
  change (MessageContext.typePair EmptyString) with (EmptyString, @None string).
  cbv iota. rewrite scanTypes_other_major; [reflexivity|].
  apply Forall_forall. intros x Hx. apply list_elem_of_In, in_map_iff in Hx as (t & <- & Ht).
  cbn [fst]. rewrite Forall_forall in Hty. apply Hty. apply list_elem_of_In. exact Ht.
Qed.

Lemma no_accept_header_accepts_nothing_witness :
  MessageContext.accepts Decimal.toNumber MessageContext.unsorted
    {| method := "GET"; path := "/"; accept := None |} ["html"; "json"; "image/*"]
  = Normal None.
Proof.
  apply (no_accept_header_accepts_nothing Decimal.toNumber MessageContext.unsorted
           {| method := "GET"; path := "/"; accept := None |} ["html"; "json"; "image/*"]).
  - left. reflexivity.
  - repeat (constructor; [split; [vm_compute; reflexivity|vm_compute; discriminate]|]).
    constructor.
Defined.

(** * Further properties of the query object *)

Section SplitFacts.
Import JsString.
Local Open Scope string_scope.

Lemma split_free_one (c : ascii) (x : string) : free c x -> split c x = [x].
Proof.
  unfold free. induction x as [|a r IH]; [reflexivity|].
  cbn [list_ascii_of_string forallb split]. intros H.
  apply andb_true_iff in H as [Ha Hr]. apply negb_true_iff in Ha.
  rewrite Ha, (IH Hr). reflexivity.
Qed.

Lemma split_app (c : ascii) (x r : string) :
  free c x -> split c (x ++ String c r) = x :: split c r.
Proof.
  unfold free. induction x as [|a x IH].
  - intros _. rewrite append_nil_l. cbn [split]. rewrite Ascii.eqb_refl. reflexivity.
  - cbn [list_ascii_of_string forallb]. intros H.
    apply andb_true_iff in H as [Ha Hr]. apply negb_true_iff in Ha.
    rewrite append_cons. cbn [split]. rewrite Ha, (IH Hr). reflexivity.
Qed.

Lemma split_join (c : ascii) (parts : list string) :
  parts <> [] -> Forall (free c) parts ->
  split c (join (String c EmptyString) parts) = parts.
Proof.
  unfold join. induction parts as [|x [|y ys] IH]; intros Hne Hall.
  - congruence.
  - cbn. apply split_free_one. inversion Hall; assumption.
  - rewrite concat_cons by discriminate.
    rewrite append_cons, append_nil_l.
    inversion Hall as [|? ? Hx Hrest]; subst.
    rewrite split_app by assumption. f_equal. apply IH; [discriminate|assumption].
Qed.

End SplitFacts.

Section QueryFacts.
Import JsString QueryObject QueryText.
Local Open Scope string_scope.

Variable decode : string -> option string.

Lemma plainPart_free (x : string) :
  plainPart x = true -> free "&" x /\ free "=" x.
Proof.
  unfold plainPart, free. induction (list_ascii_of_string x) as [|a l IH]; cbn [forallb].
  - split; reflexivity.
  - intros H. apply andb_true_iff in H as [Ha Hl].
    apply andb_true_iff in Ha as [Ha1 Ha2]. destruct (IH Hl) as [H1 H2].
    rewrite Ha1, Ha2, H1, H2. split; reflexivity.
Qed.

Lemma free_app (c : ascii) (x y : string) : free c x -> free c y -> free c (x ++ y).
Proof.
  unfold free. intros Hx Hy.
  change list_ascii_of_string with PathSpec.chars. rewrite chars_app.
  rewrite forallb_app. unfold PathSpec.chars. rewrite Hx, Hy. reflexivity.
Qed.

Lemma itemText_free (p : pair) : plainPair p = true -> free "&" (itemText p).
Proof.
  unfold plainPair, itemText. destruct p as [k [v|]]; cbn [fst snd]; intros H.
  - apply andb_true_iff in H as [H Hv]. apply andb_true_iff in H as [Hk _].
    apply plainPart_free in Hk as [Hk _]. apply plainPart_free in Hv as [Hv _].
    apply free_app; [assumption|]. unfold free in *. cbn [list_ascii_of_string forallb].
    rewrite Hv. reflexivity.
  - apply andb_true_iff in H as [H _]. apply andb_true_iff in H as [Hk _].
    apply plainPart_free in Hk as [Hk _]. assumption.
Qed.

Lemma item_entry (p : pair) :
  plainPair p = true ->
  Forall (fun x => decode x = Some x) (partsOf [p]) ->
  option_map entryOf (decodeAll decode (split "=" (itemText p))) = Some (Some (entryFor p)).
Proof.
  unfold plainPair, itemText, entryFor, partsOf. destruct p as [k [v|]]; cbn [fst snd flat_map app]; intros H Hd.
  - apply andb_true_iff in H as [H Hv]. apply andb_true_iff in H as [Hk Hne].
    apply plainPart_free in Hk as [_ Hk]. apply plainPart_free in Hv as [_ Hv].
    rewrite split_app by assumption. rewrite split_free_one by assumption.
    inversion Hd as [|? ? Hdk Hd']; subst. inversion Hd' as [|? ? Hdv _]; subst.
    cbn [decodeAll]. rewrite Hdk, Hdv. cbn [option_map entryOf].
    apply negb_true_iff in Hne. rewrite Hne. reflexivity.
  - apply andb_true_iff in H as [H _]. apply andb_true_iff in H as [Hk Hne].
    apply plainPart_free in Hk as [_ Hk].
    rewrite split_free_one by assumption.
    inversion Hd as [|? ? Hdk _]; subst.
    cbn [decodeAll]. rewrite Hdk. cbn [option_map entryOf].
    apply negb_true_iff in Hne. rewrite Hne. reflexivity.
Qed.

Lemma items_entries (pairs : list pair) :
  forallb plainPair pairs = true ->
  Forall (fun x => decode x = Some x) (partsOf pairs) ->
  option_map (omap entryOf) (decodeItems decode (map itemText pairs))
  = Some (map entryFor pairs).
Proof.
  induction pairs as [|p r IH]; [reflexivity|].
  cbn [forallb]. intros H Hd. apply andb_true_iff in H as [Hp Hr].
  unfold partsOf in Hd. cbn [flat_map] in Hd. apply Forall_app in Hd as [Hd1 Hd2].
  assert (Hi := item_entry p Hp). unfold partsOf in Hi. cbn [flat_map] in Hi.
  rewrite app_nil_r in Hi. specialize (Hi Hd1).
  specialize (IH Hr Hd2).
  cbn [map decodeItems].
  destruct (decodeAll decode (split "=" (itemText p))) as [x|]; [|discriminate].
  destruct (decodeItems decode (map itemText r)) as [xs|]; [|discriminate].
  cbn [option_map] in *. cbn [omap option_bind list_omap].
  injection Hi as Hi. injection IH as IH.
  cbn. rewrite Hi. cbn. cbn in IH. rewrite IH. reflexivity.
Qed.

Lemma entriesOf_queryText (pairs : list pair) :
  pairs <> [] ->
  forallb plainPair pairs = true ->
  Forall (fun x => decode x = Some x) (partsOf pairs) ->
  entriesOf decode (queryText pairs) = Some (map entryFor pairs).
Proof.
  intros Hne Hp Hd. unfold entriesOf, queryText.
  rewrite (split_join "&").
  - apply items_entries; assumption.
  - destruct pairs; [congruence|discriminate].
  - apply Forall_forall. intros x Hx. apply list_elem_of_In in Hx.
    apply in_map_iff in Hx as [p [<- Hin]].
    apply itemText_free. rewrite forallb_forall in Hp. apply Hp. assumption.
Qed.

End QueryFacts.

Section QueryStore.
Import QueryObject.

Lemma valuesFor_unmentioned (name : string) (entries : list (string * arg)) :
  mentions name entries = false -> valuesFor name entries = [].
Proof.
  unfold mentions, valuesFor. induction entries as [|e r IH]; [reflexivity|].
  cbn [existsb flat_map]. destruct (String.eqb (fst e) name); [discriminate|].
  intros H. cbn in H. rewrite (IH H). reflexivity.
Qed.

Lemma addAll_lookup (entries : list (string * arg)) :
  forall q,
    forallb (fun e => negb (inherited (fst e))) entries = true ->
    exists q', addAll entries q = Normal q'
      /\ forall name,
           q' !! name =
           match q !! name with
           | Some l => Some (l ++ valuesFor name entries)
           | None => if mentions name entries then Some (valuesFor name entries) else None
           end.
Proof.
  induction entries as [|[n v] r IH]; intros q H.
  - exists q. split; [reflexivity|]. intros name. cbn.
    destruct (q !! name); [rewrite app_nil_r|]; reflexivity.
  - cbn [forallb fst] in H. apply andb_true_iff in H as [Hn Hr].
    apply negb_true_iff in Hn.
    cbn [addAll]. unfold add. rewrite Hn.
    destruct (q !! n) as [cur|] eqn:Eq; cbn [cbind].
    + destruct (IH (<[n := cur ++ texts v]> q) Hr) as (q' & Hq' & Hl).
      exists q'. split; [exact Hq'|].
      intros name. rewrite Hl. unfold valuesFor, mentions.
      cbn [flat_map existsb fst snd].
      destruct (String.eqb n name) eqn:E.
      * apply String.eqb_eq in E. subst name.
        rewrite lookup_insert_eq, Eq, app_assoc. reflexivity.
      * apply String.eqb_neq in E. rewrite lookup_insert_ne by exact E. reflexivity.
    + destruct (IH (<[n := texts v]> q) Hr) as (q' & Hq' & Hl).
      exists q'. split; [exact Hq'|].
      intros name. rewrite Hl. unfold valuesFor, mentions.
      cbn [flat_map existsb fst snd].
      destruct (String.eqb n name) eqn:E.
      * apply String.eqb_eq in E. subst name.
        rewrite lookup_insert_eq, Eq. reflexivity.
      * apply String.eqb_neq in E. rewrite lookup_insert_ne by exact E. reflexivity.
Qed.

Lemma addAll_throws (entries : list (string * arg)) :
  forall q,
    (forall name, inherited name = true -> q !! name = None) ->
    forallb (fun e => negb (inherited (fst e))) entries = false ->
    addAll entries q = Throw "TypeError".
Proof.
  induction entries as [|[n v] r IH]; intros q Hq H; [discriminate|].
  cbn [forallb fst] in H. cbn [addAll]. unfold add.
  destruct (inherited n) eqn:En.
  - rewrite (Hq n En). reflexivity.
  - cbn [negb andb] in H.
    assert (Hins : forall x, forall name, inherited name = true ->
                     (<[n := x]> q) !! name = None).
    { intros x name Hname. rewrite lookup_insert_ne; [apply Hq; exact Hname|].
      intros ->. congruence. }
    destruct (q !! n) as [cur|]; cbn [cbind]; apply IH; auto.
Qed.

Lemma noneInherited_entries (pairs : list QueryText.pair) :
  forallb (fun e => negb (inherited (fst e))) (map QueryText.entryFor pairs)
  = QueryText.noneInherited pairs.
Proof.
  unfold QueryText.noneInherited. induction pairs as [|p r IH]; [reflexivity|].
  cbn [map forallb]. rewrite IH. reflexivity.
Qed.

End QueryStore.

(** X13. A query string [k1=v1&k2&k3=v3...] whose keys and values contain
    no [&] or [=] and no escapes, and whose keys are not names of
    [Object.prototype], is read into a query object that holds, for every
    key, the values given for it in the order of the string: [getAll]
    returns them, [get] the first of them (the default for a key written
    without a value), and [has] is true for the keys of the string (and
    for the names found on [Object.prototype]). *)
Theorem query_string_values_are_kept_in_order
        (decode : string -> option string) (pairs : list QueryText.pair) :
  pairs <> [] ->
  forallb QueryText.plainPair pairs = true ->
  QueryText.noneInherited pairs = true ->
  Forall (fun x => decode x = Some x) (QueryText.partsOf pairs) ->
  exists q,
    QueryObject.from decode (QueryText.queryText pairs) = Normal q
    /\ forall name d,
         QueryObject.getAll name q
         = (if QueryObject.mentions name (map QueryText.entryFor pairs)
            then QueryObject.AllValues
                   (QueryObject.valuesFor name (map QueryText.entryFor pairs))
            else if QueryObject.inherited name then QueryObject.AllInherited name
                 else QueryObject.AllUndefined)
         /\ QueryObject.has name q
            = (QueryObject.mentions name (map QueryText.entryFor pairs)
               || QueryObject.inherited name)%bool
         /\ QueryObject.get name d q
            = match QueryObject.valuesFor name (map QueryText.entryFor pairs) with
              | v :: _ => Some v
              | [] => d
              end.
Proof.
  intros Hne Hp Hi Hd. unfold QueryObject.from.
  rewrite (entriesOf_queryText decode pairs Hne Hp Hd).
  destruct (addAll_lookup (map QueryText.entryFor pairs) ∅) as (q & Hq & Hl).
  { rewrite noneInherited_entries. exact Hi. }
  exists q. split; [exact Hq|]. intros name d.
  unfold QueryObject.getAll, QueryObject.has, QueryObject.get.
  rewrite Hl, lookup_empty.
  destruct (QueryObject.mentions name (map QueryText.entryFor pairs)) eqn:Em.
  - repeat split.
  - rewrite (valuesFor_unmentioned _ _ Em). repeat split.
Qed.

Lemma query_string_values_are_kept_in_order_witness :
  exists q,
    QueryObject.from Some "a=1&flag&a=3" = Normal q
    /\ QueryObject.getAll "a" q = QueryObject.AllValues ["1"; "3"]
    /\ QueryObject.has "flag" q = true
    /\ QueryObject.get "flag" (Some "off") q = Some "off".
Proof.
  destruct (query_string_values_are_kept_in_order Some
              [("a", Some "1"); ("flag", None); ("a", Some "3")]) as (q & Hq & H).
  - discriminate.
  - vm_compute. reflexivity.
  - vm_compute. reflexivity.
  - cbn. repeat constructor.
  - exists q. split; [exact Hq|].
    split; [exact (proj1 (H "a" None))|].
    split; [exact (proj1 (proj2 (H "flag" None)))|].
    exact (proj2 (proj2 (H "flag" (Some "off")))).
Defined.

(** X14. Reading a query string (of the same shape) in which some key is
    the name of a member of [Object.prototype], such as [toString] or
    [constructor], throws a TypeError: [add] finds the inherited member
    instead of creating a list. *)
Theorem query_string_with_prototype_name_throws
        (decode : string -> option string) (pairs : list QueryText.pair) :
  pairs <> [] ->
  forallb QueryText.plainPair pairs = true ->
  QueryText.noneInherited pairs = false ->
  Forall (fun x => decode x = Some x) (QueryText.partsOf pairs) ->
  QueryObject.from decode (QueryText.queryText pairs) = Throw "TypeError".
Proof.
  intros Hne Hp Hi Hd. unfold QueryObject.from.
  rewrite (entriesOf_queryText decode pairs Hne Hp Hd).
  apply addAll_throws.
  - intros name _. apply lookup_empty.
  - rewrite noneInherited_entries. exact Hi.
Qed.

Lemma query_string_with_prototype_name_throws_witness :
  QueryObject.from Some "page=2&toString=x" = Throw "TypeError".
Proof.
  apply (query_string_with_prototype_name_throws Some
           [("page", Some "2"); ("toString", Some "x")]).
  - discriminate.
  - vm_compute. reflexivity.
  - vm_compute. reflexivity.
  - cbn. repeat constructor.
Defined.

Section RangeFacts.
Import JsMath.

Lemma getAsNumber_not_NaN (toNumber : string -> num) (name : string)
      (d : option num) (q : QueryObject.t) :
  d <> Some NaN -> QueryObject.getAsNumber toNumber name d q <> Some NaN.
Proof.
  intros Hd. unfold QueryObject.getAsNumber.
  destruct (QueryObject.get name None q) as [value|]; [|exact Hd].
  destruct (toNumber value); cbn [JsNum.isNaN]; try discriminate. exact Hd.
Qed.

Lemma clamp_fin (a b y : Q) :
  (a <= b)%Q ->
  exists r, max (min (Fin y) (Fin b)) (Fin a) = Fin r /\ (a <= r)%Q /\ (r <= b)%Q.
Proof.
  intros Hab. cbn [min leb].
  destruct (Qcompare y b) eqn:Eyb; cbn [max leb].
  - apply Qeq_alt in Eyb. destruct (Qcompare y a) eqn:Eya.
    + exists a. split; [reflexivity|]. split; [apply Qle_refl|exact Hab].
    + exists a. split; [reflexivity|]. split; [apply Qle_refl|exact Hab].
    + apply Qgt_alt in Eya. exists y. split; [reflexivity|].
      split; [apply Qlt_le_weak; exact Eya|]. rewrite Eyb. apply Qle_refl.
  - apply Qlt_alt in Eyb. destruct (Qcompare y a) eqn:Eya.
    + exists a. split; [reflexivity|]. split; [apply Qle_refl|exact Hab].
    + exists a. split; [reflexivity|]. split; [apply Qle_refl|exact Hab].
    + apply Qgt_alt in Eya. exists y. split; [reflexivity|].
      split; apply Qlt_le_weak; assumption.
  - destruct (Qcompare b a) eqn:Eba.
    + exists a. split; [reflexivity|]. split; [apply Qle_refl|exact Hab].
    + exists a. split; [reflexivity|]. split; [apply Qle_refl|exact Hab].
    + exists b. split; [reflexivity|]. split; [exact Hab|apply Qle_refl].
Qed.

End RangeFacts.

(** X15. [getAsNumberInRange] with finite bounds [min <= max] returns a
    finite number within the bounds, whatever is stored under the name
    (nothing, text that is not a number, an infinity), as long as the
    default, when one is given, is not NaN. *)
Theorem number_in_range_is_within_bounds
        (toNumber : string -> num) (name : string) (a b : Q) (d : option num)
        (q : QueryObject.t) :
  (a <= b)%Q ->
  d <> Some NaN ->
  exists r,
    QueryObject.getAsNumberInRange toNumber name (Fin a) (Fin b) d q = Fin r
    /\ (a <= r)%Q /\ (r <= b)%Q.
Proof.
  intros Hab Hd. unfold QueryObject.getAsNumberInRange.
  pose proof (getAsNumber_not_NaN toNumber name d q Hd) as Hn.
  destruct (QueryObject.getAsNumber toNumber name d q) as [[|y| |]|].
  - congruence.
  - apply clamp_fin. exact Hab.
  - change (JsMath.min PosInf (Fin b)) with (Fin b).
    destruct (clamp_fin a b b Hab) as (r & Hr & Hbounds).
    exists r. split; [|exact Hbounds]. rewrite <- Hr.
    cbn [JsMath.min JsMath.leb]. rewrite (proj1 (Qeq_alt b b) (Qeq_refl b)). reflexivity.
  - exists a. split; [reflexivity|]. split; [apply Qle_refl|exact Hab].
  - apply clamp_fin. exact Hab.
Qed.

Lemma number_in_range_is_within_bounds_witness :
  exists r,
    QueryObject.getAsNumberInRange Decimal.toNumber "limit" (Fin 1) (Fin 100) None
      (<["limit" := ["250"]]> ∅)
    = Fin r
    /\ (1 <= r)%Q /\ (r <= 100)%Q.
Proof.
  apply (number_in_range_is_within_bounds Decimal.toNumber "limit" 1 100 None).
  - discriminate.
  - discriminate.
Defined.

(** X16. [set] stores a list under any name other than [__proto__], also
    under one that names a member of [Object.prototype]; a following
    [add] for the name appends to the stored list, and neither call
    touches another name. *)
Theorem set_then_add_appends
        (name : string) (v1 v2 : QueryObject.arg) (q : QueryObject.t) :
  name <> "__proto__"%string ->
  exists q1 q2,
    QueryObject.set name v1 q = Some q1
    /\ QueryObject.add name v2 q1 = Normal q2
    /\ QueryObject.getAll name q1 = QueryObject.AllValues (QueryObject.texts v1)
    /\ QueryObject.getAll name q2
       = QueryObject.AllValues (QueryObject.texts v1 ++ QueryObject.texts v2)
    /\ forall other, other <> name ->
         QueryObject.getAll other q1 = QueryObject.getAll other q
         /\ QueryObject.getAll other q2 = QueryObject.getAll other q.
Proof.
  intros Hname. unfold QueryObject.set, QueryObject.add, QueryObject.getAll.
  apply String.eqb_neq in Hname. rewrite Hname.
  eexists _, _. split; [reflexivity|].
  rewrite lookup_insert_eq. split; [reflexivity|]. split; [reflexivity|].
  rewrite lookup_insert_eq. split; [reflexivity|].
  intros other Hother.
  rewrite !lookup_insert_ne by congruence. split; reflexivity.
Qed.

Lemma set_then_add_appends_witness :
  exists q1 q2,
    QueryObject.set "toString" (QueryObject.Value "a") ∅ = Some q1
    /\ QueryObject.add "toString" (QueryObject.Values ["b"; "c"]) q1 = Normal q2
    /\ QueryObject.getAll "toString" q2 = QueryObject.AllValues ["a"; "b"; "c"].
Proof.
  destruct (set_then_add_appends "toString" (QueryObject.Value "a")
              (QueryObject.Values ["b"; "c"]) ∅) as (q1 & q2 & H1 & H2 & _ & H4 & _).
  - discriminate.
  - exists q1, q2. split; [exact H1|]. split; [exact H2|exact H4].
Defined.

(** * Further properties of the header container *)

Section HeaderNameFacts.
Import JsString Headers.
Local Open Scope string_scope.

Ltac ascii_cases a :=
  destruct a as [[] [] [] [] [] [] [] []]; try discriminate; reflexivity.

Lemma lower_upper_ascii (a : ascii) : lower_ascii (upper_ascii a) = lower_ascii a.
Proof. ascii_cases a. Qed.

Lemma lower_ascii_idem (a : ascii) : lower_ascii (lower_ascii a) = lower_ascii a.
Proof. ascii_cases a. Qed.

Lemma toLowerCase_idem (s : string) : toLowerCase (toLowerCase s) = toLowerCase s.
Proof.
  unfold toLowerCase. induction s as [|a r IH]; [reflexivity|].
  cbn [map_string]. rewrite lower_ascii_idem, IH. reflexivity.
Qed.

Lemma capitalise_eq (b : bool) (a : ascii) (r : string) :
  capitalise b (String a r)
  = if (b && is_lower a)%bool then String (upper_ascii a) (capitalise false r)
    else if Ascii.eqb a "-" then
      match r with
      | String c r' =>
          if is_lower c then String "-" (String (upper_ascii c) (capitalise false r'))
          else String a (capitalise false r)
      | EmptyString => String a EmptyString
      end
    else String a (capitalise false r).
Proof. reflexivity. Qed.

Lemma toLowerCase_cons (a : ascii) (r : string) :
  toLowerCase (String a r) = String (lower_ascii a) (toLowerCase r).
Proof. reflexivity. Qed.

Lemma capitalise_lower_two (s : string) :
  (forall b, toLowerCase (capitalise b s) = toLowerCase s)
  /\ (forall a b, toLowerCase (capitalise b (String a s)) = toLowerCase (String a s)).
Proof.
  induction s as [|c s' [IH1 IH2]].
  - split; [reflexivity|]. intros a b. rewrite capitalise_eq.
    destruct (b && is_lower a)%bool.
    + rewrite !toLowerCase_cons, lower_upper_ascii. reflexivity.
    + destruct (Ascii.eqb a "-"); reflexivity.
  - split; [exact (IH2 c)|]. intros a b. rewrite capitalise_eq.
    destruct (b && is_lower a)%bool.
    + rewrite toLowerCase_cons, lower_upper_ascii, IH2. reflexivity.
    + destruct (Ascii.eqb a "-") eqn:Ea.
      * apply Ascii.eqb_eq in Ea. subst a. destruct (is_lower c).
        -- rewrite !toLowerCase_cons, lower_upper_ascii, IH1. reflexivity.
        -- rewrite toLowerCase_cons, IH2. reflexivity.
      * rewrite toLowerCase_cons, IH2. reflexivity.
Qed.

Lemma capitalise_lower (b : bool) (s : string) :
  toLowerCase (capitalise b s) = toLowerCase s.
Proof. apply capitalise_lower_two. Qed.

Lemma assoc_In_snd {A} (k : string) (l : list (string * A)) (v : A) :
  MessageContext.assoc k l = Some v -> In (k, v) l.
Proof.
  induction l as [|[k' v'] r IH]; cbn [MessageContext.assoc]; [discriminate|].
  destruct (String.eqb k' k) eqn:E.
  - intros [= ->]. apply String.eqb_eq in E. subst. left. reflexivity.
  - intros H. right. apply IH. exact H.
Qed.

Lemma irregular_lower (k v : string) :
  In (k, v) irregularHeaderNames -> toLowerCase v = k.
Proof.
  unfold irregularHeaderNames. cbn [In].
  intros H. repeat (destruct H as [[= <- <-]|H]; [reflexivity|]). destruct H.
Qed.

Lemma toHeaderName_lower (key s : string) :
  toHeaderName key = Name s -> toLowerCase s = toLowerCase key \/ toLowerCase s = key.
Proof.
  unfold toHeaderName.
  destruct (MessageContext.assoc key irregularHeaderNames) as [v|] eqn:Ea.
  - intros [= <-]. right. apply irregular_lower. apply assoc_In_snd. exact Ea.
  - destruct (inherited key); [discriminate|]. intros [= <-]. left.
    apply capitalise_lower.
Qed.

End HeaderNameFacts.

Section HeaderNameStable.
Import JsString Headers HeaderSpec.
Local Open Scope string_scope.

Ltac ascii_cases a :=
  destruct a as [[] [] [] [] [] [] [] []]; try discriminate; reflexivity.

Lemma upper_not_lower (a : ascii) : is_lower (upper_ascii a) = false.
Proof. ascii_cases a. Qed.

Lemma upper_not_dash (a : ascii) : is_lower a = true -> Ascii.eqb (upper_ascii a) "-" = false.
Proof. ascii_cases a. Qed.

Lemma upper_not_underscore (a : ascii) :
  is_lower a = true -> Ascii.eqb (upper_ascii a) "_" = false.
Proof. ascii_cases a. Qed.

Lemma capitalise_false_head (a : ascii) (r : string) :
  exists r', capitalise false (String a r) = String a r'.
Proof.
  rewrite capitalise_eq. cbn [andb]. destruct (Ascii.eqb a "-") eqn:Ea.
  - apply Ascii.eqb_eq in Ea. subst a. destruct r as [|c r']; [eexists; reflexivity|].
    destruct (is_lower c); eexists; reflexivity.
  - eexists; reflexivity.
Qed.

Lemma capitalise_true_false (a : ascii) (r : string) :
  is_lower a = false -> capitalise true (String a r) = capitalise false (String a r).
Proof. intros Ha. rewrite !capitalise_eq, Ha. reflexivity. Qed.

Lemma capitalise_false_idem_two (s : string) :
  capitalise false (capitalise false s) = capitalise false s
  /\ forall a, capitalise false (capitalise false (String a s))
               = capitalise false (String a s).
Proof.
  induction s as [|c s' [IH1 IH2]].
  - split; [reflexivity|]. intros a. rewrite capitalise_eq. cbn [andb].
    destruct (Ascii.eqb a "-") eqn:Ea.
    + rewrite capitalise_eq. cbn [andb]. rewrite Ea. reflexivity.
    + change (capitalise false "") with "". rewrite capitalise_eq. cbn [andb].
      rewrite Ea. reflexivity.
  - split; [exact (IH2 c)|]. intros a.
    rewrite (capitalise_eq false a (String c s')). cbn [andb].
    destruct (Ascii.eqb a "-") eqn:Ea.
    + apply Ascii.eqb_eq in Ea. subst a. destruct (is_lower c) eqn:Ec.
      * rewrite capitalise_eq. cbn [andb]. rewrite Ascii.eqb_refl, upper_not_lower.
        rewrite capitalise_eq. cbn [andb]. rewrite (upper_not_dash c Ec), IH1. reflexivity.
      * destruct (capitalise_false_head c s') as [r' Hr'].
        rewrite Hr'. rewrite capitalise_eq. cbn [andb]. rewrite Ascii.eqb_refl, Ec.
        rewrite <- Hr', (IH2 c). reflexivity.
    + rewrite capitalise_eq. cbn [andb]. rewrite Ea, (IH2 c). reflexivity.
Qed.

Lemma capitalise_true_idem (s : string) :
  capitalise true (capitalise true s) = capitalise true s.
Proof.
  destruct s as [|a r]; [reflexivity|]. destruct (is_lower a) eqn:Ea.
  - rewrite (capitalise_eq true a r), Ea. cbn [andb].
    rewrite capitalise_eq, upper_not_lower. cbn [andb].
    rewrite (upper_not_dash a Ea).
    rewrite (proj1 (capitalise_false_idem_two r)). reflexivity.
  - rewrite (capitalise_true_false a r Ea).
    destruct (capitalise_false_head a r) as [r' Hr'].
    rewrite Hr', (capitalise_true_false a r' Ea), <- Hr'.
    apply capitalise_false_idem_two.
Qed.

Lemma capitalise_noDash (s : string) :
  forall k, noDash k = true -> capitalise false s = k -> s = k.
Proof.
  unfold noDash. induction s as [|a r IH]; intros k Hk; [intros <-; reflexivity|].
  rewrite capitalise_eq. cbn [andb]. destruct (Ascii.eqb a "-") eqn:Ea.
  - apply Ascii.eqb_eq in Ea. subst a. intros Hc. exfalso.
    destruct r as [|c r']; [|destruct (is_lower c)]; subst k; discriminate.
  - intros <-. cbn [list_ascii_of_string forallb] in Hk.
    apply andb_true_iff in Hk as [_ Hk]. f_equal. apply (IH _ Hk eq_refl).
Qed.

Lemma capitalise_true_head (name : string) (c : ascii) (r : string) :
  capitalise true name = String c r -> is_lower c = false.
Proof.
  destruct name as [|a n]; [discriminate|]. destruct (is_lower a) eqn:Ea.
  - rewrite capitalise_eq, Ea. cbn [andb]. intros [= <- _]. apply upper_not_lower.
  - rewrite (capitalise_true_false a n Ea).
    destruct (capitalise_false_head a n) as [r' ->]. intros [= <- _]. exact Ea.
Qed.

Lemma fixedKey_origin (name k : string) :
  fixedKey k = true -> capitalise true name = k -> name = k.
Proof.
  destruct k as [|c k']; [discriminate|]. cbn [fixedKey]. intros Hk Hc.
  rewrite (capitalise_true_head name c k' Hc) in Hk. cbn [orb] in Hk.
  apply andb_true_iff in Hk as [Hu Hd]. apply Ascii.eqb_eq in Hu. subst c.
  destruct name as [|a n]; [discriminate|]. destruct (is_lower a) eqn:Ea.
  - exfalso. rewrite capitalise_eq, Ea in Hc. cbn [andb] in Hc.
    injection Hc as Hc _. pose proof (upper_not_underscore a Ea) as Hn.
    rewrite Hc in Hn. discriminate.
  - rewrite (capitalise_true_false a n Ea) in Hc. apply (capitalise_noDash _ _ Hd Hc).
Qed.

Lemma knownKeys_fixed (k : string) : In k knownKeys -> fixedKey k = true.
Proof.
  assert (H : forallb fixedKey knownKeys = true) by (vm_compute; reflexivity).
  rewrite forallb_forall in H. apply H.
Qed.

Lemma assoc_In_fst {A} (k : string) (l : list (string * A)) (v : A) :
  MessageContext.assoc k l = Some v -> In k (map fst l).
Proof.
  intros H. apply assoc_In_snd in H. apply in_map_iff. exists (k, v). split; [reflexivity|exact H].
Qed.

Lemma capitalise_unknown (name : string) :
  MessageContext.assoc name irregularHeaderNames = None ->
  inherited name = false ->
  MessageContext.assoc (capitalise true name) irregularHeaderNames = None
  /\ inherited (capitalise true name) = false.
Proof.
  intros Ha Hi. split.
  - destruct (MessageContext.assoc (capitalise true name) irregularHeaderNames) as [v|] eqn:E;
      [|reflexivity].
    exfalso. pose proof (assoc_In_fst _ _ _ E) as Hin.
    assert (Hk : In (capitalise true name) knownKeys) by (apply in_or_app; left; exact Hin).
    pose proof (fixedKey_origin name _ (knownKeys_fixed _ Hk) eq_refl) as Heq.
    rewrite <- Heq in E. congruence.
  - destruct (inherited (capitalise true name)) eqn:E; [|reflexivity].
    exfalso. unfold inherited, mem in E. apply existsb_exists in E as [k [Hin Hk]].
    apply String.eqb_eq in Hk. subst k.
    assert (Hk : In (capitalise true name) knownKeys) by (apply in_or_app; right; exact Hin).
    pose proof (fixedKey_origin name _ (knownKeys_fixed _ Hk) eq_refl) as Heq.
    assert (Hi' : inherited name = true).
    { unfold inherited, mem. apply existsb_exists. exists name. split.
      - rewrite Heq. exact Hin.
      - apply String.eqb_refl. }
    congruence.
Qed.

Lemma irregular_stable (k v : string) :
  In (k, v) irregularHeaderNames ->
  toLowerCase v = toLowerCase k /\ toHeaderName v = Name v.
Proof.
  unfold irregularHeaderNames. cbn [In].
  intros H.
  repeat (destruct H as [[= <- <-]|H]; [split; vm_compute; reflexivity|]). destruct H.
Qed.

End HeaderNameStable.

(** X17. The display name [toHeaderName] gives for a header key differs
    from the key in letter case only, and it is stable: [toHeaderName]
    maps it to itself. Hence looking a header up by its display name
    ([has], [get], [getAll]) gives what looking it up by the key gives. *)
Theorem header_display_name_is_stable (key s : string) (h : Headers.t) :
  Headers.toHeaderName key = Headers.Name s ->
  JsString.toLowerCase s = JsString.toLowerCase key
  /\ Headers.toHeaderName s = Headers.Name s
  /\ Headers.has s h = Headers.has key h
  /\ Headers.get s h = Headers.get key h
  /\ Headers.getAll s h = Headers.getAll key h.
Proof.
  intros H.
  assert (Hs : JsString.toLowerCase s = JsString.toLowerCase key
               /\ Headers.toHeaderName s = Headers.Name s).
  { unfold Headers.toHeaderName in H.
    destruct (MessageContext.assoc key Headers.irregularHeaderNames) as [v|] eqn:Ea.
    - injection H as <-. apply (irregular_stable key). apply assoc_In_snd. exact Ea.
    - destruct (Headers.inherited key) eqn:Ei; [discriminate|]. injection H as <-.
      split; [apply capitalise_lower|].
      destruct (capitalise_unknown key Ea Ei) as [Ha' Hi'].
      unfold Headers.toHeaderName. rewrite Ha', Hi', capitalise_true_idem. reflexivity. }
  destruct Hs as [Hl Hst]. split; [exact Hl|]. split; [exact Hst|].
  unfold Headers.has, Headers.get, Headers.getAll. rewrite Hl. repeat split.
Qed.

Lemma header_display_name_is_stable_witness :
  JsString.toLowerCase "Content-Type" = JsString.toLowerCase "content-type"
  /\ Headers.toHeaderName "Content-Type" = Headers.Name "Content-Type"
  /\ Headers.has "Content-Type" ∅ = Headers.has "content-type" ∅
  /\ Headers.get "Content-Type" ∅ = Headers.get "content-type" ∅
  /\ Headers.getAll "Content-Type" ∅ = Headers.getAll "content-type" ∅.
Proof.
  apply (header_display_name_is_stable "content-type" "Content-Type" ∅).
  vm_compute. reflexivity.
Defined.

(** X18. Header names are case-insensitive: after [set] under a name
    (other than [__proto__]), [has] is true for the name in any letter
    case, [getAll] returns the stored values and [get] the first of
    them. If nothing was stored (the value was [undefined] or an empty
    array), the header still exists and [get] throws a TypeError. *)
Theorem header_set_then_get
        (n1 n2 : string) (value : Response.headerArg) (h : Headers.t) :
  JsString.toLowerCase n1 = JsString.toLowerCase n2 ->
  JsString.toLowerCase n1 <> "__proto__"%string ->
  exists h',
    Headers.set n1 value h = Some h'
    /\ Headers.has n2 h' = true
    /\ Headers.getAll n2 h' = Normal (Some (Response.storedValues value))
    /\ Headers.get n2 h'
       = match Response.storedValues value with
         | v :: _ => Normal (Some v)
         | [] => Throw "TypeError"
         end
    /\ forall other, JsString.toLowerCase other <> JsString.toLowerCase n1 ->
         Headers.getAll other h' = Headers.getAll other h.
Proof.
  intros Hn Hp. unfold Headers.set. apply String.eqb_neq in Hp. rewrite Hp.
  eexists. split; [reflexivity|].
  unfold Headers.has, Headers.getAll, Headers.get, Response.headersSet.
  rewrite <- Hn, lookup_insert_eq. repeat split.
  intros other Ho. rewrite lookup_insert_ne by congruence. reflexivity.
Qed.

Lemma header_set_then_get_witness :
  exists h',
    Headers.set "X-Trace" Response.AUndef ∅ = Some h'
    /\ Headers.has "x-trace" h' = true
    /\ Headers.get "x-trace" h' = Throw "TypeError".
Proof.
  destruct (header_set_then_get "X-Trace" "x-trace" Response.AUndef ∅)
    as (h' & H1 & H2 & _ & H4 & _).
  - vm_compute. reflexivity.
  - discriminate.
  - exists h'. split; [exact H1|]. split; [exact H2|exact H4].
Defined.

(** X19. [add] collects the values given for a header under the
    lower-cased name, whatever the letter case of the calls; for a name
    that is not stored and whose lower-case form names a member of
    [Object.prototype] ([constructor], [__proto__]) it throws a
    TypeError. *)
Theorem header_add_accumulates
        (n1 n2 : string) (v1 v2 : Response.headerArg) (h : Headers.t) :
  JsString.toLowerCase n1 = JsString.toLowerCase n2 ->
  h !! JsString.toLowerCase n1 = None ->
  if Headers.inherited (JsString.toLowerCase n1)
  then Headers.add n1 v1 h = Throw "TypeError"
  else exists h1 h2,
      Headers.add n1 v1 h = Normal h1
      /\ Headers.add n2 v2 h1 = Normal h2
      /\ Headers.getAll n1 h2
         = Normal (Some (Response.storedValues v1 ++ Response.storedValues v2))
      /\ forall other, JsString.toLowerCase other <> JsString.toLowerCase n1 ->
           Headers.getAll other h2 = Headers.getAll other h.
Proof.
  intros Hn Hnone. unfold Headers.add. rewrite Hnone.
  destruct (Headers.inherited (JsString.toLowerCase n1)) eqn:Ei; [reflexivity|].
  eexists _, _. split; [reflexivity|].
  rewrite <- Hn, lookup_insert_eq. split; [reflexivity|].
  unfold Headers.getAll. rewrite lookup_insert_eq. split; [reflexivity|].
  intros other Ho. rewrite !lookup_insert_ne by congruence. reflexivity.
Qed.

Lemma header_add_accumulates_witness :
  exists h1 h2,
    Headers.add "Set-Cookie" (Response.AStr "a=1") ∅ = Normal h1
    /\ Headers.add "set-cookie" (Response.AStr "b=2") h1 = Normal h2
    /\ Headers.getAll "Set-Cookie" h2 = Normal (Some [Str "a=1"; Str "b=2"]).
Proof.
  pose proof (header_add_accumulates "Set-Cookie" "set-cookie"
                (Response.AStr "a=1") (Response.AStr "b=2") ∅) as H.
  change (Headers.inherited (JsString.toLowerCase "Set-Cookie")) with false in H.
  destruct H as (h1 & h2 & H1 & H2 & H3 & _).
  - vm_compute. reflexivity.
  - apply lookup_empty.
  - exists h1, h2. split; [exact H1|]. split; [exact H2|exact H3].
Defined.

(** * Further properties of the request handler *)

Section ApplicationFacts.
Import Application.

Variable toNumber : string -> num.
Variable engineOrder : list MessageContext.acceptEntry -> list MessageContext.acceptEntry.
Variable byteLength : body -> Z.
Variable req : Request.

Lemma respond_sent (mimeType : string) (buffer : body) (w : World) :
  let s := snd (respond byteLength mimeType buffer w) in
  sentStatus s = responseStatus w
  /\ sentBody s = Some buffer
  /\ Headers.get "Content-Type" (sentHeaders s)
     = (if Headers.has "Content-Type" (responseHeaders w)
        then Headers.get "Content-Type" (responseHeaders w)
        else Normal (Some (Str mimeType)))
  /\ Headers.get "Content-Length" (sentHeaders s)
     = (if Headers.has "Content-Length" (responseHeaders w)
        then Headers.get "Content-Length" (responseHeaders w)
        else Normal (Some (NumText (byteLength buffer))))
  /\ (forall other,
         JsString.toLowerCase other <> "content-type"%string ->
         JsString.toLowerCase other <> "content-length"%string ->
         Headers.getAll other (sentHeaders s) = Headers.getAll other (responseHeaders w))
  /\ responseHeaders (fst (respond byteLength mimeType buffer w)) = sentHeaders s.
Proof.
  unfold respond. cbn [snd fst sentStatus sentBody sentHeaders responseHeaders set_responseHeaders].
  split; [reflexivity|]. split; [reflexivity|].
  unfold Headers.has, Headers.get, Headers.getAll, Response.headersSet.
  change (JsString.toLowerCase "Content-Type") with "content-type"%string.
  change (JsString.toLowerCase "Content-Length") with "content-length"%string.
  cbn [Response.storedValues].
  change (Headers.inherited "content-type") with false.
  change (Headers.inherited "content-length") with false.
  destruct (responseHeaders w !! "content-type"%string) as [ct|] eqn:Ect;
    destruct (responseHeaders w !! "content-length"%string) as [cl|] eqn:Ecl;
    repeat first [ rewrite lookup_insert_eq
                 | rewrite lookup_insert_ne by discriminate
                 | rewrite Ect | rewrite Ecl ];
    (split; [reflexivity|]); (split; [reflexivity|]);
    (split; [|reflexivity]); intros other H1 H2;
    rewrite ?lookup_insert_ne by congruence; reflexivity.
Qed.

Lemma defaultResponse_sent (code : Z) (html json plain : body) (w : World)
      (a : option string) :
  MessageContext.accepts toNumber engineOrder req ["html"; "json"]%string = Normal a ->
  exists w' s,
    defaultResponse toNumber engineOrder byteLength req code html json plain w = (w', Normal (Some s))
    /\ sentStatus s = code
    /\ sentBody s = Some (RoutedApplication.chosen a html json plain)
    /\ Headers.get "Content-Type" (sentHeaders s)
       = (if Headers.has "Content-Type" (responseHeaders w)
          then Headers.get "Content-Type" (responseHeaders w)
          else Normal (Some (Str (RoutedApplication.chosen a
                                    "text/html; charset=UTF-8"
                                    "application/json; charset=UTF-8"
                                    "text/plain; charset=UTF-8"))))%string.
Proof.
  intros Ha. unfold defaultResponse. rewrite Ha.
  assert (Hcase : a = None \/ a = Some "html"%string \/ a = Some "json"%string).
  { destruct a as [r|]; [|left; reflexivity]. right.
    apply accepts_In in Ha. cbn [In] in Ha.
    destruct Ha as [<-|[<-|[]]]; [left|right]; reflexivity. }
  destruct Hcase as [->|[->| ->]]; cbn [String.eqb Ascii.eqb Bool.eqb RoutedApplication.chosen];
    match goal with
    | |- context [respond byteLength ?m ?b ?w1] =>
        pose proof (respond_sent m b w1) as Hs;
        destruct (respond byteLength m b w1) as [w2 s]
    end;
    cbn [snd fst] in Hs; destruct Hs as (H1 & H2 & H3 & _);
    exists w2, s; (split; [reflexivity|]); (split; [exact H1|]);
    (split; [exact H2|]); exact H3.
Qed.

Lemma defaultResponse_throws (code : Z) (html json plain : body) (w : World) (m : string) :
  MessageContext.accepts toNumber engineOrder req ["html"; "json"]%string = Throw m ->
  defaultResponse toNumber engineOrder byteLength req code html json plain w
  = (Response.status code w, Throw m).
Proof. intros Ha. unfold defaultResponse. rewrite Ha. reflexivity. Qed.


End ApplicationFacts.



(** X21. When the dispatch throws and no [onError] handler is installed,
    the status becomes 500, whatever status was set before. If the
    Accept header can be negotiated, the request is answered: the body
    is the default error page, the JSON status or the plain text as the
    header prefers html, json or neither. If the negotiation throws,
    the handler throws and nothing is written. *)
Theorem uncaught_error_gets_500
        (toNumber : string -> num)
        (engineOrder : list MessageContext.acceptEntry -> list MessageContext.acceptEntry) (byteLength : Application.body -> Z)
        (req : Request) (dispatch : World -> World * completion AnyType)
        (onUnhandled : option (World ->
                               World * completion (option RouterHandleResponse.payload)))
        (w w1 : World) (error : string) :
  dispatch w = (w1, Throw error) ->
  let answer :=
    Application.handlerFunction toNumber engineOrder byteLength req dispatch None
      onUnhandled w in
  match MessageContext.accepts toNumber engineOrder req ["html"; "json"]%string with
  | Normal a =>
      exists w' s,
        answer = (w', Normal (Some s))
        /\ Application.sentStatus s = 500%Z
        /\ Application.sentBody s
           = Some (RoutedApplication.chosen a
                     (Application.ErrorPage (path req) error)
                     (Application.StatusJson 500 "Internal Server Error")
                     (Application.Payload (Text "500 Internal Server Error")))
        /\ Headers.get "Content-Type" (Application.sentHeaders s)
           = (if Headers.has "Content-Type" (responseHeaders w1)
              then Headers.get "Content-Type" (responseHeaders w1)
              else Normal (Some (Str (RoutedApplication.chosen a
                                        "text/html; charset=UTF-8"
                                        "application/json; charset=UTF-8"
                                        "text/plain; charset=UTF-8"))))%string
  | Throw m => answer = (Response.status 500 w1, Throw m)
  end.
Proof.
  intros Hd answer. subst answer. unfold Application.handlerFunction. rewrite Hd.
  destruct (MessageContext.accepts toNumber engineOrder req ["html"; "json"]%string)
    as [a|m] eqn:Ha.
  - destruct (defaultResponse_sent toNumber engineOrder byteLength req 500
                (Application.ErrorPage (path req) error)
                (Application.StatusJson 500 "Internal Server Error")
                (Application.Payload (Text "500 Internal Server Error")) w1 a Ha)
      as (w' & s & Hs & H1 & H2 & H3).
    exists w', s. split; [exact Hs|]. split; [exact H1|]. split; [exact H2|exact H3].
  - apply defaultResponse_throws. exact Ha.
Qed.

Lemma uncaught_error_gets_500_witness :
  Application.handlerFunction Decimal.toNumber MessageContext.unsorted (fun _ => 0%Z)
    {| method := "GET"; path := "/b"; accept := Some "text/plain;mimeType=1" |}
    (fun w => (w, Throw "boom")) None None RoutedApplication.world
  = (Response.status 500 RoutedApplication.world, Throw "TypeError").
Proof.
  pose proof (uncaught_error_gets_500 Decimal.toNumber MessageContext.unsorted
                (fun _ => 0%Z)
                {| method := "GET"; path := "/b"; accept := Some "text/plain;mimeType=1" |}
                (fun w => (w, Throw "boom")) None
                RoutedApplication.world RoutedApplication.world "boom") as H.
  cbv zeta in H.
  change (MessageContext.accepts Decimal.toNumber MessageContext.unsorted
            {| method := "GET"; path := "/b"; accept := Some "text/plain;mimeType=1" |}
            ["html"; "json"]%string)
    with (Throw (A := option string) "TypeError") in H.
  apply H. reflexivity.
Defined.

(** X22. A result of the dispatch is sent with the status of the message
    context and with the result as body. A text or a byte array gets the
    content type [text/plain; charset=UTF-8] or [application/octet-stream]
    and its byte length as Content-Length, each only if the response has
    no such header yet; a stream is sent with the headers as they are. *)
Theorem result_is_sent_with_context_status
        (toNumber : string -> num)
        (engineOrder : list MessageContext.acceptEntry -> list MessageContext.acceptEntry) (byteLength : Application.body -> Z)
        (req : Request) (dispatch : World -> World * completion AnyType)
        (onError : option (string -> World ->
                           World * completion (option RouterHandleResponse.payload)))
        (onUnhandled : option (World ->
                               World * completion (option RouterHandleResponse.payload)))
        (w w1 : World) (p : RouterHandleResponse.payload) :
  dispatch w = (w1, Normal (RESULT p)) ->
  exists w' s,
    Application.handlerFunction toNumber engineOrder byteLength req dispatch onError onUnhandled w
    = (w', Normal (Some s))
    /\ Application.sentStatus s = responseStatus w1
    /\ Application.sentBody s = Some (Application.Payload p)
    /\ Headers.get "Content-Type" (Application.sentHeaders s)
       = (if Headers.has "Content-Type" (responseHeaders w1)
          then Headers.get "Content-Type" (responseHeaders w1)
          else match p with
               | Text _ => Normal (Some (Str "text/plain; charset=UTF-8"))
               | Bytes _ => Normal (Some (Str "application/octet-stream"))
               | Stream _ => Normal None
               end)
    /\ Headers.get "Content-Length" (Application.sentHeaders s)
       = (if Headers.has "Content-Length" (responseHeaders w1)
          then Headers.get "Content-Length" (responseHeaders w1)
          else match p with
               | Stream _ => Normal None
               | _ => Normal (Some (NumText (byteLength (Application.Payload p))))
               end).
Proof.
  intros Hd. unfold Application.handlerFunction. rewrite Hd.
  unfold Application.settle, Application.unhandledHook.
  assert (Hhook : (match onUnhandled with
                   | Some handler =>
                       if is_UNHANDLED (RESULT p)
                       then match handler w1 with
                            | (w', Normal errorRes) => (w', Normal (Application.created errorRes))
                            | (w', Throw m) => (w', Throw m)
                            end
                       else (w1, Normal (RESULT p))
                   | None => (w1, Normal (RESULT p))
                   end) = (w1, Normal (RESULT p))).
  { destruct onUnhandled; reflexivity. }
  rewrite Hhook. unfold Application.finish.
  destruct p as [t|b|id].
  - pose proof (respond_sent byteLength "text/plain; charset=UTF-8"
                  (Application.Payload (Text t)) w1) as Hs.
    destruct (Application.respond byteLength "text/plain; charset=UTF-8"
                (Application.Payload (Text t)) w1) as [w' s].
    cbn [snd fst] in Hs. destruct Hs as (H1 & H2 & H3 & H4 & _).
    exists w', s. repeat split; assumption.
  - pose proof (respond_sent byteLength "application/octet-stream"
                  (Application.Payload (Bytes b)) w1) as Hs.
    destruct (Application.respond byteLength "application/octet-stream"
                (Application.Payload (Bytes b)) w1) as [w' s].
    cbn [snd fst] in Hs. destruct Hs as (H1 & H2 & H3 & H4 & _).
    exists w', s. repeat split; assumption.
  - eexists _, _. split; [reflexivity|].
    cbn [Application.sentStatus Application.sentBody Application.sentHeaders].
    split; [reflexivity|]. split; [reflexivity|].
    unfold Headers.has, Headers.get.
    change (JsString.toLowerCase "Content-Type") with "content-type"%string.
    change (JsString.toLowerCase "Content-Length") with "content-length"%string.
    change (Headers.inherited "content-type") with false.
    change (Headers.inherited "content-length") with false.
    split.
    + destruct (responseHeaders w1 !! "content-type"%string) as [[|v l]|]; reflexivity.
    + destruct (responseHeaders w1 !! "content-length"%string) as [[|v l]|]; reflexivity.
Qed.

Lemma result_is_sent_with_context_status_witness :
  exists w' s,
    Application.handlerFunction Decimal.toNumber MessageContext.unsorted (fun _ => 5%Z)
      {| method := "GET"; path := "/a"; accept := None |}
      (fun w => (Response.status 201 w, Normal (RESULT (Text "hello"))))
      None None RoutedApplication.world
    = (w', Normal (Some s))
    /\ Application.sentStatus s = 201%Z
    /\ Application.sentBody s = Some (Application.Payload (Text "hello")).
Proof.
  destruct (result_is_sent_with_context_status Decimal.toNumber MessageContext.unsorted (fun _ => 5%Z)
              {| method := "GET"; path := "/a"; accept := None |}
              (fun w => (Response.status 201 w, Normal (RESULT (Text "hello"))))
              None None RoutedApplication.world
              (Response.status 201 RoutedApplication.world) (Text "hello"))
    as (w' & s & H1 & H2 & H3 & _).
  - reflexivity.
  - exists w', s. split; [exact H1|]. split; [exact H2|exact H3].
Defined.



(** * Further properties of cookies *)

(** X24. A max-age of 0 is written like no max-age: the text of a cookie
    has no Max-Age attribute then. Hence [removeCookie] adds the
    Set-Cookie value [key=] (the key with an empty value and no
    attribute), exactly what [setCookie(key, '')] adds. *)
Theorem remove_cookie_writes_no_max_age
        (encodeURIComponent : string -> string) (numberText dateText : num -> string) :
  (forall key value o,
      Cookie.toString encodeURIComponent numberText dateText
        (Cookie.create key value (Some (Cookie.withMaxAge (Some (Cookie.ANumber (Fin 0))) o)))
      = Cookie.toString encodeURIComponent numberText dateText
          (Cookie.create key value (Some (Cookie.withMaxAge None o))))
  /\ (forall key w,
         Cookie.removeCookie encodeURIComponent numberText dateText key w
         = Cookie.setCookie encodeURIComponent numberText dateText key EmptyString None w)
  /\ (forall key w,
         exists w',
           Cookie.removeCookie encodeURIComponent numberText dateText key w = Normal w'
           /\ Headers.getAll "Set-Cookie" (responseHeaders w')
              = Normal (Some (match responseHeaders w !! "set-cookie"%string with
                              | Some current => current
                              | None => []
                              end
                              ++ [Str (String.append key
                                         (String.append "=" (encodeURIComponent EmptyString)))]))
           /\ responseStatus w' = responseStatus w).
Proof.
  split; [|split].
  - intros key value o. reflexivity.
  - intros key w. reflexivity.
  - intros key w. unfold Cookie.removeCookie, Cookie.setCookie, Headers.add, Headers.getAll.
    change (JsString.toLowerCase "Set-Cookie") with "set-cookie"%string.
    change (Headers.inherited "set-cookie") with false.
    destruct (responseHeaders w !! "set-cookie"%string) as [current|];
      (eexists; split; [reflexivity|]);
      cbn [responseHeaders set_responseHeaders responseStatus];
      rewrite lookup_insert_eq; split; reflexivity.
Qed.

(** * Further properties of the installation of an extension *)

(** X25. Installing an extension appends it to the installed ones and
    runs the hooks of that extension only: what its
    [decorateRouterContext] hook returns is assigned to the application,
    then what its [decorateApplication] hook returns on the application
    so decorated, the later winning for a field both return. When one of
    them returns a field the application refuses to be assigned, the
    installation throws a TypeError with the extension already appended,
    and after a failure of the first assignment the second is not made.
    No field of the application is removed. *)
Theorem install_decorates_with_the_new_extension
        (V : Type) (readOnly : string -> bool) (e : Decoration.Extension V)
        (exts : list (Decoration.Extension V)) (app : gmap string V) (k : string) :
  let installed := Decoration.install V readOnly e (exts, app) in
  let routerFields :=
    omap (Decoration.returned V (Decoration.decorateRouterContext V) app) [e] in
  let app1 := fst (Decoration.objectAssign V readOnly app routerFields) in
  let applicationFields :=
    omap (Decoration.returned V (Decoration.decorateApplication V) app1) [e] in
  fst (fst installed) = exts ++ [e]
  /\ (is_Some (app !! k) -> is_Some (snd (fst installed) !! k))
  /\ (Decoration.allWritable V readOnly routerFields = false ->
      snd installed = Throw "TypeError" /\ snd (fst installed) = app1)
  /\ (Decoration.allWritable V readOnly routerFields = true ->
      Decoration.allWritable V readOnly applicationFields = false ->
      snd installed = Throw "TypeError")
  /\ (Decoration.allWritable V readOnly routerFields = true ->
      Decoration.allWritable V readOnly applicationFields = true ->
      snd installed = Normal tt
      /\ snd (fst installed) !! k
         = Decoration.lastWriter V k app (routerFields ++ applicationFields)).
Proof.
  cbv zeta. unfold Decoration.install, Decoration.decorateRouterContextWith,
    Decoration.decorateApplicationWith.
  rewrite !filterBoolean_exec.
  set (routerFields := omap (Decoration.returned V (Decoration.decorateRouterContext V) app) [e]).
  pose proof (objectAssign_keeps readOnly routerFields app k) as Hkeep1.
  pose proof (objectAssign_writable readOnly routerFields app k) as Hw1.
  pose proof (objectAssign_refused readOnly routerFields app) as Hr1.
  destruct (Decoration.objectAssign V readOnly app routerFields) as [app1 c1] eqn:E1.
  cbn [fst snd] in Hkeep1, Hw1, Hr1 |- *.
  destruct c1 as [[]|m].
  - rewrite filterBoolean_exec.
    set (applicationFields :=
           omap (Decoration.returned V (Decoration.decorateApplication V) app1) [e]).
    pose proof (objectAssign_keeps readOnly applicationFields app1 k) as Hkeep2.
    pose proof (objectAssign_writable readOnly applicationFields app1 k) as Hw2.
    pose proof (objectAssign_refused readOnly applicationFields app1) as Hr2.
    destruct (Decoration.objectAssign V readOnly app1 applicationFields) as [app2 c2] eqn:E2.
    cbn [fst snd] in Hkeep2, Hw2, Hr2 |- *.
    split; [reflexivity|]. split; [intros H; apply Hkeep2, Hkeep1, H|].
    split; [intros H; specialize (Hr1 H); discriminate|].
    split; [intros _ H; exact (Hr2 H)|].
    intros Hwr Hwa. destruct (Hw1 Hwr) as [_ Hl1]. destruct (Hw2 Hwa) as [Hc2 Hl2].
    split; [exact Hc2|]. rewrite Hl2. unfold Decoration.lastWriter in *.
    rewrite Hl1, concat_app, rev_app_distr, find_append.
    destruct (find (fun e0 => String.eqb (fst e0) k) (rev (concat applicationFields)));
      reflexivity.
  - split; [reflexivity|]. split; [exact Hkeep1|].
    split; [intros H; split; [exact (Hr1 H)|reflexivity]|].
    split; intros H; destruct (Hw1 H) as [Hc _]; discriminate.
Qed.

(** * Further properties of the creation of a message context *)

Section CreateFacts.
Import Url.
Local Open Scope string_scope.

Lemma pathAndQuery_app (path text : string) :
  indexOf "?" path = None ->
  pathAndQuery (path ++ String "?" text) = (path, Some text).
Proof.
  intros Hp. unfold pathAndQuery.
  assert (H : indexOf "?" (path ++ String "?" text) = Some (String.length path)
              /\ take (String.length path) (path ++ String "?" text) = path
              /\ drop (String.length path + 1) (path ++ String "?" text) = text).
  { induction path as [|a r IH].
    - rewrite append_nil_l. cbn. repeat split.
    - cbn [indexOf] in Hp. destruct (Ascii.eqb a "?") eqn:Ea; [discriminate|].
      destruct (indexOf "?" r) eqn:Er; [discriminate|].
      destruct (IH eq_refl) as (H1 & H2 & H3).
      rewrite append_cons. cbn [indexOf String.length take drop Nat.add].
      rewrite Ea, H1, H2, H3. repeat split. }
  destruct H as (H1 & H2 & H3). rewrite H1, H2, H3. reflexivity.
Qed.

End CreateFacts.

(** X26. For a url [path?k1=v1&k2=v2...] (the path without question
    mark, keys and values without [&], [=] or escapes) the message
    context gets the path and the query object of the query text. When
    a key is the name of a member of [Object.prototype], the creation
    of the message context throws a TypeError. *)
Theorem url_query_is_read_at_creation
        (decode : string -> option string) (path : string)
        (pairs : list QueryText.pair) :
  Url.indexOf "?" path = None ->
  pairs <> [] ->
  forallb QueryText.plainPair pairs = true ->
  Forall (fun x => decode x = Some x) (QueryText.partsOf pairs) ->
  let url := String.append path (String "?" (QueryText.queryText pairs)) in
  (QueryText.noneInherited pairs = false ->
   MessageCreate.pathAndQueryObject decode url = Throw "TypeError")
  /\ (QueryText.noneInherited pairs = true ->
      exists query,
        MessageCreate.pathAndQueryObject decode url = Normal (path, query)
        /\ QueryObject.from decode (QueryText.queryText pairs) = Normal query
        /\ forall name,
            QueryObject.mentions name (map QueryText.entryFor pairs) = true ->
            QueryObject.getAll name query
            = QueryObject.AllValues
                (QueryObject.valuesFor name (map QueryText.entryFor pairs))).
Proof.
  intros Hpath Hne Hp Hd url. subst url.
  unfold MessageCreate.pathAndQueryObject. rewrite (pathAndQuery_app _ _ Hpath).
  unfold QueryObject.from.
  rewrite (entriesOf_queryText decode pairs Hne Hp Hd). split.
  - intros Hi. rewrite addAll_throws; [reflexivity| |].
    + intros name _. apply lookup_empty.
    + rewrite noneInherited_entries. exact Hi.
  - intros Hi.
    destruct (addAll_lookup (map QueryText.entryFor pairs) ∅) as (q & Hq & Hl).
    { rewrite noneInherited_entries. exact Hi. }
    exists q. rewrite Hq. split; [reflexivity|]. split; [reflexivity|].
    intros name Hm. unfold QueryObject.getAll. rewrite Hl, lookup_empty, Hm. reflexivity.
Qed.

Lemma url_query_is_read_at_creation_witness :
  MessageCreate.pathAndQueryObject Some "/search?q=tea&constructor=x" = Throw "TypeError".
Proof.
  apply (url_query_is_read_at_creation Some "/search"
           [("q", Some "tea"); ("constructor", Some "x")]).
  - reflexivity.
  - discriminate.
  - vm_compute. reflexivity.
  - cbn. repeat constructor.
  - vm_compute. reflexivity.
Defined.

(** * Further properties of the cookies of a request *)

Section CookieHeaderFacts.
Import JsString RequestCookies.
Local Open Scope string_scope.

Variable decode : string -> option string.

Ltac ascii_cases a :=
  destruct a as [[] [] [] [] [] [] [] []]; try discriminate; reflexivity.

Lemma not_space_not_blank (a : ascii) : is_space a = false -> Ascii.eqb a " " = false.
Proof. ascii_cases a. Qed.

Lemma plainPart_parts (x : string) :
  plainPart x = true -> free ";" x /\ free "=" x /\ noSpace x.
Proof.
  unfold plainPart, free, noSpace.
  induction (list_ascii_of_string x) as [|a l IH]; cbn [forallb].
  - repeat split.
  - intros H. apply andb_true_iff in H as [Ha Hl].
    apply andb_true_iff in Ha as [Ha Ha3]. apply andb_true_iff in Ha as [Ha1 Ha2].
    destruct (IH Hl) as (H1 & H2 & H3). rewrite Ha1, Ha2, Ha3, H1, H2, H3. repeat split.
Qed.

Lemma noSpace_cons (a : ascii) (r : string) :
  noSpace (String a r) -> is_space a = false /\ noSpace r.
Proof.
  unfold noSpace. cbn [list_ascii_of_string forallb]. intros H.
  apply andb_true_iff in H as [Ha Hr]. apply negb_true_iff in Ha. split; assumption.
Qed.

Lemma noSpace_app (x y : string) : noSpace x -> noSpace y -> noSpace (x ++ y).
Proof.
  unfold noSpace. intros Hx Hy.
  change list_ascii_of_string with PathSpec.chars. rewrite chars_app, forallb_app.
  unfold PathSpec.chars. rewrite Hx, Hy. reflexivity.
Qed.

Lemma trimEnd_noSpace (x : string) : noSpace x -> trimEnd x = x.
Proof.
  induction x as [|a r IH]; [reflexivity|]. intros H.
  apply noSpace_cons in H as [Ha Hr]. cbn [trimEnd]. rewrite (IH Hr), Ha.
  destruct r; reflexivity.
Qed.

Lemma dropTrailing_noSpace (x : string) : noSpace x -> dropTrailing x = x.
Proof.
  induction x as [|a r IH]; [reflexivity|]. intros H.
  apply noSpace_cons in H as [Ha Hr]. cbn [dropTrailing].
  rewrite (IH Hr), (not_space_not_blank a Ha). destruct r; reflexivity.
Qed.

Lemma dropLeading_noSpace (x : string) : noSpace x -> dropLeading x = x.
Proof.
  destruct x as [|a r]; [reflexivity|]. intros H.
  apply noSpace_cons in H as [Ha _]. cbn [dropLeading].
  rewrite (not_space_not_blank a Ha). reflexivity.
Qed.

Lemma trimEnd_app (x y : string) :
  trimEnd y = y -> y <> "" -> trimEnd (x ++ y) = x ++ y.
Proof.
  intros Hy Hne. induction x as [|a x IH].
  - rewrite append_nil_l. exact Hy.
  - rewrite append_cons. cbn [trimEnd]. rewrite IH.
    destruct (x ++ y) eqn:E; [|reflexivity].
    exfalso. destruct x; [rewrite append_nil_l in E; congruence|].
    rewrite append_cons in E. discriminate.
Qed.

Lemma itemText_plain (p : QueryText.pair) :
  plainPair p = true ->
  free ";" (QueryText.itemText p) /\ noSpace (QueryText.itemText p)
  /\ exists a r, QueryText.itemText p = String a r.
Proof.
  unfold plainPair, QueryText.itemText. destruct p as [k [v|]]; cbn [fst snd]; intros H.
  - apply andb_true_iff in H as [H Hv]. apply andb_true_iff in H as [Hk Hne].
    apply plainPart_parts in Hk as (Hk1 & _ & Hk3).
    apply plainPart_parts in Hv as (Hv1 & _ & Hv3).
    split; [|split].
    + apply free_app; [assumption|]. unfold free in *.
      cbn [list_ascii_of_string forallb]. rewrite Hv1. reflexivity.
    + apply noSpace_app; [assumption|]. unfold noSpace in *.
      cbn [list_ascii_of_string forallb]. rewrite Hv3. reflexivity.
    + destruct k as [|a k']; [discriminate|]. rewrite append_cons. eauto.
  - apply andb_true_iff in H as [H _]. apply andb_true_iff in H as [Hk Hne].
    apply plainPart_parts in Hk as (Hk1 & _ & Hk3).
    split; [assumption|]. split; [assumption|].
    destruct k as [|a k']; [discriminate|]. eauto.
Qed.

Lemma split_padded (items : list string) :
  Forall (free ";") items ->
  split ";" (join "; " items) = padded items.
Proof.
  unfold join. induction items as [|x [|y r] IH]; intros Hf.
  - reflexivity.
  - cbn. apply split_free_one. inversion Hf; assumption.
  - inversion Hf as [|? ? Hx Hrest]; subst.
    rewrite concat_cons by discriminate.
    change ("; " ++ String.concat "; " (y :: r))
      with (String ";" (String " " (String.concat "; " (y :: r)))).
    rewrite split_app by assumption. cbn [padded map]. f_equal.
    cbn [split]. change (Ascii.eqb " " ";") with false. cbv iota.
    rewrite (IH Hrest). reflexivity.
Qed.

Lemma strip_padded (r : list string) :
  forall (x : string) (b : bool),
    noSpace x -> Forall noSpace r ->
    strip b ((if b then x else String " " x) :: map (String " ") r) = x :: r.
Proof.
  induction r as [|y r IH]; intros x b Hx Hr.
  - cbn [map strip]. destruct b; [reflexivity|].
    cbn [dropLeading]. change (Ascii.eqb " " " ") with true. cbv iota.
    rewrite (dropLeading_noSpace x Hx). reflexivity.
  - inversion Hr as [|? ? Hy Hr']; subst.
    cbn [map]. change (strip b ((if b then x else String " " x) :: String " " y :: map (String " ") r))
      with ((if b then dropTrailing (if b then x else String " " x)
             else dropTrailing (dropLeading (if b then x else String " " x)))
            :: strip false (String " " y :: map (String " ") r)).
    rewrite (IH y false Hy Hr'). f_equal. destruct b.
    + apply dropTrailing_noSpace. exact Hx.
    + cbn [dropLeading]. change (Ascii.eqb " " " ") with true. cbv iota.
      rewrite (dropLeading_noSpace x Hx). apply dropTrailing_noSpace. exact Hx.
Qed.

Lemma regexSplit_cookieText (pairs : list QueryText.pair) :
  pairs <> [] ->
  forallb plainPair pairs = true ->
  regexSplit (cookieText pairs) = map QueryText.itemText pairs.
Proof.
  intros Hne Hp. unfold regexSplit, cookieText.
  assert (Hall : Forall (fun p => free ";" (QueryText.itemText p)
                                  /\ noSpace (QueryText.itemText p)) pairs).
  { apply Forall_forall. intros p Hin. apply list_elem_of_In in Hin.
    rewrite forallb_forall in Hp. destruct (itemText_plain p (Hp p Hin)) as (H1 & H2 & _).
    split; assumption. }
  rewrite split_padded.
  - destruct pairs as [|p ps]; [congruence|]. cbn [map padded].
    inversion Hall as [|? ? [_ Hx] Hrest]; subst.
    apply (strip_padded (map QueryText.itemText ps) (QueryText.itemText p) true Hx).
    apply Forall_map. eapply Forall_impl; [exact Hrest|]. cbn. tauto.
  - apply Forall_map. eapply Forall_impl; [exact Hall|]. cbn. tauto.
Qed.

Lemma trim_cookieText (pairs : list QueryText.pair) :
  pairs <> [] ->
  forallb plainPair pairs = true ->
  trim (cookieText pairs) = cookieText pairs.
Proof.
  intros Hne Hp. unfold trim.
  assert (Hstart : trimStart (cookieText pairs) = cookieText pairs).
  { destruct pairs as [|p ps]; [congruence|]. cbn [forallb] in Hp.
    apply andb_true_iff in Hp as [Hp _].
    destruct (itemText_plain p Hp) as (_ & Hs & a & r & Ht).
    rewrite Ht in Hs. apply noSpace_cons in Hs as [Ha _].
    unfold cookieText, join. cbn [map].
    destruct ps as [|q ps].
    - cbn [map String.concat]. rewrite Ht. cbn [trimStart]. rewrite Ha. reflexivity.
    - cbn [map]. rewrite concat_cons by discriminate. rewrite Ht, append_cons.
      cbn [trimStart]. rewrite Ha. reflexivity. }
  rewrite Hstart. clear Hstart.
  assert (H : trimEnd (cookieText pairs) = cookieText pairs /\ cookieText pairs <> "").
  { unfold cookieText, join. induction pairs as [|p [|q ps] IH]; [congruence| |].
    - cbn [forallb] in Hp. apply andb_true_iff in Hp as [Hp _].
      destruct (itemText_plain p Hp) as (_ & Hs & a & r & Ht).
      cbn [map String.concat]. split; [apply trimEnd_noSpace; exact Hs|].
      rewrite Ht. discriminate.
    - cbn [forallb] in Hp. apply andb_true_iff in Hp as [_ Hps].
      destruct (IH ltac:(discriminate) Hps) as [IH1 IH2].
      cbn [map]. rewrite concat_cons by discriminate.
      cbn [map] in IH1, IH2. rewrite <- append_assoc. split.
      + apply trimEnd_app; assumption.
      + intros E. apply IH2.
        destruct (QueryText.itemText p ++ "; ") eqn:E1.
        * rewrite append_nil_l in E. exact E.
        * rewrite append_cons in E. discriminate. }
  apply H.
Qed.

Lemma item_pair (p : QueryText.pair) :
  plainPair p = true ->
  Forall (fun x => decode x = Some x) (QueryText.partsOf [p]) ->
  exists parts,
    QueryObject.decodeAll decode (split "=" (QueryText.itemText p)) = Some parts
    /\ pairOf parts = Some p.
Proof.
  unfold plainPair, QueryText.itemText, QueryText.partsOf.
  destruct p as [k [v|]]; cbn [fst snd flat_map app]; intros H Hd.
  - apply andb_true_iff in H as [H Hv]. apply andb_true_iff in H as [Hk Hne].
    apply plainPart_parts in Hk as (_ & Hk & _). apply plainPart_parts in Hv as (_ & Hv & _).
    rewrite split_app by assumption. rewrite split_free_one by assumption.
    inversion Hd as [|? ? Hdk Hd']; subst. inversion Hd' as [|? ? Hdv _]; subst.
    cbn [QueryObject.decodeAll]. rewrite Hdk, Hdv. eexists. split; [reflexivity|].
    cbn [pairOf]. apply negb_true_iff in Hne. rewrite Hne. reflexivity.
  - apply andb_true_iff in H as [H _]. apply andb_true_iff in H as [Hk Hne].
    apply plainPart_parts in Hk as (_ & Hk & _).
    rewrite split_free_one by assumption.
    inversion Hd as [|? ? Hdk _]; subst.
    cbn [QueryObject.decodeAll]. rewrite Hdk. eexists. split; [reflexivity|].
    cbn [pairOf]. apply negb_true_iff in Hne. rewrite Hne. reflexivity.
Qed.

Lemma items_pairs (pairs : list QueryText.pair) :
  forallb plainPair pairs = true ->
  Forall (fun x => decode x = Some x) (QueryText.partsOf pairs) ->
  exists items,
    QueryObject.decodeItems decode (map QueryText.itemText pairs) = Some items
    /\ omap pairOf items = pairs.
Proof.
  induction pairs as [|p r IH]; [exists []; split; reflexivity|].
  cbn [forallb]. intros H Hd. apply andb_true_iff in H as [Hp Hr].
  unfold QueryText.partsOf in Hd. cbn [flat_map] in Hd. apply Forall_app in Hd as [Hd1 Hd2].
  destruct (item_pair p Hp) as (parts & Hparts & Hpair).
  { unfold QueryText.partsOf. cbn [flat_map]. rewrite app_nil_r. exact Hd1. }
  destruct (IH Hr Hd2) as (items & Hitems & Hpairs).
  exists (parts :: items). cbn [map QueryObject.decodeItems]. rewrite Hparts, Hitems.
  split; [reflexivity|]. cbn. rewrite Hpair. cbn. cbn in Hpairs. rewrite Hpairs. reflexivity.
Qed.

Lemma fromEntries_lookup (pairs : list QueryText.pair) (name : string) :
  fromEntries pairs !! name = lastValue name pairs.
Proof.
  unfold fromEntries, lastValue. induction pairs as [|p ps IH] using rev_ind.
  - reflexivity.
  - rewrite fold_left_app, rev_app_distr. cbn [fold_left rev app find].
    destruct (String.eqb (fst p) name) eqn:E.
    + apply String.eqb_eq in E. subst name. rewrite lookup_insert_eq. reflexivity.
    + apply String.eqb_neq in E. rewrite lookup_insert_ne by exact E. exact IH.
Qed.

End CookieHeaderFacts.

(** X27. A Cookie header [k1=v1; k2=v2; ...] (keys and values without
    semicolon, equals sign, white space or escapes, keys not empty) is
    read into an object that has exactly the keys of the header, each
    with the value of its last occurrence; a key written without [=]
    is present with the value [undefined]. *)
Theorem cookie_header_is_read_by_key
        (decode : string -> option string) (pairs : list QueryText.pair) :
  pairs <> [] ->
  forallb RequestCookies.plainPair pairs = true ->
  Forall (fun x => decode x = Some x) (QueryText.partsOf pairs) ->
  exists cookies,
    RequestCookies.cookies decode (Some (RequestCookies.cookieText pairs)) = Normal cookies
    /\ forall name, cookies !! name = RequestCookies.lastValue name pairs.
Proof.
  intros Hne Hp Hd. unfold RequestCookies.cookies.
  rewrite (trim_cookieText pairs Hne Hp), (regexSplit_cookieText pairs Hne Hp).
  destruct (items_pairs decode pairs Hp Hd) as (items & Hitems & Hpairs).
  rewrite Hitems, Hpairs. eexists. split; [reflexivity|].
  apply fromEntries_lookup.
Qed.

Lemma cookie_header_is_read_by_key_witness :
  exists cookies,
    RequestCookies.cookies Some (Some "sid=abc; theme=dark; sid=xyz") = Normal cookies
    /\ cookies !! "sid"%string = Some (Some "xyz"%string)
    /\ cookies !! "lang"%string = None.
Proof.
  destruct (cookie_header_is_read_by_key Some
              [("sid", Some "abc"); ("theme", Some "dark"); ("sid", Some "xyz")]%string)
    as (cookies & H1 & H2).
  - discriminate.
  - vm_compute. reflexivity.
  - cbn. repeat constructor.
  - exists cookies. split; [exact H1|]. split; apply H2.
Defined.

(** * Further properties of the request headers *)

Section ProxyFacts.
Import JsString HeadersProxy.

Lemma fill_lookup (entries : list (string * Response.headerArg)) :
  noProto entries = true ->
  exists h,
    fill entries = Some h
    /\ forall name,
        h !! toLowerCase name
        = option_map (fun e => Response.storedValues (snd e)) (lastEntry name entries).
Proof.
  unfold fill, lastEntry, noProto. induction entries as [|e es IH] using rev_ind.
  - intros _. exists ∅. split; [reflexivity|]. intros name. apply lookup_empty.
  - rewrite forallb_app. cbn [forallb]. intros H.
    apply andb_true_iff in H as [Hes He]. rewrite andb_true_r in He.
    apply negb_true_iff in He.
    destruct (IH Hes) as (h & Hh & Hl).
    rewrite fold_left_app, Hh. cbn [fold_left mbind option_bind].
    unfold Headers.set. rewrite He. eexists. split; [reflexivity|].
    intros name. rewrite rev_app_distr. cbn [rev app find].
    unfold Response.headersSet.
    destruct (String.eqb (toLowerCase (fst e)) (toLowerCase name)) eqn:E.
    + apply String.eqb_eq in E. rewrite E, lookup_insert_eq. reflexivity.
    + apply String.eqb_neq in E. rewrite lookup_insert_ne by exact E. apply Hl.
Qed.

End ProxyFacts.

(** X28. The headers of a request are read through the proxy by name, in
    any letter case: a property whose name is that of a header gives the
    first value of the last entry with that name, also when the name is
    that of a method of the container ([get], [has], ...), which the
    header then hides. Without such a header the names [constructor]
    and [__proto__] throw a TypeError when read, and any other name is
    looked up on the container itself. *)
Theorem request_headers_are_read_by_name
        (entries : list (string * Response.headerArg)) :
  HeadersProxy.noProto entries = true ->
  exists h,
    HeadersProxy.fill entries = Some h
    /\ forall name,
        HeadersProxy.proxyGet name h
        = match HeadersProxy.lastEntry name entries with
          | Some e =>
              match Response.storedValues (snd e) with
              | v :: _ => Normal (HeadersProxy.HeaderText v)
              | [] => Throw "TypeError"
              end
          | None =>
              if Headers.inherited (JsString.toLowerCase name) then Throw "TypeError"
              else Normal (HeadersProxy.Reflected name)
          end.
Proof.
  intros Hp. destruct (fill_lookup entries Hp) as (h & Hh & Hl).
  exists h. split; [exact Hh|]. intros name.
  unfold HeadersProxy.proxyGet, Headers.has, Headers.get. rewrite Hl.
  destruct (HeadersProxy.lastEntry name entries) as [e|]; cbn [option_map].
  - destruct (Response.storedValues (snd e)); reflexivity.
  - destruct (Headers.inherited (JsString.toLowerCase name)); reflexivity.
Qed.

Lemma request_headers_are_read_by_name_witness :
  exists h,
    HeadersProxy.fill [("host", Response.AStr "example.org"); ("get", Response.AStr "x")]
    = Some h
    /\ HeadersProxy.proxyGet "Host" h = Normal (HeadersProxy.HeaderText (Str "example.org"))
    /\ HeadersProxy.proxyGet "get" h = Normal (HeadersProxy.HeaderText (Str "x"))
    /\ HeadersProxy.proxyGet "constructor" h = Throw "TypeError"
    /\ HeadersProxy.proxyGet "getAll" h = Normal (HeadersProxy.Reflected "getAll").
Proof.
  destruct (request_headers_are_read_by_name
              [("host", Response.AStr "example.org"); ("get", Response.AStr "x")]%string)
    as (h & H1 & H2).
  - vm_compute. reflexivity.
  - exists h. split; [exact H1|]. repeat split; apply H2.
Defined.
